(** * PowerDNS exporter: the metric-mapping and collection engine

    A shallow embedding of [powerdns_exporter.go] and of the catalog file
    (definition tables and [makeRecursorRTimeHistogram]).

    - Go [float64] is Rocq's primitive binary64 [float]; [uint64] is [Z]
      with wrap-around modulo [2^64] written out.
    - [map[string]float64] (the statistics snapshot) and the [map[int]...]
      tables of the exporter are [gmap]s.  Maps the program iterates with
      [range] are association lists, and the order of each iteration is
      supplied by a [Runtime] which may return any permutation.
    - The effects of one collection cycle (metric objects being written,
      observations sent on the collector channel, log lines) are threaded
      through a state-and-panic monad [M].  [Collect] runs [scrape] first;
      the interleavings of the two goroutines of a cycle are shown to end
      in the same world.
    - The mutex and the goroutines of concurrent [Collect] invocations are
      modelled in [Module Concurrency] as an interleaving step relation.
    - [Describe] is the list of descriptors it sends, in order; the scrapes
      of a running exporter are [cycles], one [Collect] after the other. *)

From Stdlib Require Import ZArith Floats.PrimFloat Floats.FloatOps Floats.SpecFloat.
From stdpp Require Import gmap strings list sorting.

#[local] Set Warnings "-inexact-float".
#[local] Open Scope Z_scope.

(** ** Go runtime: numeric conversions and map iteration *)

(** Choices the Go language leaves to the implementation: the order in
    which [range] visits a map, and the result of converting a float that
    the target integer type cannot represent. *)
Record Runtime := mkRuntime {
  range_order : ∀ K V : Type, list (K * V) → list (K * V);
  uint64_unrepresentable : float → Z;
}.
Arguments range_order _ {K V} _.

(** Every [range] visits each entry of the map exactly once. *)
Definition Runtime_ok (rt : Runtime) : Prop :=
  ∀ (K V : Type) (m : list (K * V)), range_order rt m ≡ₚ m.

(** A runtime that visits maps in the order they were written. *)
Definition source_order_runtime : Runtime :=
  mkRuntime (λ _ _ m, m) (λ _, 0).

Definition wrap64 (z : Z) : Z := z mod 2 ^ 64.

(** Truncation toward zero of a finite float. *)
Definition float_trunc (f : float) : option Z :=
  match Prim2SF f with
  | S754_zero _ => Some 0
  | S754_finite s m e =>
      let mag := if 0 <=? e then Z.pos m * 2 ^ e else Z.pos m / 2 ^ (- e) in
      Some (if s then - mag else mag)
  | S754_infinity _ | S754_nan => None
  end.

(** The integer a float denotes, when it denotes one. *)
Definition float_integer (f : float) : option Z :=
  match Prim2SF f with
  | S754_zero _ => Some 0
  | S754_finite s m e =>
      if 0 <=? e then Some (if s then - (Z.pos m * 2 ^ e) else Z.pos m * 2 ^ e)
      else if Z.pos m mod 2 ^ (- e) =? 0
           then Some (if s then - (Z.pos m / 2 ^ (- e)) else Z.pos m / 2 ^ (- e))
           else None
  | S754_infinity _ | S754_nan => None
  end.

(** Go's conversion [uint64(value)] of a [float64]. *)
Definition uint64_of_float (rt : Runtime) (f : float) : Z :=
  match float_trunc f with
  | Some z =>
      if (0 <=? z) && (z <? 2 ^ 64) then z
      else wrap64 (uint64_unrepresentable rt f)
  | None => wrap64 (uint64_unrepresentable rt f)
  end.

(** [strings.HasSuffix]. *)
Definition HasSuffix (s suffix : string) : bool :=
  (String.length suffix <=? String.length s)%nat
  && String.eqb
       (String.substring (String.length s - String.length suffix)
                  (String.length suffix) s)
       suffix.

(** [sort.Float64s]: ascending, NaN before every number. *)
Definition float64_less (x y : float) : bool :=
  (x <? y)%float || (is_nan x && negb (is_nan y)).

Fixpoint float64_insert (x : float) (l : list float) : list float :=
  match l with
  | [] => [x]
  | y :: l' => if float64_less x y then x :: l else y :: float64_insert x l'
  end.

Definition Float64s (l : list float) : list float :=
  foldr float64_insert [] l.

(** A [map[float64]uint64]: keys compared with Go's [==] on floats. *)
Definition float_map := list (float * Z).

Fixpoint fm_get (m : float_map) (k : float) : option Z :=
  match m with
  | [] => None
  | (k', x) :: m' => if (k' =? k)%float then Some x else fm_get m' k
  end.

Fixpoint fm_set (m : float_map) (k : float) (x : Z) : float_map :=
  match m with
  | [] => [(k, x)]
  | (k', y) :: m' =>
      if (k' =? k)%float then (k', x) :: m' else (k', y) :: fm_set m' k x
  end.

(** ** Prometheus client objects *)

Definition namespace : string := "powerdns".

(** [prometheus.BuildFQName]. *)
Definition BuildFQName (ns subsystem name : string) : string :=
  if String.eqb name "" then ""
  else if negb (String.eqb ns "") && negb (String.eqb subsystem "")
       then ns +:+ "_" +:+ subsystem +:+ "_" +:+ name
  else if negb (String.eqb ns "") then ns +:+ "_" +:+ name
  else if negb (String.eqb subsystem "") then subsystem +:+ "_" +:+ name
  else name.

Record Desc := mkDesc {
  fqName : string;
  help : string;
  variableLabels : list string;
}.

(** A [prometheus.Gauge] object: its descriptor and current value. *)
Record Gauge := mkGauge {
  gauge_desc : Desc;
  gauge_value : float;
}.

Inductive ValueType := CounterValue | GaugeValue | UntypedValue.

(** What can be sent on the collector channel.  The three housekeeping
    metrics are long-lived objects of the exporter and are sent by
    reference; constant metrics and histograms are built per cycle.
    [GaugeMetric id] is the gauge object [gaugeMetrics[id]]: the collector
    sets these objects in place and never sends one. *)
Inductive Metric :=
| UpMetric
| TotalScrapesMetric
| JsonParseFailuresMetric
| GaugeMetric (id : Z)
| ConstMetric (d : Desc) (t : ValueType) (v : float) (labelValues : list string)
| ConstHistogram (d : Desc) (count : Z) (sum : float) (buckets : float_map).

Inductive MetricClass := Housekeeping | GaugeSeries | CounterSeries | HistogramSeries.

Definition metric_class (m : Metric) : MetricClass :=
  match m with
  | UpMetric | TotalScrapesMetric | JsonParseFailuresMetric => Housekeeping
  | GaugeMetric _ => GaugeSeries
  | ConstMetric _ GaugeValue _ _ => GaugeSeries
  | ConstMetric _ _ _ _ => CounterSeries
  | ConstHistogram _ _ _ _ => HistogramSeries
  end.

Definition is_histogram (m : Metric) : bool :=
  match m with ConstHistogram _ _ _ _ => true | _ => false end.

(** ** Metric catalog *)

Record gaugeDefinition := mkGaugeDef {
  gd_id : Z;
  gd_name : string;
  gd_desc : string;
  gd_key : string;
}.

Record counterDefinition := mkCounterDef {
  cd_id : Z;
  cd_name : string;
  cd_desc : string;
  cd_label : string;
  cd_labelMap : list (string * string);
}.

Definition rTimeBucketMap : list (string * float) :=
  [ ("answers0-1", 0.001%float);
    ("answers1-10", 0.01%float);
    ("answers10-100", 0.1%float);
    ("answers100-1000", 1%float);
    ("answers-slow", 0%float) ].

Definition rTimeLabelMap : list (string * string) :=
  [ ("answers0-1", "0_1ms");
    ("answers1-10", "1_10ms");
    ("answers10-100", "10_100ms");
    ("answers100-1000", "100_1000ms");
    ("answers-slow", "over_1000ms") ].

Definition rCodeLabelMap : list (string * string) :=
  [ ("servfail-answers", "servfail");
    ("nxdomain-answers", "nxdomain");
    ("noerror-answers", "noerror") ].

Definition exceptionsLabelMap : list (string * string) :=
  [ ("resource-limits", "resource_limit");
    ("over-capacity-drops", "over_capacity_drop");
    ("unreachables", "ns_unreachable");
    ("outgoing-timeouts", "outgoing_timeout") ].

Definition recursorGaugeDefs : list gaugeDefinition :=
  [ mkGaugeDef 1 "latency_average_seconds"
      "Exponential moving average of question-to-answer latency." "qa_latency";
    mkGaugeDef 2 "concurrent_queries" "Number of concurrent queries."
      "concurrent_queries";
    mkGaugeDef 3 "cache_size" "Number of entries in the cache." "cache_entries" ].

Definition recursorCounterDefs : list counterDefinition :=
  [ mkCounterDef 1 "incoming_queries_total"
      "Total number of incoming queries by network." "net"
      [("questions", "udp"); ("tcp-questions", "tcp")];
    mkCounterDef 2 "outgoing_queries_total"
      "Total number of outgoing queries by network." "net"
      [("all-outqueries", "udp"); ("tcp-outqueries", "tcp")];
    mkCounterDef 3 "cache_lookups_total"
      "Total number of cache lookups by result." "result"
      [("cache-hits", "hit"); ("cache-misses", "miss")];
    mkCounterDef 4 "answers_rcodes_total"
      "Total number of answers by response code." "rcode" rCodeLabelMap;
    mkCounterDef 5 "answers_rtime_total"
      "Total number of answers grouped by response time slots." "timeslot"
      rTimeLabelMap;
    mkCounterDef 6 "exceptions_total"
      "Total number of exceptions by error." "error" exceptionsLabelMap ].

Definition authoritativeGaugeDefs : list gaugeDefinition :=
  [ mkGaugeDef 6 "security_status"
      "PDNS Server Security status based on security-status.secpoll.powerdns.com"
      "security-status";
    mkGaugeDef 1 "latency_average_seconds"
      "Average number of microseconds a packet spends within PowerDNS" "latency";
    mkGaugeDef 2 "packet_cache_size" "Number of entries in the packet cache."
      "packetcache-size";
    mkGaugeDef 3 "signature_cache_size"
      "Number of entries in the signature cache." "signature-cache-size";
    mkGaugeDef 4 "key_cache_size" "Number of entries in the key cache."
      "key-cache-size";
    mkGaugeDef 5 "metadata_cache_size"
      "Number of entries in the metadata cache." "meta-cache-size";
    mkGaugeDef 6 "qsize" "Number of packets waiting for database attention."
      "qsize-q" ].

Definition authoritativeCounterDefs : list counterDefinition :=
  [ mkCounterDef 1 "incoming_notifications"
      "Number of NOTIFY packets that were received" "type" [];
    mkCounterDef 2 "uptime" "Uptime in seconds of the daemon" "type"
      [("uptime", "seconds")];
    mkCounterDef 3 "dnssec" "DNSSEC counters" "type"
      [("signatures", "signatures_created"); ("udp-do-queries", "ok_queries_recv")];
    mkCounterDef 4 "packet_cache_lookup" "Packet cache lookups by result" "result"
      [("packetcache-hit", "hit"); ("packetcache-miss", "miss")];
    mkCounterDef 5 "query_cache_lookup" "Query cache lookups by result" "result"
      [("query-cache-hit", "hit"); ("query-cache-miss", "miss")];
    mkCounterDef 6 "deferred_cache_actions"
      "Deferred cache actions because of maintenance by type" "type"
      [("deferred-cache-inserts", "inserts"); ("deferred-cache-lookup", "lookups")];
    mkCounterDef 7 "dnsupdate_queries_total"
      "Total number of DNS update queries by status." "status"
      [("dnsupdate-answers", "answered"); ("dnsupdate-changes", "applied");
       ("dnsupdate-queries", "requested"); ("dnsupdate-refused", "refused")];
    mkCounterDef 8 "recursive_queries_total"
      "Total number of recursive queries by status." "status"
      [("rd-queries", "requested"); ("recursing-questions", "processed");
       ("recursing-answers", "answered"); ("recursion-unanswered", "unanswered")];
    mkCounterDef 9 "queries_total" "Total number of queries by protocol." "proto"
      [("tcp-queries", "tcp"); ("tcp4-queries", "tcp4"); ("tcp6-queries", "tcp6");
       ("udp-queries", "udp"); ("udp4-queries", "udp4"); ("udp6-queries", "udp6")];
    mkCounterDef 10 "answers_total" "Total number of answers by protocol." "proto"
      [("tcp-answers", "tcp"); ("tcp4-answers", "tcp4"); ("tcp6-answers", "tcp6");
       ("udp-answers", "udp"); ("udp4-answers", "udp4"); ("udp6-answers", "udp6")];
    mkCounterDef 11 "answers_bytes_total"
      "Total number of answer bytes sent over by protocol." "proto"
      [("tcp-answers-bytes", "tcp"); ("tcp4-answers-bytes", "tcp4");
       ("tcp6-answers-bytes", "tcp6"); ("udp-answers-bytes", "udp");
       ("udp4-answers-bytes", "udp4"); ("udp6-answers-bytes", "udp6")];
    mkCounterDef 12 "exceptions_total" "Total number of exceptions by error."
      "error"
      [("servfail-packets", "servfail"); ("timedout-packets", "timeout");
       ("corrupt-packets", "corrupt_packets"); ("overload-drops", "backend_overload");
       ("udp-recvbuf-errors", "recvbuf_errors"); ("udp-sndbuf-errors", "sndbuf_errors");
       ("udp-in-errors", "udo_in_errors"); ("udp-noport-errors", "udp_noport_errors")];
    mkCounterDef 13 "cpu_utilisation"
      "Number of CPU milliseconds spent in user, and kernel space" "type"
      [("sys-msec", "sys"); ("user-msec", "user")] ].

Definition dnsdistGaugeDefs : list gaugeDefinition := [].
Definition dnsdistCounterDefs : list counterDefinition := [].

(** ** Exporter state and the effects of a cycle *)

(** [StatsEntry]: one record of the [servers/localhost/statistics] list. *)
Record StatsEntry := mkStatsEntry {
  Name : string;
  Kind : string;
  Value : float;
}.

(** [Exporter].  The three housekeeping metric objects are represented by
    their current values. *)
Record Exporter := mkExporter {
  HostURL : string;
  ServerType : string;
  ApiKey : string;
  up : float;
  totalScrapes : Z;
  jsonParseFailures : Z;
  gaugeMetrics : gmap Z Gauge;
  counterMetrics : gmap Z Desc;
  gaugeDefs : list gaugeDefinition;
  counterDefs : list counterDefinition;
}.

(** The exporter together with what a cycle produces outside of it: the
    metrics sent on the collector channel and the lines logged, oldest
    first. *)
Record World := mkWorld {
  exporter : Exporter;
  sent : list Metric;
  logged : list string;
}.

Definition with_up (v : float) (e : Exporter) : Exporter :=
  mkExporter (HostURL e) (ServerType e) (ApiKey e) v (totalScrapes e)
    (jsonParseFailures e) (gaugeMetrics e) (counterMetrics e) (gaugeDefs e)
    (counterDefs e).

Definition with_totalScrapes (n : Z) (e : Exporter) : Exporter :=
  mkExporter (HostURL e) (ServerType e) (ApiKey e) (up e) n
    (jsonParseFailures e) (gaugeMetrics e) (counterMetrics e) (gaugeDefs e)
    (counterDefs e).

Definition with_jsonParseFailures (n : Z) (e : Exporter) : Exporter :=
  mkExporter (HostURL e) (ServerType e) (ApiKey e) (up e) (totalScrapes e) n
    (gaugeMetrics e) (counterMetrics e) (gaugeDefs e) (counterDefs e).

Definition with_gaugeMetrics (g : gmap Z Gauge) (e : Exporter) : Exporter :=
  mkExporter (HostURL e) (ServerType e) (ApiKey e) (up e) (totalScrapes e)
    (jsonParseFailures e) g (counterMetrics e) (gaugeDefs e) (counterDefs e).

Definition with_exporter (f : Exporter → Exporter) (w : World) : World :=
  mkWorld (f (exporter w)) (sent w) (logged w).

(** A computation either returns in a new world or panics. *)
Inductive outcome (A : Type) :=
| Returned (a : A) (w : World)
| Panicked.
Arguments Returned {A} a w.
Arguments Panicked {A}.

Definition M (A : Type) : Type := World → outcome A.

Definition ret {A} (a : A) : M A := λ w, Returned a w.

Definition bind {A B} (c : M A) (k : A → M B) : M B :=
  λ w, match c w with
       | Returned a w' => k a w'
       | Panicked => Panicked
       end.

Definition panic {A} : M A := λ _, Panicked.

Declare Scope go_scope.
Delimit Scope go_scope with go.
Notation "x <- c ;; k" := (bind c (λ x, k))
  (at level 20, c at level 99, k at level 200, only parsing) : go_scope.
Notation "c ;; k" := (bind c (λ _, k))
  (at level 100, k at level 200, only parsing, right associativity) : go_scope.
#[local] Open Scope go_scope.

Fixpoint for_each {A} (l : list A) (body : A → M unit) : M unit :=
  match l with
  | [] => ret tt
  | x :: l' => body x ;; for_each l' body
  end.

Definition this : M Exporter := λ w, Returned (exporter w) w.

(** [e.up.Set(v)] *)
Definition up_Set (v : float) : M unit :=
  λ w, Returned tt (with_exporter (with_up v) w).

(** [e.totalScrapes.Inc()] *)
Definition totalScrapes_Inc : M unit :=
  λ w, Returned tt (with_exporter (λ e, with_totalScrapes (totalScrapes e + 1) e) w).

(** [e.jsonParseFailures.Inc()] *)
Definition jsonParseFailures_Inc : M unit :=
  λ w, Returned tt
         (with_exporter (λ e, with_jsonParseFailures (jsonParseFailures e + 1) e) w).

(** [g.Set(v)] on a gauge object. *)
Definition Gauge_Set (v : float) (g : Gauge) : Gauge := mkGauge (gauge_desc g) v.

(** [e.gaugeMetrics[id].Set(v)]: the gauge object stored under [id] is
    written in place; a missing entry is a nil interface, and calling a
    method on it panics. *)
Definition gaugeMetrics_Set (id : Z) (v : float) : M unit :=
  λ w, match gaugeMetrics (exporter w) !! id with
       | Some _ =>
           Returned tt
             (with_exporter
                (λ e, with_gaugeMetrics (alter (Gauge_Set v) id (gaugeMetrics e)) e) w)
       | None => Panicked
       end.

(** [ch <- m] *)
Definition send (m : Metric) : M unit :=
  λ w, Returned tt (mkWorld (exporter w) (sent w ++ [m]) (logged w)).

(** [log.Errorf] with the message already formatted. *)
Definition log_Errorf (msg : string) : M unit :=
  λ w, Returned tt (mkWorld (exporter w) (sent w) (logged w ++ [msg])).

(** [prometheus.MustNewConstMetric] for a descriptor that recorded no
    error: it panics on a nil descriptor and when the number of label
    values differs from the number of variable labels. *)
Definition MustNewConstMetric (d : option Desc) (t : ValueType) (v : float)
    (labelValues : list string) : M Metric :=
  match d with
  | Some d =>
      if (length labelValues =? length (variableLabels d))%nat
      then ret (ConstMetric d t v labelValues)
      else panic
  | None => panic
  end.

(** ** The histogram builder *)

Definition rtime_desc : Desc :=
  mkDesc (namespace +:+ "_recursor_response_time_seconds")
         "Histogram of PowerDNS recursor response times in seconds." [].

(** The first loop of [makeRecursorRTimeHistogram], over the entries of
    [rTimeBucketMap] in the order [range] yields them. *)
Fixpoint rtime_collect (rt : Runtime) (statsMap : gmap string float)
    (entries : list (string * float)) (buckets : float_map) (count : Z)
    : string + (float_map * Z) :=
  match entries with
  | [] => inr (buckets, count)
  | (k, v) :: rest =>
      match statsMap !! k with
      | None => inl ("Required PowerDNS stats key not found: " +:+ k)
      | Some value =>
          let buckets :=
            if negb (v =? 0)%float
            then fm_set buckets v (uint64_of_float rt value)
            else buckets in
          rtime_collect rt statsMap rest buckets
            (wrap64 (count + uint64_of_float rt value))
      end
  end.

(** The second loop: linear buckets to cumulative buckets. *)
Fixpoint rtime_cumulate (keys : list float) (buckets : float_map) (cumsum : Z)
    : float_map :=
  match keys with
  | [] => buckets
  | k :: rest =>
      let cumsum := wrap64 (cumsum + default 0 (fm_get buckets k)) in
      rtime_cumulate rest (fm_set buckets k cumsum) cumsum
  end.

Definition makeRecursorRTimeHistogram (rt : Runtime) (statsMap : gmap string float)
    : string + Metric :=
  match rtime_collect rt statsMap (range_order rt rTimeBucketMap) [] 0 with
  | inl err => inl err
  | inr (buckets, count) =>
      let keys := Float64s ((range_order rt buckets).*1) in
      let buckets := rtime_cumulate keys buckets 0 in
      inr (ConstHistogram rtime_desc count 0%float buckets)
  end.

(** ** The collector *)

Definition newGaugeMetric (serverType metricName docString : string) : Gauge :=
  mkGauge (mkDesc (BuildFQName namespace serverType metricName) docString []) 0%float.

Definition NewExporter (apiKey serverType hostURL : string) : Exporter :=
  let defs :=
    if String.eqb serverType "recursor"
    then (recursorGaugeDefs, recursorCounterDefs)
    else if String.eqb serverType "authoritative"
    then (authoritativeGaugeDefs, authoritativeCounterDefs)
    else if String.eqb serverType "dnsdist"
    then (dnsdistGaugeDefs, dnsdistCounterDefs)
    else ([], []) in
  let gaugeMetrics :=
    foldl (λ m def,
             <[gd_id def := newGaugeMetric serverType (gd_name def) (gd_desc def)]> m)
          ∅ defs.1 in
  let counterMetrics :=
    foldl (λ m def,
             <[cd_id def :=
                 mkDesc (BuildFQName namespace serverType (cd_name def))
                        (cd_desc def) [cd_label def]]> m)
          ∅ defs.2 in
  mkExporter hostURL serverType apiKey 0%float 0 0
    gaugeMetrics counterMetrics defs.1 defs.2.

(** [scrape].  [fetch] is what [getJSON] produced for this cycle: an error
    message, or the decoded statistics list.  The result is what the
    [jsonStats] channel carries: [Some data] when the list is sent, [None]
    when the channel is closed without a value. *)
Definition scrape (fetch : string + list StatsEntry) : M (option (list StatsEntry)) :=
  totalScrapes_Inc ;;
  match fetch with
  | inl err =>
      up_Set 0%float ;;
      jsonParseFailures_Inc ;;
      log_Errorf ("Error scraping PowerDNS: " +:+ err) ;;
      ret None
  | inr data =>
      up_Set 1%float ;;
      ret (Some data)
  end.

(** The snapshot built at the start of [collectMetrics]. *)
Definition build_statsMap (stats : list StatsEntry) : gmap string float :=
  foldl (λ m s, <[Name s := Value s]> m) ∅ stats.

(** Body of the loop over [e.gaugeDefs]. *)
Definition gauge_body (statsMap : gmap string float) (def : gaugeDefinition) : M unit :=
  match statsMap !! gd_key def with
  | Some value =>
      let value :=
        if HasSuffix (gd_key def) "latency" then (value / 1000000)%float else value in
      gaugeMetrics_Set (gd_id def) value
  | None =>
      log_Errorf ("Expected PowerDNS stats key not found: " +:+ gd_key def) ;;
      jsonParseFailures_Inc
  end.

(** Body of the inner loop over [def.labelMap]. *)
Definition label_body (statsMap : gmap string float) (def : counterDefinition)
    (entry : string * string) : M unit :=
  let '(key, label) := entry in
  match statsMap !! key with
  | Some value =>
      e <- this ;;
      m <- MustNewConstMetric (counterMetrics e !! cd_id def) CounterValue value [label] ;;
      send m
  | None =>
      log_Errorf ("Expected PowerDNS stats key not found: " +:+ key) ;;
      jsonParseFailures_Inc
  end.

(** Body of the loop over [e.counterDefs]. *)
Definition counter_body (rt : Runtime) (statsMap : gmap string float)
    (def : counterDefinition) : M unit :=
  for_each (range_order rt (cd_labelMap def)) (label_body statsMap def).

(** The final block of [collectMetrics]. *)
Definition histogram_block (rt : Runtime) (statsMap : gmap string float) : M unit :=
  e <- this ;;
  if String.eqb (ServerType e) "recursor" then
    match makeRecursorRTimeHistogram rt statsMap with
    | inl err => log_Errorf ("Could not create response time histogram: " +:+ err)
    | inr h => send h
    end
  else ret tt.

(** [collectMetrics]; [jsonStats] is what the receive from the channel
    yields (a closed channel yields the nil list). *)
Definition collectMetrics (rt : Runtime) (jsonStats : option (list StatsEntry)) : M unit :=
  let stats := default [] jsonStats in
  let statsMap := build_statsMap stats in
  if (size statsMap =? 0)%nat then ret tt
  else
    e <- this ;;
    for_each (gaugeDefs e) (gauge_body statsMap) ;;
    for_each (counterDefs e) (counter_body rt statsMap) ;;
    histogram_block rt statsMap.

(** [Collect].  The [scrape] goroutine and the collecting goroutine meet at
    the [jsonStats] channel.  Before that [scrape] writes only the three
    housekeeping objects and the log, and the collecting goroutine only
    sends on the collector channel, so the order chosen here, [scrape]
    first, stands for every interleaving of the two (proved below). *)
Definition Collect (rt : Runtime) (fetch : string + list StatsEntry) : M unit :=
  jsonStats <- scrape fetch ;;
  send UpMetric ;;
  send TotalScrapesMetric ;;
  send JsonParseFailuresMetric ;;
  collectMetrics rt jsonStats.

(** ** One cycle as two goroutines

    Until they meet at the [jsonStats] channel, [scrape] and the collecting
    goroutine act on different parts of the world: [scrape] on the
    housekeeping objects and the log, the collecting goroutine on the
    collector channel. *)
Inductive action :=
| OnExporter (f : Exporter → Exporter)
| OnLog (msg : string)
| OnChannel (m : Metric).

Definition act (a : action) (w : World) : World :=
  match a with
  | OnExporter f => with_exporter f w
  | OnLog msg => mkWorld (exporter w) (sent w) (logged w ++ [msg])
  | OnChannel m => mkWorld (exporter w) (sent w ++ [m]) (logged w)
  end.

(** What [scrape] does before it hands the list over or closes the channel. *)
Definition scrape_actions (fetch : string + list StatsEntry) : list action :=
  OnExporter (λ e, with_totalScrapes (totalScrapes e + 1) e) ::
  match fetch with
  | inl err =>
      [ OnExporter (with_up 0%float);
        OnExporter (λ e, with_jsonParseFailures (jsonParseFailures e + 1) e);
        OnLog ("Error scraping PowerDNS: " +:+ err) ]
  | inr _ => [ OnExporter (with_up 1%float) ]
  end.

(** What the receive in [collectMetrics] then yields. *)
Definition scrape_handover (fetch : string + list StatsEntry) : option (list StatsEntry) :=
  match fetch with
  | inl _ => None
  | inr data => Some data
  end.

(** What [Collect] does between [Lock] and the call of [collectMetrics]. *)
Definition collect_actions : list action :=
  [ OnChannel UpMetric; OnChannel TotalScrapesMetric; OnChannel JsonParseFailuresMetric ].

(** The ways two goroutines' steps can interleave. *)
Inductive interleaving {A} : list A → list A → list A → Prop :=
| interleaving_nil : interleaving [] [] []
| interleaving_left x l1 l2 l :
    interleaving l1 l2 l → interleaving (x :: l1) l2 (x :: l)
| interleaving_right x l1 l2 l :
    interleaving l1 l2 l → interleaving l1 (x :: l2) (x :: l).

Definition off_channel (a : action) : Prop :=
  match a with OnChannel _ => False | _ => True end.

Definition on_channel (a : action) : Prop :=
  match a with OnChannel _ => True | _ => False end.

(** ** Vocabulary for the statements below *)

(** The thresholds that occur as values of [rTimeBucketMap], and the finite
    ones among them in ascending order. *)
Definition rtime_universe : list float := rTimeBucketMap.*2.
Definition rtime_thresholds : list float := [0.001; 0.01; 0.1; 1]%float.

Definition threshold_signature (x : float) : bool * bool * bool * bool :=
  ((x =? 0.001)%float, (x =? 0.01)%float, (x =? 0.1)%float, (x =? 1)%float).

Definition keys_in_universe (m : float_map) : Prop :=
  ∀ k, k ∈ m.*1 → k ∈ rtime_universe.

Definition Zsum (l : list Z) : Z := foldr Z.add 0 l.

(** The count [uint64(statsMap[k])] the histogram builder reads for key [k]. *)
Definition raw_count (rt : Runtime) (statsMap : gmap string float) (k : string) : Z :=
  uint64_of_float rt (default 0%float (statsMap !! k)).

(** The linear bucket an entry of [rTimeBucketMap] contributes, if any. *)
Definition linear_bucket (rt : Runtime) (statsMap : gmap string float)
    (kv : string * float) : option (float * Z) :=
  if (kv.2 =? 0)%float then None else Some (kv.2, raw_count rt statsMap kv.1).

(** All five raw keys of the histogram are in the snapshot. *)
Definition required_present (statsMap : gmap string float) : Prop :=
  ∀ kv, kv ∈ rTimeBucketMap → is_Some (statsMap !! kv.1).

(** The cumulative counts of a histogram read in ascending threshold order. *)
Definition cumulative_counts (buckets : float_map) : list Z :=
  (λ k, default 0 (fm_get buckets k)) <$> Float64s buckets.*1.

(** The message logged for a gauge or counter key that is not in the
    snapshot. *)
Definition key_not_found (k : string) : string :=
  "Expected PowerDNS stats key not found: " +:+ k.

(** The keys among [keys] that the snapshot lacks. *)
Definition absent (statsMap : gmap string float) (keys : list string) : list string :=
  filter (λ k, statsMap !! k = None) keys.

(** What one pass of the gauge loop does to the table of gauge objects. *)
Definition gauge_step (statsMap : gmap string float) (g : gmap Z Gauge)
    (def : gaugeDefinition) : gmap Z Gauge :=
  match statsMap !! gd_key def with
  | Some raw =>
      alter (Gauge_Set (if HasSuffix (gd_key def) "latency"
                        then (raw / 1000000)%float else raw))
            (gd_id def) g
  | None => g
  end.

(** The constant metrics one counter definition yields for the entries of
    its label map, in the given order. *)
Definition counter_series (statsMap : gmap string float) (d : Desc)
    (entries : list (string * string)) : list Metric :=
  omap (λ kv, match statsMap !! kv.1 with
              | Some raw => Some (ConstMetric d CounterValue raw [kv.2])
              | None => None
              end) entries.

(** A counter definition has a descriptor with one variable label. *)
Definition counter_desc_ok (e : Exporter) (def : counterDefinition) : Prop :=
  ∃ d, counterMetrics e !! cd_id def = Some d ∧ length (variableLabels d) = 1%nat.

(** The tables built by the constructor cover every definition. *)
Definition exporter_ok (e : Exporter) : Prop :=
  (∀ def, def ∈ gaugeDefs e → is_Some (gaugeMetrics e !! gd_id def))
  ∧ (∀ def, def ∈ counterDefs e → counter_desc_ok e def).

(** Everything the counter loop sends for the definitions [defs]. *)
Definition counters_sent (rt : Runtime) (statsMap : gmap string float) (e : Exporter)
    (defs : list counterDefinition) : list Metric :=
  defs ≫= λ def,
    match counterMetrics e !! cd_id def with
    | Some d => counter_series statsMap d (range_order rt (cd_labelMap def))
    | None => []
    end.

(** The label-map keys the counter loop looks up, in the order it does. *)
Definition counter_keys (rt : Runtime) (defs : list counterDefinition) : list string :=
  defs ≫= λ def, (range_order rt (cd_labelMap def)).*1.

(** The world after the gauge loop and the counter loop have run. *)
Definition after_loops (rt : Runtime) (statsMap : gmap string float) (w : World) : World :=
  let e := exporter w in
  let gone := absent statsMap (gd_key <$> gaugeDefs e)
              ++ absent statsMap (counter_keys rt (counterDefs e)) in
  mkWorld
    (mkExporter (HostURL e) (ServerType e) (ApiKey e) (up e) (totalScrapes e)
       (jsonParseFailures e + Z.of_nat (length gone))
       (foldl (gauge_step statsMap) (gaugeMetrics e) (gaugeDefs e))
       (counterMetrics e) (gaugeDefs e) (counterDefs e))
    (sent w ++ counters_sent rt statsMap e (counterDefs e))
    (logged w ++ (key_not_found <$> gone)).

(** The two loops of [collectMetrics], without the histogram block. *)
Definition gauge_and_counter_loops (rt : Runtime) (statsMap : gmap string float) : M unit :=
  e <- this ;;
  for_each (gaugeDefs e) (gauge_body statsMap) ;;
  for_each (counterDefs e) (counter_body rt statsMap).

(** The line logged when the histogram builder fails with [err]. *)
Definition histogram_failed (err : string) : string :=
  "Could not create response time histogram: " +:+ err.

(** The error of the histogram builder for a missing key [k]. *)
Definition required_key_not_found (k : string) : string :=
  "Required PowerDNS stats key not found: " +:+ k.

(** The snapshot holds, under [k], a float that is the non-negative
    integer [n]. *)
Definition integer_count (statsMap : gmap string float) (k : string) (n : Z) : Prop :=
  ∃ v, statsMap !! k = Some v ∧ float_integer v = Some n ∧ 0 ≤ n.

(** The snapshot of the end-to-end histogram scenario. *)
Definition scenario_stats : list StatsEntry :=
  [ mkStatsEntry "answers0-1" "StatisticItem" 10%float;
    mkStatsEntry "answers1-10" "StatisticItem" 5%float;
    mkStatsEntry "answers10-100" "StatisticItem" 0%float;
    mkStatsEntry "answers100-1000" "StatisticItem" 0%float;
    mkStatsEntry "answers-slow" "StatisticItem" 2%float ].

(** A snapshot whose counts are integers but do not fit 64 bits together. *)
Definition overflow_stats : list StatsEntry :=
  [ mkStatsEntry "answers0-1" "StatisticItem" 9223372036854775808%float;
    mkStatsEntry "answers1-10" "StatisticItem" 9223372036854775808%float;
    mkStatsEntry "answers10-100" "StatisticItem" 0%float;
    mkStatsEntry "answers100-1000" "StatisticItem" 0%float;
    mkStatsEntry "answers-slow" "StatisticItem" 0%float ].

(** ** The goroutines of [Collect]

    [Collect] starts [scrape] as a goroutine and only then takes the
    exporter's mutex; [scrape] never touches the mutex.  Each goroutine is
    the list of the operations it performs on shared objects, in program
    order; a state holds the remaining operations of every goroutine, and a
    step runs the first operation of one of them. *)
Module Concurrency.

(** The metric objects of the exporter state. *)
Inductive field :=
| FUp
| FTotalScrapes
| FJsonParseFailures
| FGauge (id : Z).

Inductive instr :=
| GoScrape            (* go e.scrape(jsonStats) *)
| Lock                (* e.mutex.Lock() *)
| Unlock              (* the deferred e.mutex.Unlock() *)
| Write (f : field)   (* Set or Inc on a metric object *)
| Deliver             (* ch <- metric *)
| Receive             (* <-jsonStats *)
| Send                (* jsonStats <- data *)
| Close.              (* the deferred close(jsonStats) *)

Inductive role := Collector | Scraper.

(** One invocation of [Collect]: whether its fetch succeeds, and what
    [collectMetrics] does after the receive. *)
Record cycle := mkCycle {
  fetched : bool;
  body : list instr;
}.

(** [collectMetrics] writes gauges and [jsonParseFailures] and sends
    metrics; it starts no goroutine and does not touch the mutex. *)
Definition body_instr (i : instr) : Prop :=
  match i with
  | Write (FGauge _) | Write FJsonParseFailures | Deliver => True
  | _ => False
  end.

(** [scrape], with its deferred [close] at the end. *)
Definition scrape_code (ok : bool) : list instr :=
  Write FTotalScrapes ::
  (if ok then [Write FUp; Send; Close]
   else [Write FUp; Write FJsonParseFailures; Close]).

(** What [Collect] does between [Lock] and the deferred [Unlock]. *)
Definition critical (cy : cycle) : list instr :=
  [Deliver; Deliver; Deliver; Receive] ++ body cy.

(** [Collect], with [collectMetrics] inlined. *)
Definition collect_code (cy : cycle) : list instr :=
  [GoScrape; Lock] ++ critical cy ++ [Unlock].

(** Who holds the mutex, the remaining code of each collecting and each
    scraping goroutine by invocation, and the [jsonStats] channels that
    have been closed. *)
Record state := mkState {
  mutex : option nat;
  collectors : gmap nat (list instr);
  scrapers : gmap nat (list instr);
  closed : gset nat;
}.

Definition init : state := mkState None ∅ ∅ ∅.

(** An invocation is triggered, or a goroutine of invocation [c] performs
    an operation while the mutex is held by [holder]. *)
Inductive event :=
| Triggered (c : nat)
| Did (c : nat) (r : role) (i : instr) (holder : option nat).

Inductive step (plan : nat → cycle) : state → event → state → Prop :=
| step_trigger s c :
    collectors s !! c = None →
    step plan s (Triggered c)
      (mkState (mutex s) (<[c := collect_code (plan c)]> (collectors s))
               (scrapers s) (closed s))
| step_go s c k :
    collectors s !! c = Some (GoScrape :: k) →
    step plan s (Did c Collector GoScrape (mutex s))
      (mkState (mutex s) (<[c := k]> (collectors s))
               (<[c := scrape_code (fetched (plan c))]> (scrapers s)) (closed s))
| step_lock s c k :
    collectors s !! c = Some (Lock :: k) →
    mutex s = None →
    step plan s (Did c Collector Lock (mutex s))
      (mkState (Some c) (<[c := k]> (collectors s)) (scrapers s) (closed s))
| step_unlock s c k h :
    collectors s !! c = Some (Unlock :: k) →
    mutex s = Some h →
    step plan s (Did c Collector Unlock (mutex s))
      (mkState None (<[c := k]> (collectors s)) (scrapers s) (closed s))
| step_collector_write s c f k :
    collectors s !! c = Some (Write f :: k) →
    step plan s (Did c Collector (Write f) (mutex s))
      (mkState (mutex s) (<[c := k]> (collectors s)) (scrapers s) (closed s))
| step_collector_deliver s c k :
    collectors s !! c = Some (Deliver :: k) →
    step plan s (Did c Collector Deliver (mutex s))
      (mkState (mutex s) (<[c := k]> (collectors s)) (scrapers s) (closed s))
| step_scraper_write s c f k :
    scrapers s !! c = Some (Write f :: k) →
    step plan s (Did c Scraper (Write f) (mutex s))
      (mkState (mutex s) (collectors s) (<[c := k]> (scrapers s)) (closed s))
| step_handoff s c ks kc :
    scrapers s !! c = Some (Send :: ks) →
    collectors s !! c = Some (Receive :: kc) →
    step plan s (Did c Scraper Send (mutex s))
      (mkState (mutex s) (<[c := kc]> (collectors s)) (<[c := ks]> (scrapers s))
               (closed s))
| step_close s c k :
    scrapers s !! c = Some (Close :: k) →
    step plan s (Did c Scraper Close (mutex s))
      (mkState (mutex s) (collectors s) (<[c := k]> (scrapers s))
               ({[c]} ∪ closed s))
| step_receive_closed s c k :
    collectors s !! c = Some (Receive :: k) →
    c ∈ closed s →
    step plan s (Did c Collector Receive (mutex s))
      (mkState (mutex s) (<[c := k]> (collectors s)) (scrapers s) (closed s)).

(** Executions with their traces; those of the program start in [init]. *)
Inductive run (plan : nat → cycle) : state → list event → state → Prop :=
| run_done s : run plan s [] s
| run_step s e s' tr s'' :
    step plan s e s' → run plan s' tr s'' → run plan s (e :: tr) s''.

(** Every invocation's [collectMetrics] is made of [body_instr] operations. *)
Definition plan_ok (plan : nat → cycle) : Prop :=
  ∀ c, Forall body_instr (body (plan c)).

(** A collecting goroutine is past [Lock] and has not run [Unlock] yet. *)
Definition in_critical (cy : cycle) (code : list instr) : Prop :=
  code ≠ [] ∧ ∃ pre, pre ++ code = critical cy ++ [Unlock].

(** Where a collecting goroutine stands, and what that says of the mutex. *)
Definition collector_inv (cy : cycle) (c : nat) (m : option nat) (code : list instr)
    : Prop :=
  (code = collect_code cy ∧ m ≠ Some c)
  ∨ (code = Lock :: critical cy ++ [Unlock] ∧ m ≠ Some c)
  ∨ (in_critical cy code ∧ m = Some c)
  ∨ (code = [] ∧ m ≠ Some c).

Definition state_inv (plan : nat → cycle) (s : state) : Prop :=
  (∀ c code, collectors s !! c = Some code → collector_inv (plan c) c (mutex s) code)
  ∧ (∀ c, mutex s = Some c → is_Some (collectors s !! c)).

(** A plan of two invocations whose fetches succeed; the first writes two
    gauges. *)
Definition two_cycles (c : nat) : cycle :=
  match c with
  | O => mkCycle true [Write (FGauge 1); Write (FGauge 2)]
  | _ => mkCycle true []
  end.

End Concurrency.

(** An execution of [Concurrency.two_cycles]: the scraping goroutine of
    invocation 1 writes while invocation 0 holds the mutex and is between
    two of its gauge writes. *)
Definition interleaved_trace : list Concurrency.event :=
  let D := Concurrency.Did in
  [ Concurrency.Triggered 0;
    D 0%nat Concurrency.Collector Concurrency.GoScrape None;
    D 0%nat Concurrency.Collector Concurrency.Lock None;
    D 0%nat Concurrency.Collector Concurrency.Deliver (Some 0%nat);
    D 0%nat Concurrency.Collector Concurrency.Deliver (Some 0%nat);
    D 0%nat Concurrency.Collector Concurrency.Deliver (Some 0%nat);
    D 0%nat Concurrency.Scraper (Concurrency.Write Concurrency.FTotalScrapes) (Some 0%nat);
    D 0%nat Concurrency.Scraper (Concurrency.Write Concurrency.FUp) (Some 0%nat);
    D 0%nat Concurrency.Scraper Concurrency.Send (Some 0%nat);
    D 0%nat Concurrency.Collector (Concurrency.Write (Concurrency.FGauge 1)) (Some 0%nat);
    Concurrency.Triggered 1;
    D 1%nat Concurrency.Collector Concurrency.GoScrape (Some 0%nat);
    D 1%nat Concurrency.Scraper (Concurrency.Write Concurrency.FTotalScrapes) (Some 0%nat);
    D 1%nat Concurrency.Scraper (Concurrency.Write Concurrency.FUp) (Some 0%nat);
    D 0%nat Concurrency.Collector (Concurrency.Write (Concurrency.FGauge 2)) (Some 0%nat);
    D 0%nat Concurrency.Collector Concurrency.Unlock (Some 0%nat) ].

(** An execution in which [scrape] writes before anyone holds the mutex. *)
Definition unlocked_trace : list Concurrency.event :=
  [ Concurrency.Triggered 0;
    Concurrency.Did 0 Concurrency.Collector Concurrency.GoScrape None;
    Concurrency.Did 0 Concurrency.Scraper
      (Concurrency.Write Concurrency.FTotalScrapes) None ].

(** The state in which [interleaved_trace] ends: invocation 0 is done,
    invocation 1 waits for the mutex while its scraper waits to hand over. *)
Definition interleaved_final : Concurrency.state :=
  Concurrency.mkState None
    (<[0%nat := []]>
       (<[1%nat := [Concurrency.Lock; Concurrency.Deliver; Concurrency.Deliver;
                    Concurrency.Deliver; Concurrency.Receive; Concurrency.Unlock]]> ∅))
    (<[0%nat := [Concurrency.Close]]>
       (<[1%nat := [Concurrency.Send; Concurrency.Close]]> ∅))
    ∅.

(** ** [Describe] *)

(** The descriptors of the three housekeeping objects.  [NewExporter]
    creates the objects with [Subsystem: serverType] and stores the same
    string in [ServerType]; nothing assigns either afterwards. *)
Definition up_Desc (e : Exporter) : Desc :=
  mkDesc (BuildFQName namespace (ServerType e) "up")
         "Was the last scrape of PowerDNS successful." [].

Definition totalScrapes_Desc (e : Exporter) : Desc :=
  mkDesc (BuildFQName namespace (ServerType e) "exporter_total_scrapes")
         "Current total PowerDNS scrapes." [].

Definition jsonParseFailures_Desc (e : Exporter) : Desc :=
  mkDesc (BuildFQName namespace (ServerType e) "exporter_json_parse_failures")
         "Number of errors while parsing PowerDNS JSON stats." [].

(** [Describe]: the descriptors sent on the descriptor channel, in order.
    Both tables are Go maps, visited in the order [range] chooses. *)
Definition Describe (rt : Runtime) (e : Exporter) : list Desc :=
  (range_order rt (map_to_list (counterMetrics e))).*2
  ++ (gauge_desc <$> (range_order rt (map_to_list (gaugeMetrics e))).*2)
  ++ [up_Desc e; totalScrapes_Desc e; jsonParseFailures_Desc e].

(** The [Desc()] of a metric sent on the collector channel. *)
Definition metric_desc (e : Exporter) (m : Metric) : option Desc :=
  match m with
  | UpMetric => Some (up_Desc e)
  | TotalScrapesMetric => Some (totalScrapes_Desc e)
  | JsonParseFailuresMetric => Some (jsonParseFailures_Desc e)
  | GaugeMetric id => gauge_desc <$> gaugeMetrics e !! id
  | ConstMetric d _ _ _ => Some d
  | ConstHistogram d _ _ _ => Some d
  end.

(** ** Successive cycles *)

(** The registry calls [Collect] once per scrape; each call has its own
    fetch result and its own map iteration orders. *)
Fixpoint cycles (l : list (Runtime * (string + list StatsEntry))) : M unit :=
  match l with
  | [] => ret tt
  | (rt, fetch) :: l' => Collect rt fetch ;; cycles l'
  end.

(** What the histogram block sends and logs. *)
Definition histogram_sent (rt : Runtime) (statsMap : gmap string float) (e : Exporter)
    : list Metric :=
  if String.eqb (ServerType e) "recursor" then
    match makeRecursorRTimeHistogram rt statsMap with
    | inl _ => []
    | inr h => [h]
    end
  else [].

Definition histogram_logged (rt : Runtime) (statsMap : gmap string float) (e : Exporter)
    : list string :=
  if String.eqb (ServerType e) "recursor" then
    match makeRecursorRTimeHistogram rt statsMap with
    | inl err => [histogram_failed err]
    | inr _ => []
    end
  else [].

(** The catalog keys a cycle looks up and does not find. *)
Definition cycle_absent (rt : Runtime) (statsMap : gmap string float) (e : Exporter)
    : list string :=
  absent statsMap (gd_key <$> gaugeDefs e)
  ++ absent statsMap (counter_keys rt (counterDefs e)).

(** Everything one cycle sends on the collector channel. *)
Definition cycle_output (rt : Runtime) (e : Exporter) (fetch : string + list StatsEntry)
    : list Metric :=
  [UpMetric; TotalScrapesMetric; JsonParseFailuresMetric]
  ++ match fetch with
     | inr (s :: stats) =>
         let statsMap := build_statsMap (s :: stats) in
         counters_sent rt statsMap e (counterDefs e) ++ histogram_sent rt statsMap e
     | _ => []
     end.

(** Everything one cycle logs. *)
Definition cycle_log (rt : Runtime) (e : Exporter) (fetch : string + list StatsEntry)
    : list string :=
  match fetch with
  | inl err => ["Error scraping PowerDNS: " +:+ err]
  | inr [] => []
  | inr (s :: stats) =>
      let statsMap := build_statsMap (s :: stats) in
      (key_not_found <$> cycle_absent rt statsMap e) ++ histogram_logged rt statsMap e
  end.

(** By how much one cycle increments [jsonParseFailures]. *)
Definition cycle_failures (rt : Runtime) (e : Exporter) (fetch : string + list StatsEntry)
    : nat :=
  match fetch with
  | inl _ => 1
  | inr [] => 0
  | inr (s :: stats) => length (cycle_absent rt (build_statsMap (s :: stats)) e)
  end.

(** The gauge table one cycle leaves. *)
Definition cycle_gauges (e : Exporter) (fetch : string + list StatsEntry) : gmap Z Gauge :=
  match fetch with
  | inr (s :: stats) =>
      foldl (gauge_step (build_statsMap (s :: stats))) (gaugeMetrics e) (gaugeDefs e)
  | _ => gaugeMetrics e
  end.

(** The value [scrape] leaves in [up]. *)
Definition fetch_up (fetch : string + list StatsEntry) : float :=
  match fetch with inl _ => 0%float | inr _ => 1%float end.

(** The world one cycle leaves. *)
Definition cycle_world (rt : Runtime) (fetch : string + list StatsEntry) (w : World)
    : World :=
  let e := exporter w in
  mkWorld
    (mkExporter (HostURL e) (ServerType e) (ApiKey e) (fetch_up fetch)
       (totalScrapes e + 1)
       (jsonParseFailures e + Z.of_nat (cycle_failures rt e fetch))
       (cycle_gauges e fetch) (counterMetrics e) (gaugeDefs e) (counterDefs e))
    (sent w ++ cycle_output rt e fetch)
    (logged w ++ cycle_log rt e fetch).

(** Two exporters with the same tables and server type. *)
Definition same_tables (e1 e2 : Exporter) : Prop :=
  ServerType e1 = ServerType e2
  ∧ counterMetrics e1 = counterMetrics e2
  ∧ gaugeDefs e1 = gaugeDefs e2
  ∧ counterDefs e1 = counterDefs e2.

(** The entries of a statistics list named [k]. *)
Definition entries_named (k : string) (stats : list StatsEntry) : list StatsEntry :=
  filter (λ s, Name s = k) stats.

(** An interleaving of a fetched cycle: [scrape] increments [totalScrapes]
    after [up] has been sent and sets [up] after all three sends. *)
Definition late_scrape_interleaving : list action :=
  [ OnChannel UpMetric;
    OnExporter (λ e, with_totalScrapes (totalScrapes e + 1) e);
    OnChannel TotalScrapesMetric;
    OnChannel JsonParseFailuresMetric;
    OnExporter (with_up 1%float) ].

(** ** Progress of the goroutines *)

Section Protocol.
Import Concurrency.

(** Every goroutine has run to its end. *)
Definition finished (s : state) : Prop :=
  (∀ c code, collectors s !! c = Some code → code = [])
  ∧ (∀ c code, scrapers s !! c = Some code → code = []).

(** An operation of a goroutine, as opposed to the arrival of a new
    invocation. *)
Definition goroutine_event (e : event) : Prop :=
  match e with
  | Triggered _ => False
  | Did _ _ _ _ => True
  end.

(** Where the scraping goroutine of an invocation stands relative to its
    collecting goroutine.  [sc] is the scraper's remaining code, if it has
    been started, [cl] says that the [jsonStats] channel is closed, and
    [code] is the collector's remaining code.  The scraper is not started
    before [GoScrape]; afterwards it is at some point of [scrape_code], it
    is done exactly when the channel is closed, and it is before its [Send]
    only while the collecting goroutine has not received. *)
Definition scraper_inv (cy : cycle) (sc : option (list instr)) (cl : Prop)
    (code : list instr) : Prop :=
  (GoScrape ∈ code ∧ sc = None ∧ ¬ cl)
  ∨ ((GoScrape ∉ code)
     ∧ ∃ rest, sc = Some rest
         ∧ (∃ pre, pre ++ rest = scrape_code (fetched cy))
         ∧ (rest = [] ↔ cl)
         ∧ (Send ∈ rest → Receive ∈ code)).

Definition protocol_inv (plan : nat → cycle) (s : state) : Prop :=
  state_inv plan s
  ∧ (∀ c code, collectors s !! c = Some code →
       scraper_inv (plan c) (scrapers s !! c) (c ∈ closed s) code)
  ∧ (∀ c, collectors s !! c = None → scrapers s !! c = None ∧ c ∉ closed s).

End Protocol.

(** * Proofs *)

(** ** The embedding on a few inputs *)

Example HasSuffix_qa_latency : HasSuffix "qa_latency" "latency" = true.
Proof. reflexivity. Qed.

Example HasSuffix_latency : HasSuffix "latency" "latency" = true.
Proof. reflexivity. Qed.

Example HasSuffix_short : HasSuffix "ency" "latency" = false.
Proof. reflexivity. Qed.

Example HasSuffix_other : HasSuffix "latency_average" "latency" = false.
Proof. reflexivity. Qed.

Example BuildFQName_up : BuildFQName namespace "recursor" "up" = "powerdns_recursor_up".
Proof. reflexivity. Qed.

Example uint64_truncates :
  uint64_of_float source_order_runtime 10.75%float = 10.
Proof. reflexivity. Qed.

Example uint64_of_two63 :
  uint64_of_float source_order_runtime 9223372036854775808%float = 2 ^ 63.
Proof. reflexivity. Qed.

Example microseconds_to_seconds : (2500000 / 1000000)%float = 2.5%float.
Proof. reflexivity. Qed.

Example Float64s_sorts :
  Float64s [1; 0.001; 0.1; 0.01]%float = [0.001; 0.01; 0.1; 1]%float.
Proof. reflexivity. Qed.

(** In the authoritative catalog [security_status] and [qsize] both carry
    id 6; the table built by the constructor keeps the gauge created last. *)
Example authoritative_gauge_6 :
  gauge_desc <$> gaugeMetrics (NewExporter "" "authoritative" "") !! 6
  = Some (mkDesc "powerdns_authoritative_qsize"
                 "Number of packets waiting for database attention." []).
Proof. reflexivity. Qed.

(** A recursor cycle on a snapshot with a latency, one counter key and the
    five histogram keys. *)
Example recursor_cycle :
  let stats :=
    mkStatsEntry "qa_latency" "StatisticItem" 2500000%float
    :: mkStatsEntry "questions" "StatisticItem" 42%float :: scenario_stats in
  ∃ w', Collect source_order_runtime (inr stats)
          (mkWorld (NewExporter "" "recursor" "") [] []) = Returned tt w'
        ∧ up (exporter w') = 1%float
        ∧ totalScrapes (exporter w') = 1
        ∧ jsonParseFailures (exporter w') = 14
        ∧ gauge_value <$> gaugeMetrics (exporter w') !! 1 = Some 2.5%float
        ∧ length (sent w') = 10%nat
        ∧ last (sent w')
          = Some (ConstHistogram rtime_desc 17 0%float
                    [(0.001%float, 10); (0.01%float, 15); (0.1%float, 15);
                     (1%float, 15)]).
Proof.
  intros stats. eexists. split; [vm_compute; reflexivity|].
  repeat split; reflexivity.
Qed.

(** ** Numeric conversions *)



Lemma uint64_in_range z : 0 ≤ z < 2 ^ 64 → (0 <=? z) && (z <? 2 ^ 64) = true.
Proof.
  intros [H0 H1]. apply andb_true_iff.
  split; [by apply Z.leb_le | by apply Z.ltb_lt].
Qed.

Lemma float_trunc_integer f n : float_integer f = Some n → float_trunc f = Some n.
Proof.
  unfold float_integer, float_trunc.
  destruct (Prim2SF f) as [s| s | | s m e]; try done.
  destruct (0 <=? e); [done|].
  destruct (_ =? 0); done.
Qed.

Lemma uint64_of_float_integer rt f n :
  float_integer f = Some n → 0 ≤ n < 2 ^ 64 → uint64_of_float rt f = n.
Proof.
  intros Hf Hn. unfold uint64_of_float.
  by rewrite (float_trunc_integer _ _ Hf), uint64_in_range.
Qed.


(** ** The float keys of the histogram *)

Ltac elem_of_list_search :=
  repeat first [apply list_elem_of_here | apply list_elem_of_further].

Ltac float_cases H :=
  repeat (apply elem_of_cons in H as [H | H]; [subst |]);
  [.. | by apply elem_of_nil in H].

Lemma universe_eqb_eq x y :
  x ∈ rtime_universe → y ∈ rtime_universe → (x =? y)%float = true → x = y.
Proof.
  unfold rtime_universe; cbn. intros Hx Hy.
  float_cases Hx; float_cases Hy; (reflexivity || (vm_compute; discriminate)).
Qed.

Lemma universe_eqb_refl x : x ∈ rtime_universe → (x =? x)%float = true.
Proof.
  unfold rtime_universe; cbn. intros Hx. float_cases Hx; reflexivity.
Qed.

Lemma Zsum_Permutation l k : l ≡ₚ k → Zsum l = Zsum k.
Proof. induction 1; simpl; lia. Qed.

Lemma wrap64_add_l a b : wrap64 (wrap64 a + b) = wrap64 (a + b).
Proof. unfold wrap64. by rewrite Zplus_mod_idemp_l. Qed.

Lemma universe_neq_eqb x y :
  x ∈ rtime_universe → y ∈ rtime_universe → x ≠ y → (x =? y)%float = false.
Proof.
  intros Hx Hy Hne. destruct (x =? y)%float eqn:E; [|done].
  by apply universe_eqb_eq in E.
Qed.

Lemma fm_set_fresh (m : float_map) k x :
  (∀ k', k' ∈ m.*1 → (k' =? k)%float = false) → fm_set m k x = m ++ [(k, x)].
Proof.
  induction m as [|[k' y] m IH]; intros Hm; [done|]. simpl.
  rewrite (Hm k') by (simpl; left). f_equal. apply IH.
  intros k'' Hk''. apply Hm. simpl. by right.
Qed.

Lemma wrap64_idemp a : wrap64 (wrap64 a) = wrap64 a.
Proof. unfold wrap64. by rewrite Zmod_mod. Qed.

(** ** The two loops of the histogram builder *)

Lemma rtime_collect_present rt statsMap entries b c :
  (∀ kv, kv ∈ entries → is_Some (statsMap !! kv.1)) →
  NoDup (b.*1 ++ entries.*2) →
  (∀ k, k ∈ b.*1 ++ entries.*2 → k ∈ rtime_universe) →
  wrap64 c = c →
  rtime_collect rt statsMap entries b c =
    inr (b ++ omap (linear_bucket rt statsMap) entries,
         wrap64 (c + Zsum (raw_count rt statsMap <$> entries.*1))).
Proof.
  revert b c. induction entries as [|[k v] rest IH]; intros b c Hpres Hnd Hin Hc.
  - simpl. by rewrite app_nil_r, Z.add_0_r, Hc.
  - destruct (Hpres (k, v)) as [value Hvalue]; [by left|].
    simpl in Hvalue. simpl rtime_collect. rewrite Hvalue.
    assert (Hrc : uint64_of_float rt value = raw_count rt statsMap k).
    { unfold raw_count. by rewrite Hvalue. }
    rewrite Hrc.
    assert (Hrest : ∀ kv, kv ∈ rest → is_Some (statsMap !! kv.1)).
    { intros kv Hkv. apply Hpres. by right. }
    simpl in Hnd, Hin.
    assert (Hperm : b.*1 ++ v :: rest.*2 ≡ₚ v :: b.*1 ++ rest.*2).
    { by rewrite Permutation_middle. }
    simpl omap. unfold linear_bucket at 1. simpl.
    destruct (v =? 0)%float eqn:Ev; simpl.
    + rewrite IH; [|done| |..].
      * by rewrite wrap64_add_l, Z.add_assoc.
      * rewrite Hperm in Hnd. by apply NoDup_cons in Hnd as [_ ?].
      * intros k' Hk'. apply Hin. rewrite Hperm. by right.
      * apply wrap64_idemp.
    + rewrite fm_set_fresh.
      * rewrite IH; [|done| |..].
        -- by rewrite wrap64_add_l, Z.add_assoc, <- app_assoc.
        -- by rewrite fmap_app, <- app_assoc.
        -- intros k' Hk'. apply Hin. by rewrite fmap_app, <- app_assoc in Hk'.
        -- apply wrap64_idemp.
      * intros k' Hk'. apply universe_neq_eqb.
        -- apply Hin. apply elem_of_app. by left.
        -- apply Hin. apply elem_of_app. right. by left.
        -- intros ->. apply NoDup_app in Hnd as (_ & Hdisj & _).
           apply (Hdisj v Hk'). by left.
Qed.

Lemma NoDup_rtime_universe : NoDup rtime_universe.
Proof.
  apply (NoDup_fmap_1 threshold_signature).
  by apply (bool_decide_unpack _); vm_compute.
Qed.

Lemma NoDup_rtime_thresholds : NoDup rtime_thresholds.
Proof.
  apply (NoDup_fmap_1 threshold_signature).
  by apply (bool_decide_unpack _); vm_compute.
Qed.

Lemma rtime_thresholds_universe k : k ∈ rtime_thresholds → k ∈ rtime_universe.
Proof.
  unfold rtime_thresholds, rtime_universe. cbn. intros Hk.
  float_cases Hk; elem_of_list_search.
Qed.

Lemma Float64s_rtime_thresholds ks :
  ks ≡ₚ rtime_thresholds → Float64s ks = rtime_thresholds.
Proof.
  intros Hks. symmetry in Hks. apply permutations_Permutation in Hks.
  vm_compute in Hks. float_cases Hks; reflexivity.
Qed.

Lemma fm_get_set m k x t :
  keys_in_universe m → k ∈ rtime_universe → t ∈ rtime_universe →
  fm_get (fm_set m k x) t = if (k =? t)%float then Some x else fm_get m t.
Proof.
  intros Hm Hk Ht. induction m as [|[k' y] m IH]; [done|].
  assert (Hk' : k' ∈ rtime_universe) by (apply Hm; simpl; left).
  assert (Hm' : keys_in_universe m) by (intros k'' ?; apply Hm; simpl; by right).
  simpl. destruct (k' =? k)%float eqn:E; simpl.
  - apply universe_eqb_eq in E as ->; [|done..].
    by destruct (k =? t)%float.
  - rewrite IH by done.
    destruct (k' =? t)%float eqn:E'; [|done].
    apply universe_eqb_eq in E' as ->; [|done..].
    destruct (k =? t)%float eqn:E''; [|done].
    apply universe_eqb_eq in E'' as ->; [|done..].
    by rewrite universe_eqb_refl in E.
Qed.

Lemma fm_set_keys_in_universe m k x :
  keys_in_universe m → k ∈ rtime_universe → keys_in_universe (fm_set m k x).
Proof.
  intros Hm Hk. induction m as [|[k' y] m IH]; simpl.
  - intros k'' Hk''. apply list_elem_of_singleton in Hk'' as ->. done.
  - assert (Hm' : keys_in_universe m) by (intros k'' ?; apply Hm; simpl; by right).
    destruct (k' =? k)%float; [done|].
    intros k'' Hk''. simpl in Hk''. apply elem_of_cons in Hk'' as [->|Hk''].
    + apply Hm. simpl. by left.
    + by apply IH.
Qed.

Lemma fm_set_fst_perm m k x :
  keys_in_universe m → k ∈ m.*1 → (fm_set m k x).*1 = m.*1.
Proof.
  intros Hm Hk. induction m as [|[k' y] m IH]; [by apply elem_of_nil in Hk|].
  assert (Hm' : keys_in_universe m) by (intros k'' ?; apply Hm; simpl; by right).
  simpl. destruct (k' =? k)%float eqn:E; [done|]. simpl. f_equal.
  apply IH; [done|]. simpl in Hk. apply elem_of_cons in Hk as [->|Hk]; [|done].
  rewrite universe_eqb_refl in E; [done|]. apply Hm. simpl. by left.
Qed.

Lemma fm_get_elem (m : float_map) t x :
  NoDup m.*1 → keys_in_universe m → (t, x) ∈ m → fm_get m t = Some x.
Proof.
  intros Hnd Hm Htx. induction m as [|[k' y] m IH]; [by apply elem_of_nil in Htx|].
  assert (Hm' : keys_in_universe m) by (intros k'' ?; apply Hm; simpl; by right).
  simpl in Hnd. apply NoDup_cons in Hnd as [Hk' Hnd].
  apply elem_of_cons in Htx as [[= <- <-]|Htx]; simpl.
  - rewrite universe_eqb_refl; [done|]. apply Hm. simpl. by left.
  - rewrite universe_neq_eqb.
    + by apply IH.
    + apply Hm. simpl. by left.
    + apply Hm'. by apply (list_elem_of_fmap_2 fst) in Htx.
    + intros ->. apply Hk'. by apply (list_elem_of_fmap_2 fst) in Htx.
Qed.

Lemma makeRecursorRTimeHistogram_present rt statsMap :
  Runtime_ok rt → required_present statsMap →
  let c := raw_count rt statsMap in
  ∃ buckets,
    makeRecursorRTimeHistogram rt statsMap =
      inr (ConstHistogram rtime_desc
             (wrap64 (c "answers0-1" + c "answers1-10" + c "answers10-100"
                      + c "answers100-1000" + c "answers-slow"))
             0%float buckets)
    ∧ buckets.*1 ≡ₚ rtime_thresholds
    ∧ fm_get buckets 0.001%float = Some (wrap64 (c "answers0-1"))
    ∧ fm_get buckets 0.01%float = Some (wrap64 (c "answers0-1" + c "answers1-10"))
    ∧ fm_get buckets 0.1%float =
        Some (wrap64 (c "answers0-1" + c "answers1-10" + c "answers10-100"))
    ∧ fm_get buckets 1%float =
        Some (wrap64 (c "answers0-1" + c "answers1-10" + c "answers10-100"
                      + c "answers100-1000")).
Proof.
  intros Hrt Hpres c. unfold makeRecursorRTimeHistogram.
  pose proof (Hrt _ _ rTimeBucketMap) as Ho.
  set (o := range_order rt rTimeBucketMap) in *.
  assert (Ho2 : o.*2 ≡ₚ rtime_universe) by (by rewrite Ho).
  rewrite rtime_collect_present; cycle 1.
  { intros kv Hkv. apply Hpres. by rewrite <- Ho. }
  { simpl. rewrite Ho2. apply NoDup_rtime_universe. }
  { simpl. intros k Hk. by rewrite <- Ho2. }
  { reflexivity. }
  rewrite app_nil_l.
  set (B := omap (linear_bucket rt statsMap) o).
  assert (HB : B ≡ₚ [ (0.001%float, c "answers0-1"); (0.01%float, c "answers1-10");
                      (0.1%float, c "answers10-100"); (1%float, c "answers100-1000") ]).
  { unfold B. rewrite Ho. reflexivity. }
  assert (HBk : B.*1 ≡ₚ rtime_thresholds) by (by rewrite HB).
  assert (HBu : keys_in_universe B).
  { intros k Hk. apply rtime_thresholds_universe. by rewrite <- HBk. }
  assert (HBnd : NoDup B.*1) by (rewrite HBk; apply NoDup_rtime_thresholds).
  rewrite Float64s_rtime_thresholds by (by rewrite (Hrt _ _ B)).
  assert (Hsum : Zsum (raw_count rt statsMap <$> o.*1)
                 = c "answers0-1" + c "answers1-10" + c "answers10-100"
                   + c "answers100-1000" + c "answers-slow").
  { rewrite (Zsum_Permutation _ (raw_count rt statsMap <$> rTimeBucketMap.*1))
      by (by rewrite Ho).
    simpl. fold c. lia. }
  rewrite Hsum, Z.add_0_l.
  assert (H1 : fm_get B 0.001%float = Some (c "answers0-1")).
  { apply fm_get_elem; [done..|]. rewrite HB. elem_of_list_search. }
  assert (H2 : fm_get B 0.01%float = Some (c "answers1-10")).
  { apply fm_get_elem; [done..|]. rewrite HB. elem_of_list_search. }
  assert (H3 : fm_get B 0.1%float = Some (c "answers10-100")).
  { apply fm_get_elem; [done..|]. rewrite HB. elem_of_list_search. }
  assert (H4 : fm_get B 1%float = Some (c "answers100-1000")).
  { apply fm_get_elem; [done..|]. rewrite HB. elem_of_list_search. }
  assert (U1 : 0.001%float ∈ rtime_universe) by (apply rtime_thresholds_universe; elem_of_list_search).
  assert (U2 : 0.01%float ∈ rtime_universe) by (apply rtime_thresholds_universe; elem_of_list_search).
  assert (U3 : 0.1%float ∈ rtime_universe) by (apply rtime_thresholds_universe; elem_of_list_search).
  assert (U4 : 1%float ∈ rtime_universe) by (apply rtime_thresholds_universe; elem_of_list_search).
  eexists. split; [reflexivity|].
  unfold rtime_thresholds. simpl rtime_cumulate.
  rewrite H1. simpl default.
  set (B1 := fm_set B _ _).
  assert (HB1 : keys_in_universe B1) by (by apply fm_set_keys_in_universe).
  assert (G12 : fm_get B1 0.01%float = Some (c "answers1-10")).
  { unfold B1. by rewrite fm_get_set. }
  rewrite G12. simpl default.
  set (B2 := fm_set B1 _ _).
  assert (HB2 : keys_in_universe B2) by (by apply fm_set_keys_in_universe).
  assert (G23 : fm_get B2 0.1%float = Some (c "answers10-100")).
  { unfold B2, B1. by rewrite !fm_get_set. }
  rewrite G23. simpl default.
  set (B3 := fm_set B2 _ _).
  assert (HB3 : keys_in_universe B3) by (by apply fm_set_keys_in_universe).
  assert (G34 : fm_get B3 1%float = Some (c "answers100-1000")).
  { unfold B3, B2, B1. by rewrite !fm_get_set. }
  rewrite G34. simpl default.
  rewrite !wrap64_add_l.
  assert (K1 : B1.*1 = B.*1).
  { apply fm_set_fst_perm; [done|]. rewrite HBk. elem_of_list_search. }
  assert (K2 : B2.*1 = B.*1).
  { unfold B2. rewrite fm_set_fst_perm; [done..|].
    rewrite K1, HBk. elem_of_list_search. }
  assert (K3 : B3.*1 = B.*1).
  { unfold B3. rewrite fm_set_fst_perm; [done..|].
    rewrite K2, HBk. elem_of_list_search. }
  split.
  { rewrite fm_set_fst_perm; [by rewrite K3|done|].
    rewrite K3, HBk. elem_of_list_search. }
  unfold B3, B2, B1. rewrite !fm_get_set by done. simpl.
  rewrite !Z.add_0_l.
  repeat first [rewrite wrap64_add_l | rewrite <- Z.add_assoc]. done.
Qed.


Lemma rtime_collect_missing rt statsMap entries b c :
  (∃ k, k ∈ entries.*1 ∧ statsMap !! k = None) →
  ∃ k, k ∈ entries.*1 ∧ statsMap !! k = None
       ∧ rtime_collect rt statsMap entries b c
         = inl ("Required PowerDNS stats key not found: " +:+ k).
Proof.
  revert b c. induction entries as [|[k v] rest IH]; intros b c (k0 & Hk0 & Hnone).
  - by apply elem_of_nil in Hk0.
  - simpl. destruct (statsMap !! k) as [value|] eqn:Hk.
    + destruct (IH (if negb (v =? 0)%float
                    then fm_set b v (uint64_of_float rt value) else b)
                   (wrap64 (c + uint64_of_float rt value))) as (k1 & Hk1 & Hn1 & Heq).
      { exists k0. split; [|done]. simpl in Hk0.
        apply elem_of_cons in Hk0 as [->|Hk0]; [congruence|done]. }
      exists k1. split; [simpl; by right|]. done.
    + exists k. split; [simpl; by left|]. done.
Qed.

Lemma makeRecursorRTimeHistogram_missing rt statsMap :
  Runtime_ok rt →
  (∃ k, k ∈ rTimeBucketMap.*1 ∧ statsMap !! k = None) →
  ∃ k, k ∈ rTimeBucketMap.*1 ∧ statsMap !! k = None
       ∧ makeRecursorRTimeHistogram rt statsMap
         = inl ("Required PowerDNS stats key not found: " +:+ k).
Proof.
  intros Hrt (k0 & Hk0 & Hnone). unfold makeRecursorRTimeHistogram.
  pose proof (Hrt _ _ rTimeBucketMap) as Ho.
  destruct (rtime_collect_missing rt statsMap (range_order rt rTimeBucketMap) [] 0)
    as (k & Hk & Hn & Heq).
  { exists k0. split; [by rewrite Ho|done]. }
  exists k. rewrite Heq. split; [by rewrite <- Ho|done].
Qed.

(** ** The loops of [collectMetrics] *)


Lemma exporter_eta e :
  mkExporter (HostURL e) (ServerType e) (ApiKey e) (up e) (totalScrapes e)
    (jsonParseFailures e) (gaugeMetrics e) (counterMetrics e) (gaugeDefs e)
    (counterDefs e) = e.
Proof. by destruct e. Qed.

Lemma absent_cons_present statsMap k ks v :
  statsMap !! k = Some v → absent statsMap (k :: ks) = absent statsMap ks.
Proof. intros Hk. unfold absent. rewrite filter_cons_False; [done|congruence]. Qed.

Lemma absent_cons_absent statsMap k ks :
  statsMap !! k = None → absent statsMap (k :: ks) = k :: absent statsMap ks.
Proof. intros Hk. unfold absent. by rewrite filter_cons_True. Qed.

Lemma absent_app statsMap ks ks' :
  absent statsMap (ks ++ ks') = absent statsMap ks ++ absent statsMap ks'.
Proof. apply filter_app. Qed.

Lemma gauge_step_present statsMap g def raw :
  statsMap !! gd_key def = Some raw →
  gauge_step statsMap g def =
    alter (Gauge_Set (if HasSuffix (gd_key def) "latency"
                      then (raw / 1000000)%float else raw)) (gd_id def) g.
Proof. intros Hraw. unfold gauge_step. by rewrite Hraw. Qed.

Lemma gauge_step_absent statsMap g def :
  statsMap !! gd_key def = None → gauge_step statsMap g def = g.
Proof. intros Hraw. unfold gauge_step. by rewrite Hraw. Qed.

Lemma gauge_step_is_Some statsMap g def id :
  is_Some (gauge_step statsMap g def !! id) ↔ is_Some (g !! id).
Proof.
  unfold gauge_step. destruct (statsMap !! gd_key def); [|done].
  rewrite lookup_alter. case_decide; [subst|done].
  by rewrite fmap_is_Some.
Qed.

(** The gauge loop: it sends nothing, counts and logs every absent key, and
    leaves the gauge table folded through [gauge_step]. *)
Lemma gauge_loop_spec statsMap defs w :
  (∀ def, def ∈ defs → is_Some (gaugeMetrics (exporter w) !! gd_id def)) →
  for_each defs (gauge_body statsMap) w =
    Returned tt
      (let e := exporter w in
       let gone := absent statsMap (gd_key <$> defs) in
       mkWorld
         (mkExporter (HostURL e) (ServerType e) (ApiKey e) (up e) (totalScrapes e)
            (jsonParseFailures e + Z.of_nat (length gone))
            (foldl (gauge_step statsMap) (gaugeMetrics e) defs)
            (counterMetrics e) (gaugeDefs e) (counterDefs e))
         (sent w)
         (logged w ++ (key_not_found <$> gone))).
Proof.
  revert w. induction defs as [|def defs IH]; intros w Hok.
  - simpl. unfold ret. destruct w as [e s l]; simpl.
    by rewrite Z.add_0_r, exporter_eta, app_nil_r.
  - assert (Hdef : is_Some (gaugeMetrics (exporter w) !! gd_id def)) by (apply Hok; left).
    destruct Hdef as [g0 Hg0].
    simpl for_each. unfold bind, gauge_body at 1.
    destruct (statsMap !! gd_key def) as [raw|] eqn:Hraw.
    + unfold gaugeMetrics_Set. rewrite Hg0.
      rewrite IH; cycle 1.
      { intros d Hd. simpl.
        rewrite lookup_alter. case_decide as Hid.
        - rewrite Hg0. by eexists.
        - apply Hok. by right. }
      simpl. rewrite (absent_cons_present _ _ _ _ Hraw).
      by rewrite (gauge_step_present _ _ _ _ Hraw).
    + unfold bind, log_Errorf, jsonParseFailures_Inc.
      rewrite IH; cycle 1.
      { intros d Hd. simpl. apply Hok. by right. }
      simpl. rewrite (absent_cons_absent _ _ _ Hraw).
      rewrite (gauge_step_absent _ _ _ Hraw). simpl.
      rewrite <- !app_assoc. simpl.
      by rewrite Nat2Z.inj_succ, <- Z.add_1_l, Z.add_assoc.
Qed.

(** The loop over one label map: one constant metric per present key, in
    iteration order; every absent key is logged and counted. *)
Lemma label_loop_spec statsMap def d entries w :
  counterMetrics (exporter w) !! cd_id def = Some d →
  length (variableLabels d) = 1%nat →
  for_each entries (label_body statsMap def) w =
    Returned tt
      (let e := exporter w in
       let gone := absent statsMap entries.*1 in
       mkWorld
         (mkExporter (HostURL e) (ServerType e) (ApiKey e) (up e) (totalScrapes e)
            (jsonParseFailures e + Z.of_nat (length gone))
            (gaugeMetrics e) (counterMetrics e) (gaugeDefs e) (counterDefs e))
         (sent w ++ counter_series statsMap d entries)
         (logged w ++ (key_not_found <$> gone))).
Proof.
  intros Hd Hlen. revert w Hd.
  induction entries as [|[key label] entries IH]; intros w Hd.
  - simpl. unfold ret. destruct w as [e s l]; simpl.
    by rewrite Z.add_0_r, exporter_eta, !app_nil_r.
  - simpl for_each. unfold bind, label_body at 1.
    destruct (statsMap !! key) as [raw|] eqn:Hraw.
    + unfold bind, this, MustNewConstMetric. rewrite Hd. simpl length.
      rewrite Hlen. simpl. unfold ret, send.
      rewrite IH by done.
      simpl. rewrite (absent_cons_present _ _ _ _ Hraw), Hraw.
      by rewrite <- app_assoc.
    + unfold bind, log_Errorf, jsonParseFailures_Inc.
      rewrite IH by done.
      simpl. rewrite (absent_cons_absent _ _ _ Hraw), Hraw. simpl.
      rewrite <- !app_assoc. simpl.
      by rewrite Nat2Z.inj_succ, <- Z.add_1_l, Z.add_assoc.
Qed.

(** The loop over the counter definitions. *)
Lemma counter_loop_spec rt statsMap defs w :
  (∀ def, def ∈ defs → counter_desc_ok (exporter w) def) →
  for_each defs (counter_body rt statsMap) w =
    Returned tt
      (let e := exporter w in
       let gone := absent statsMap (counter_keys rt defs) in
       mkWorld
         (mkExporter (HostURL e) (ServerType e) (ApiKey e) (up e) (totalScrapes e)
            (jsonParseFailures e + Z.of_nat (length gone))
            (gaugeMetrics e) (counterMetrics e) (gaugeDefs e) (counterDefs e))
         (sent w ++ counters_sent rt statsMap e defs)
         (logged w ++ (key_not_found <$> gone))).
Proof.
  revert w. induction defs as [|def defs IH]; intros w Hok.
  - simpl. unfold ret. destruct w as [e s l]; simpl.
    by rewrite Z.add_0_r, exporter_eta, !app_nil_r.
  - destruct (Hok def) as (d & Hd & Hlen); [by left|].
    simpl for_each. unfold bind, counter_body at 1.
    rewrite (label_loop_spec _ _ d) by done.
    rewrite IH; cycle 1.
    { intros def' Hdef'. simpl. apply Hok. by right. }
    unfold counter_keys, counters_sent. simpl.
    rewrite Hd, absent_app, length_app, fmap_app, Nat2Z.inj_add.
    by rewrite <- !app_assoc, Z.add_assoc.
Qed.

(** ** [collectMetrics] as a whole *)

Lemma build_statsMap_snoc stats s :
  build_statsMap (stats ++ [s]) = <[Name s := Value s]> (build_statsMap stats).
Proof. unfold build_statsMap. by rewrite foldl_app. Qed.

Lemma build_statsMap_size stats : size (build_statsMap stats) = 0%nat ↔ stats = [].
Proof.
  split; [|by intros ->].
  destruct stats as [|s stats _] using rev_ind; [done|].
  rewrite build_statsMap_snoc. intros Hsz.
  apply map_size_empty_iff in Hsz. by destruct (insert_non_empty _ _ _ Hsz).
Qed.

Lemma collectMetrics_empty rt jsonStats w :
  default [] jsonStats = [] → collectMetrics rt jsonStats w = Returned tt w.
Proof. intros Hs. unfold collectMetrics. by rewrite Hs. Qed.

Lemma collectMetrics_nonempty rt jsonStats w :
  default [] jsonStats ≠ [] →
  collectMetrics rt jsonStats w =
    (gauge_and_counter_loops rt (build_statsMap (default [] jsonStats)) ;;
     histogram_block rt (build_statsMap (default [] jsonStats))) w.
Proof.
  intros Hs. unfold collectMetrics.
  destruct (size _ =? 0)%nat eqn:Hsz.
  - apply Nat.eqb_eq, build_statsMap_size in Hsz. done.
  - unfold gauge_and_counter_loops, bind, this.
    by destruct (for_each (gaugeDefs (exporter w)) _ w).
Qed.

(** With the constructor's tables in place the two loops never panic, and
    they end in [after_loops]. *)
Lemma gauge_and_counter_loops_spec rt statsMap w :
  exporter_ok (exporter w) →
  gauge_and_counter_loops rt statsMap w = Returned tt (after_loops rt statsMap w).
Proof.
  intros [Hg Hc]. unfold gauge_and_counter_loops, bind, this.
  rewrite gauge_loop_spec by done.
  rewrite counter_loop_spec by (simpl; intros def Hdef; by apply Hc).
  unfold after_loops. simpl.
  rewrite length_app, fmap_app, Nat2Z.inj_add.
  by rewrite <- !app_assoc, Z.add_assoc.
Qed.

(** ** The constructor establishes [exporter_ok] *)

Lemma foldl_insert_lookup {A B} (key : A → Z) (f : A → B) (l : list A) (m : gmap Z B) a :
  a ∈ l →
  ∃ a', a' ∈ l ∧ foldl (λ m x, <[key x := f x]> m) m l !! key a = Some (f a').
Proof.
  revert m. induction l as [|x l IH] using rev_ind; intros m Ha.
  - by apply elem_of_nil in Ha.
  - rewrite foldl_app. simpl.
    destruct (decide (key x = key a)) as [Heq|Hne].
    + exists x. split; [apply elem_of_app; right; by left|].
      by rewrite <- Heq, lookup_insert_eq.
    + apply elem_of_app in Ha as [Ha|Ha].
      * destruct (IH m Ha) as (a' & Ha' & Hl).
        exists a'. split; [apply elem_of_app; by left|].
        by rewrite lookup_insert_ne.
      * apply list_elem_of_singleton in Ha. by subst.
Qed.

Lemma NewExporter_ok apiKey serverType hostURL :
  exporter_ok (NewExporter apiKey serverType hostURL).
Proof.
  unfold NewExporter.
  set (defs := if String.eqb serverType "recursor" then _ else _).
  split; simpl; intros def Hdef.
  - destruct (foldl_insert_lookup gd_id
                (λ def, newGaugeMetric serverType (gd_name def) (gd_desc def))
                defs.1 ∅ def Hdef) as (d' & _ & ->).
    by eexists.
  - destruct (foldl_insert_lookup cd_id
                (λ def, mkDesc (BuildFQName namespace serverType (cd_name def))
                               (cd_desc def) [cd_label def])
                defs.2 ∅ def Hdef) as (d' & _ & Hl).
    eexists. simpl. split; [exact Hl|done].
Qed.

(** ** Every interleaving of one cycle is the cycle of [Collect] *)

Lemma act_off_channel a w :
  off_channel a →
  sent (act a w) = sent w
  ∧ ∀ w0, exporter w0 = exporter w → logged w0 = logged w →
          exporter (act a w0) = exporter (act a w)
          ∧ logged (act a w0) = logged (act a w).
Proof.
  destruct a as [f|msg|m]; [| |done]; intros _; (split; [done|]);
    intros w0 He Hl; simpl; by rewrite ?He, ?Hl.
Qed.

Lemma act_on_channel a w :
  on_channel a →
  exporter (act a w) = exporter w ∧ logged (act a w) = logged w
  ∧ ∀ w0, sent w0 = sent w → sent (act a w0) = sent (act a w).
Proof.
  destruct a as [f|msg|m]; [done|done|]; intros _.
  split; [done|]. split; [done|]. intros w0 Hs. simpl. by rewrite Hs.
Qed.

(** Steps off the channel and steps on the channel commute: an interleaving
    leaves the exporter and the log as the first goroutine alone would, and
    the channel as the second alone would. *)
Lemma interleaving_acts la lb l :
  interleaving la lb l → Forall off_channel la → Forall on_channel lb →
  ∀ w wa wb,
    exporter wa = exporter w → logged wa = logged w → sent wb = sent w →
    exporter (foldl (flip act) w l) = exporter (foldl (flip act) wa la)
    ∧ logged (foldl (flip act) w l) = logged (foldl (flip act) wa la)
    ∧ sent (foldl (flip act) w l) = sent (foldl (flip act) wb lb).
Proof.
  induction 1 as [|a la lb l Hl IH|b la lb l Hl IH]; intros Hla Hlb w wa wb He Hlog Hs.
  - done.
  - apply Forall_cons in Hla as [Ha Hla]. simpl. unfold flip at 1 3.
    destruct (act_off_channel a w Ha) as [Hsent Hsame].
    destruct (Hsame wa He Hlog) as [He' Hlog'].
    apply IH; [done..|]. by rewrite Hsent.
  - apply Forall_cons in Hlb as [Hb Hlb]. simpl. unfold flip at 1 4.
    destruct (act_on_channel b w Hb) as (He' & Hlog' & Hsame).
    apply IH; [done..| | |].
    + by rewrite He'.
    + by rewrite Hlog'.
    + by apply Hsame.
Qed.

(** Whatever the interleaving of [scrape] with the three sends of
    [Collect], [collectMetrics] starts in the same world, and the cycle is
    the one [Collect] computes. *)
Lemma Collect_interleaving rt fetch l w :
  interleaving (scrape_actions fetch) collect_actions l →
  collectMetrics rt (scrape_handover fetch) (foldl (flip act) w l) = Collect rt fetch w.
Proof.
  intros Hl.
  destruct (interleaving_acts _ _ _ Hl) with (w := w) (wa := w) (wb := w)
    as (He & Hlog & Hs); try done.
  { destruct fetch; by repeat constructor. }
  { by repeat constructor. }
  assert (Hw : foldl (flip act) w l =
               mkWorld (exporter (foldl (flip act) w (scrape_actions fetch)))
                       (sent (foldl (flip act) w collect_actions))
                       (logged (foldl (flip act) w (scrape_actions fetch)))).
  { destruct (foldl (flip act) w l) as [e s lg]. simpl in *. by subst. }
  rewrite Hw. unfold Collect, scrape, bind.
  destruct fetch as [err|data]; simpl; by rewrite <- !app_assoc.
Qed.

(** ** Whole cycles *)

(** C1.  A cycle whose fetch or decode fails sends exactly the three
    housekeeping metrics, [up], [totalScrapes] and [jsonParseFailures], and
    no gauge, counter or histogram metric; it sets [up] to 0, adds one to
    [jsonParseFailures] and one to [totalScrapes], and writes no gauge. *)
Theorem fetch_failure_cycle (rt : Runtime) (err : string) (w : World) :
  ∃ w' new,
    Collect rt (inl err) w = Returned tt w'
    ∧ sent w' = sent w ++ new
    ∧ new = [UpMetric; TotalScrapesMetric; JsonParseFailuresMetric]
    ∧ Forall (λ m, metric_class m = Housekeeping) new
    ∧ up (exporter w') = 0%float
    ∧ jsonParseFailures (exporter w') = jsonParseFailures (exporter w) + 1
    ∧ totalScrapes (exporter w') = totalScrapes (exporter w) + 1
    ∧ gaugeMetrics (exporter w') = gaugeMetrics (exporter w).
Proof.
  eexists _, _. split.
  - unfold Collect, scrape, collectMetrics, bind. simpl. reflexivity.
  - simpl. rewrite <- !app_assoc. simpl. split; [reflexivity|].
    repeat split; try done. by repeat constructor.
Qed.

(** C3.  A cycle whose fetch succeeds with an empty statistics list sets
    [up] to 1 and stops after the three housekeeping metrics: it sends no
    gauge, counter or histogram metric, writes no gauge, logs nothing, and
    leaves [jsonParseFailures] unchanged. *)
Theorem empty_snapshot_cycle (rt : Runtime) (w : World) :
  ∃ w' new,
    Collect rt (inr []) w = Returned tt w'
    ∧ size (build_statsMap []) = 0%nat
    ∧ sent w' = sent w ++ new
    ∧ new = [UpMetric; TotalScrapesMetric; JsonParseFailuresMetric]
    ∧ Forall (λ m, metric_class m = Housekeeping) new
    ∧ up (exporter w') = 1%float
    ∧ totalScrapes (exporter w') = totalScrapes (exporter w) + 1
    ∧ jsonParseFailures (exporter w') = jsonParseFailures (exporter w)
    ∧ gaugeMetrics (exporter w') = gaugeMetrics (exporter w)
    ∧ logged w' = logged w.
Proof.
  eexists _, _. split.
  - unfold Collect, scrape, collectMetrics, bind. simpl. reflexivity.
  - simpl. rewrite <- !app_assoc. simpl. split; [reflexivity|]. split; [reflexivity|].
    repeat split; try done. by repeat constructor.
Qed.

(** ** Cycles whose snapshot lacks a histogram key *)

Lemma source_order_runtime_ok : Runtime_ok source_order_runtime.
Proof. by intros K V m. Qed.

Lemma counter_series_no_histogram statsMap d entries :
  Forall (λ m, is_histogram m = false) (counter_series statsMap d entries).
Proof.
  apply Forall_forall. intros m Hm. unfold counter_series in Hm.
  apply list_elem_of_omap in Hm as (kv & _ & Hkv).
  destruct (statsMap !! kv.1); [|done]. by injection Hkv as <-.
Qed.

Lemma counters_sent_no_histogram rt statsMap e defs :
  Forall (λ m, is_histogram m = false) (counters_sent rt statsMap e defs).
Proof.
  unfold counters_sent. induction defs as [|def defs IH]; [by constructor|].
  simpl. apply Forall_app. split; [|done].
  destruct (counterMetrics e !! cd_id def); [|by constructor].
  apply counter_series_no_histogram.
Qed.

(** The world in which [collectMetrics] starts when the fetch succeeded. *)
Lemma Collect_fetched rt data w :
  Collect rt (inr data) w =
    collectMetrics rt (Some data)
      (mkWorld (with_up 1%float
                  (with_totalScrapes (totalScrapes (exporter w) + 1) (exporter w)))
               (sent w ++ [UpMetric; TotalScrapesMetric; JsonParseFailuresMetric])
               (logged w)).
Proof.
  unfold Collect, scrape, bind. simpl. by rewrite <- !app_assoc.
Qed.

(** The histogram block when the builder fails: one more log line. *)
Lemma histogram_block_missing rt statsMap w k :
  ServerType (exporter w) = "recursor" →
  makeRecursorRTimeHistogram rt statsMap = inl (required_key_not_found k) →
  histogram_block rt statsMap w =
    Returned tt (mkWorld (exporter w) (sent w)
                   (logged w ++ [histogram_failed (required_key_not_found k)])).
Proof.
  intros Hty Herr. unfold histogram_block, bind, this. by rewrite Hty, Herr.
Qed.


(** What a cycle does when the snapshot lacks a raw key of the histogram. *)
Lemma collectMetrics_missing rt stats w k :
  Runtime_ok rt → exporter_ok (exporter w) → ServerType (exporter w) = "recursor" →
  k ∈ rTimeBucketMap.*1 → build_statsMap stats !! k = None → stats ≠ [] →
  ∃ k', k' ∈ rTimeBucketMap.*1 ∧ build_statsMap stats !! k' = None
    ∧ makeRecursorRTimeHistogram rt (build_statsMap stats) = inl (required_key_not_found k')
    ∧ collectMetrics rt (Some stats) w =
        Returned tt
          (let w1 := after_loops rt (build_statsMap stats) w in
           mkWorld (exporter w1) (sent w1)
             (logged w1 ++ [histogram_failed (required_key_not_found k')])).
Proof.
  intros Hrt Hok Hty Hk Hnone Hne.
  destruct (makeRecursorRTimeHistogram_missing rt (build_statsMap stats) Hrt)
    as (k' & Hk' & Hn' & Herr); [by exists k|].
  exists k'. repeat split; try done.
  rewrite collectMetrics_nonempty by done. simpl default.
  unfold bind at 1. rewrite gauge_and_counter_loops_spec by done.
  by apply histogram_block_missing.
Qed.

(** C4.  When the snapshot lacks one of the five raw keys of the histogram,
    [makeRecursorRTimeHistogram] fails with the missing-key error; a
    recursor cycle on that snapshot sends no histogram; and the failure
    changes neither the exporter nor the metrics already sent by the gauge
    and counter loops: the cycle ends normally in the world those loops
    produced, with one more log line. *)
Theorem histogram_missing_key (rt : Runtime) (stats : list StatsEntry) (k : string) :
  Runtime_ok rt →
  k ∈ rTimeBucketMap.*1 → build_statsMap stats !! k = None →
  (∃ k', k' ∈ rTimeBucketMap.*1 ∧ build_statsMap stats !! k' = None
     ∧ makeRecursorRTimeHistogram rt (build_statsMap stats)
       = inl ("Required PowerDNS stats key not found: " +:+ k'))
  ∧ ∀ w, exporter_ok (exporter w) → ServerType (exporter w) = "recursor" →
      (∃ w' new,
         Collect rt (inr stats) w = Returned tt w'
         ∧ sent w' = sent w ++ new
         ∧ Forall (λ m, is_histogram m = false) new)
      ∧ (∃ w',
           collectMetrics rt (Some stats) w = Returned tt w'
           ∧ ∀ w1, stats ≠ [] →
               gauge_and_counter_loops rt (build_statsMap stats) w = Returned tt w1 →
               exporter w' = exporter w1 ∧ sent w' = sent w1).
Proof.
  intros Hrt Hk Hnone. split.
  { destruct (makeRecursorRTimeHistogram_missing rt (build_statsMap stats) Hrt)
      as (k' & Hk' & Hn' & Herr); [by exists k|]. by exists k'. }
  intros w Hok Hty. split.
  - rewrite Collect_fetched. destruct stats as [|s stats].
    + eexists _, _. rewrite collectMetrics_empty by done. simpl.
      split; [done|]. split; [done|]. by repeat constructor.
    + edestruct (collectMetrics_missing rt (s :: stats)) as (k' & _ & _ & _ & ->);
        [done| |done..|]; [done|].
      eexists _, _. split; [done|]. simpl. rewrite <- app_assoc. split; [done|].
      apply Forall_app. split; [by repeat constructor|].
      apply counters_sent_no_histogram.
  - destruct stats as [|s stats].
    + eexists. rewrite collectMetrics_empty by done. split; [done|]. by intros w1 [].
    + destruct (collectMetrics_missing rt (s :: stats) w k) as (k' & _ & _ & _ & ->);
        [done..|].
      eexists. split; [done|]. intros w1 _.
      rewrite gauge_and_counter_loops_spec by done. by intros [= <-].
Qed.

Lemma histogram_missing_key_witness :
  let w := mkWorld (NewExporter "" "recursor" "") [] [] in
  let stats := [mkStatsEntry "questions" "StatisticItem" 42%float] in
  (∃ k', k' ∈ rTimeBucketMap.*1 ∧ build_statsMap stats !! k' = None
     ∧ makeRecursorRTimeHistogram source_order_runtime (build_statsMap stats)
       = inl ("Required PowerDNS stats key not found: " +:+ k'))
  ∧ (∃ w' new,
       Collect source_order_runtime (inr stats) w = Returned tt w'
       ∧ sent w' = sent w ++ new
       ∧ Forall (λ m, is_histogram m = false) new)
  ∧ (∃ w',
       collectMetrics source_order_runtime (Some stats) w = Returned tt w'
       ∧ ∀ w1, stats ≠ [] →
           gauge_and_counter_loops source_order_runtime (build_statsMap stats) w
             = Returned tt w1 →
           exporter w' = exporter w1 ∧ sent w' = sent w1).
Proof.
  intros w stats.
  destruct (histogram_missing_key source_order_runtime stats "answers-slow")
    as [Hbuilder Hcycle].
  - apply source_order_runtime_ok.
  - simpl. elem_of_list_search.
  - reflexivity.
  - split; [exact Hbuilder|]. apply (Hcycle w).
    + apply NewExporter_ok.
    + reflexivity.
Defined.

Lemma rtime_keys_counted rt k :
  Runtime_ok rt → k ∈ rTimeBucketMap.*1 → k ∈ counter_keys rt recursorCounterDefs.
Proof.
  intros Hrt Hk. unfold counter_keys. apply list_elem_of_bind.
  exists (mkCounterDef 5 "answers_rtime_total"
            "Total number of answers grouped by response time slots." "timeslot"
            rTimeLabelMap).
  split; [|unfold recursorCounterDefs; elem_of_list_search].
  simpl. by rewrite (Hrt _ _ rTimeLabelMap).
Qed.

(** C5, as the code has it.  In a recursor cycle whose snapshot is not empty
    and lacks a raw key of the histogram, the failure of the builder is
    logged and nothing more: handling it leaves [jsonParseFailures] as the
    gauge and counter loops left it, so the cycle adds exactly one per
    absent gauge key and one per absent label-map key.  With the recursor
    catalog the raw keys of the histogram are also the label-map keys of
    counter definition 5, so the absent key is among those counted by the
    counter loop. *)
Theorem histogram_failure_only_logged (rt : Runtime) (stats : list StatsEntry)
    (w : World) (k : string) :
  Runtime_ok rt → exporter_ok (exporter w) → ServerType (exporter w) = "recursor" →
  k ∈ rTimeBucketMap.*1 → build_statsMap stats !! k = None → stats ≠ [] →
  ∃ w1 w' k',
    gauge_and_counter_loops rt (build_statsMap stats) w = Returned tt w1
    ∧ collectMetrics rt (Some stats) w = Returned tt w'
    ∧ makeRecursorRTimeHistogram rt (build_statsMap stats)
      = inl ("Required PowerDNS stats key not found: " +:+ k')
    ∧ logged w' =
        logged w1
        ++ ["Could not create response time histogram: "
            +:+ "Required PowerDNS stats key not found: " +:+ k']
    ∧ jsonParseFailures (exporter w') = jsonParseFailures (exporter w1)
    ∧ jsonParseFailures (exporter w') =
        jsonParseFailures (exporter w)
        + Z.of_nat (length (absent (build_statsMap stats)
                              (gd_key <$> gaugeDefs (exporter w))))
        + Z.of_nat (length (absent (build_statsMap stats)
                              (counter_keys rt (counterDefs (exporter w)))))
    ∧ (counterDefs (exporter w) = recursorCounterDefs →
       k ∈ absent (build_statsMap stats) (counter_keys rt (counterDefs (exporter w)))).
Proof.
  intros Hrt Hok Hty Hk Hnone Hne.
  destruct (collectMetrics_missing rt stats w k) as (k' & _ & _ & Herr & Hcm); [done..|].
  eexists _, _, k'. split; [by apply gauge_and_counter_loops_spec|].
  split; [exact Hcm|]. split; [exact Herr|]. simpl.
  split; [done|]. split; [done|]. split.
  - by rewrite length_app, Nat2Z.inj_add, Z.add_assoc.
  - intros ->. apply list_elem_of_filter. split; [done|].
    by apply rtime_keys_counted.
Qed.

Lemma histogram_failure_only_logged_witness :
  let w := mkWorld (NewExporter "" "recursor" "") [] [] in
  let stats := [mkStatsEntry "questions" "StatisticItem" 42%float] in
  ∃ w1 w' k',
    gauge_and_counter_loops source_order_runtime (build_statsMap stats) w = Returned tt w1
    ∧ collectMetrics source_order_runtime (Some stats) w = Returned tt w'
    ∧ makeRecursorRTimeHistogram source_order_runtime (build_statsMap stats)
      = inl ("Required PowerDNS stats key not found: " +:+ k')
    ∧ logged w' =
        logged w1
        ++ ["Could not create response time histogram: "
            +:+ "Required PowerDNS stats key not found: " +:+ k']
    ∧ jsonParseFailures (exporter w') = jsonParseFailures (exporter w1)
    ∧ jsonParseFailures (exporter w') =
        jsonParseFailures (exporter w)
        + Z.of_nat (length (absent (build_statsMap stats)
                              (gd_key <$> gaugeDefs (exporter w))))
        + Z.of_nat (length (absent (build_statsMap stats)
                              (counter_keys source_order_runtime
                                 (counterDefs (exporter w)))))
    ∧ (counterDefs (exporter w) = recursorCounterDefs →
       "answers-slow" ∈ absent (build_statsMap stats)
                          (counter_keys source_order_runtime (counterDefs (exporter w)))).
Proof.
  intros w stats.
  apply (histogram_failure_only_logged source_order_runtime stats w "answers-slow").
  - apply source_order_runtime_ok.
  - apply NewExporter_ok.
  - reflexivity.
  - simpl. elem_of_list_search.
  - reflexivity.
  - discriminate.
Defined.

(** C5 as stated fails.  On a recursor exporter and the snapshot
    [{questions: 42}] the builder fails on a missing key, yet the cycle ends
    with [jsonParseFailures] at 20, the value the gauge and counter loops
    left (3 absent gauge keys and 17 absent label-map keys): the failure of
    the builder added nothing.  And on the empty snapshot, which lacks all
    five keys, [jsonParseFailures] does not move at all. *)
Lemma histogram_failure_counted_counterexample :
  let w := mkWorld (NewExporter "" "recursor" "") [] [] in
  let stats := [mkStatsEntry "questions" "StatisticItem" 42%float] in
  (build_statsMap stats !! "answers0-1" = None
   ∧ makeRecursorRTimeHistogram source_order_runtime (build_statsMap stats)
     = inl "Required PowerDNS stats key not found: answers0-1"
   ∧ ∃ w1 w',
       gauge_and_counter_loops source_order_runtime (build_statsMap stats) w
         = Returned tt w1
       ∧ collectMetrics source_order_runtime (Some stats) w = Returned tt w'
       ∧ length (absent (build_statsMap stats) (gd_key <$> recursorGaugeDefs)) = 3%nat
       ∧ length (absent (build_statsMap stats)
                   (counter_keys source_order_runtime recursorCounterDefs)) = 17%nat
       ∧ jsonParseFailures (exporter w1) = 20
       ∧ jsonParseFailures (exporter w') = 20
       ∧ jsonParseFailures (exporter w') ≠ jsonParseFailures (exporter w1) + 1)
  ∧ (build_statsMap [] !! "answers0-1" = None
     ∧ ∃ w'', Collect source_order_runtime (inr []) w = Returned tt w''
              ∧ jsonParseFailures (exporter w'') = jsonParseFailures (exporter w)).
Proof.
  intros w stats. split.
  - split; [reflexivity|]. split; [reflexivity|].
    eexists _, _. split; [vm_compute; reflexivity|].
    split; [vm_compute; reflexivity|].
    simpl. repeat split; try reflexivity. discriminate.
  - split; [reflexivity|]. eexists. split; [vm_compute; reflexivity|]. reflexivity.
Qed.

(** ** Gauges *)

Lemma gauge_fold_is_Some statsMap defs g id :
  is_Some (foldl (gauge_step statsMap) g defs !! id) ↔ is_Some (g !! id).
Proof.
  revert g. induction defs as [|d defs IH]; intros g; [done|].
  simpl. by rewrite IH, gauge_step_is_Some.
Qed.

(** Definitions whose key is absent, or which write another id, leave the
    gauge under [id] alone. *)
Lemma gauge_fold_untouched statsMap defs g id :
  (∀ d, d ∈ defs → gd_id d = id → statsMap !! gd_key d = None) →
  foldl (gauge_step statsMap) g defs !! id = g !! id.
Proof.
  revert g. induction defs as [|d defs IH]; intros g Hdefs; [done|].
  simpl. rewrite IH by (intros d' Hd'; apply Hdefs; by right).
  unfold gauge_step. destruct (statsMap !! gd_key d) eqn:Hd; [|done].
  apply lookup_alter_ne. intros Hid.
  specialize (Hdefs d (list_elem_of_here _ _) Hid). congruence.
Qed.

(** The last definition to write a gauge decides its value. *)
Lemma gauge_fold_last statsMap pre def post g raw :
  statsMap !! gd_key def = Some raw →
  is_Some (g !! gd_id def) →
  (∀ d, d ∈ post → gd_id d = gd_id def → statsMap !! gd_key d = None) →
  gauge_value <$> foldl (gauge_step statsMap) g (pre ++ def :: post) !! gd_id def
  = Some (if HasSuffix (gd_key def) "latency" then (raw / 1000000)%float else raw).
Proof.
  intros Hraw Hg Hpost. rewrite foldl_app. simpl.
  rewrite gauge_fold_untouched by done.
  rewrite (gauge_step_present _ _ _ _ Hraw), lookup_alter_eq.
  apply (gauge_fold_is_Some statsMap pre) in Hg as [g1 ->]. done.
Qed.

Lemma histogram_block_returns rt statsMap w :
  ∃ w', histogram_block rt statsMap w = Returned tt w'
        ∧ exporter w' = exporter w
        ∧ ∃ new, sent w' = sent w ++ new.
Proof.
  unfold histogram_block, bind, this.
  destruct (String.eqb _ _).
  - destruct (makeRecursorRTimeHistogram rt statsMap) as [err|h].
    + eexists. split; [done|]. split; [done|]. exists []. simpl. by rewrite app_nil_r.
    + eexists. split; [done|]. split; [done|]. by exists [h].
  - eexists. split; [done|]. split; [done|]. exists []. by rewrite app_nil_r.
Qed.

(** A cycle with a fetched, non-empty statistics list: it never panics on
    an exporter built by the constructor, and this is its exporter. *)
Lemma Collect_nonempty rt stats w :
  exporter_ok (exporter w) → stats ≠ [] →
  ∃ w',
    Collect rt (inr stats) w = Returned tt w'
    ∧ exporter w' =
        (let e := exporter w in
         let statsMap := build_statsMap stats in
         mkExporter (HostURL e) (ServerType e) (ApiKey e) 1%float (totalScrapes e + 1)
           (jsonParseFailures e
            + Z.of_nat (length (absent statsMap (gd_key <$> gaugeDefs e)
                                ++ absent statsMap (counter_keys rt (counterDefs e)))))
           (foldl (gauge_step statsMap) (gaugeMetrics e) (gaugeDefs e))
           (counterMetrics e) (gaugeDefs e) (counterDefs e)).
Proof.
  intros Hok Hne. rewrite Collect_fetched.
  rewrite collectMetrics_nonempty by done. simpl default.
  unfold bind at 1. rewrite gauge_and_counter_loops_spec by done.
  destruct (histogram_block_returns rt (build_statsMap stats)
              (after_loops rt (build_statsMap stats)
                 (mkWorld (with_up 1%float
                             (with_totalScrapes (totalScrapes (exporter w) + 1) (exporter w)))
                    (sent w ++ [UpMetric; TotalScrapesMetric; JsonParseFailuresMetric])
                    (logged w))))
    as (w' & -> & He & _).
  exists w'. split; [done|]. by rewrite He.
Qed.

Lemma build_statsMap_nonempty stats k v :
  build_statsMap stats !! k = Some v → stats ≠ [].
Proof. by intros Hk ->. Qed.

(** C6.  For a gauge definition whose source key is in the snapshot, the
    value its gauge is set to is the raw value divided by 1,000,000 when the
    key ends in "latency", and the raw value itself otherwise.  This is the
    value after the [Set] call of the loop body, and it is still the value
    of that gauge at the end of the cycle when no later definition with a
    present key writes the same gauge id. *)
Theorem gauge_latency_conversion (rt : Runtime) (stats : list StatsEntry) (w : World)
    (def : gaugeDefinition) (raw : float) :
  exporter_ok (exporter w) →
  def ∈ gaugeDefs (exporter w) →
  build_statsMap stats !! gd_key def = Some raw →
  (∃ w1,
     gauge_body (build_statsMap stats) def w = Returned tt w1
     ∧ (HasSuffix (gd_key def) "latency" = true →
        gauge_value <$> gaugeMetrics (exporter w1) !! gd_id def
        = Some (raw / 1000000)%float)
     ∧ (HasSuffix (gd_key def) "latency" = false →
        gauge_value <$> gaugeMetrics (exporter w1) !! gd_id def = Some raw))
  ∧ (∀ pre post,
       gaugeDefs (exporter w) = pre ++ def :: post →
       (∀ d, d ∈ post → gd_id d = gd_id def →
             build_statsMap stats !! gd_key d = None) →
       ∃ w',
         Collect rt (inr stats) w = Returned tt w'
         ∧ (HasSuffix (gd_key def) "latency" = true →
            gauge_value <$> gaugeMetrics (exporter w') !! gd_id def
            = Some (raw / 1000000)%float)
         ∧ (HasSuffix (gd_key def) "latency" = false →
            gauge_value <$> gaugeMetrics (exporter w') !! gd_id def = Some raw)).
Proof.
  intros Hok Hdef Hraw.
  assert (Hg : is_Some (gaugeMetrics (exporter w) !! gd_id def)) by (by apply Hok).
  split.
  - unfold gauge_body, gaugeMetrics_Set. rewrite Hraw.
    destruct Hg as [g0 Hg0]. rewrite Hg0.
    eexists. split; [done|]. simpl. rewrite lookup_alter_eq, Hg0. simpl.
    split; by intros ->.
  - intros pre post Hdefs Hpost.
    destruct (Collect_nonempty rt stats w Hok) as (w' & Hc & He).
    { by apply build_statsMap_nonempty in Hraw. }
    exists w'. split; [done|]. rewrite He. simpl.
    rewrite Hdefs, (gauge_fold_last _ _ _ _ _ raw) by done.
    split; by intros ->.
Qed.

Lemma gauge_latency_conversion_witness :
  let w := mkWorld (NewExporter "" "authoritative" "") [] [] in
  let stats := [mkStatsEntry "latency" "StatisticItem" 2500000%float;
                mkStatsEntry "qsize-q" "StatisticItem" 7%float] in
  let def := mkGaugeDef 1 "latency_average_seconds"
               "Average number of microseconds a packet spends within PowerDNS"
               "latency" in
  HasSuffix (gd_key def) "latency" = true
  ∧ (∃ w1,
       gauge_body (build_statsMap stats) def w = Returned tt w1
       ∧ gauge_value <$> gaugeMetrics (exporter w1) !! gd_id def
         = Some (2500000 / 1000000)%float)
  ∧ (∃ w',
       Collect source_order_runtime (inr stats) w = Returned tt w'
       ∧ gauge_value <$> gaugeMetrics (exporter w') !! gd_id def
         = Some (2500000 / 1000000)%float).
Proof.
  intros w stats def.
  destruct (gauge_latency_conversion source_order_runtime stats w def 2500000%float)
    as [(w1 & Hw1 & Hlat & _) Hcycle].
  - apply NewExporter_ok.
  - simpl. elem_of_list_search.
  - reflexivity.
  - destruct (Hcycle [mkGaugeDef 6 "security_status"
                        "PDNS Server Security status based on security-status.secpoll.powerdns.com"
                        "security-status"]
                     (drop 2 authoritativeGaugeDefs)) as (w' & Hw' & Hlat' & _).
    + reflexivity.
    + intros d Hd Hid. simpl in Hd.
      repeat (apply elem_of_cons in Hd as [-> | Hd]; [by simpl in Hid|]).
      by apply elem_of_nil in Hd.
    + split; [reflexivity|]. split.
      * exists w1. split; [exact Hw1|]. by apply Hlat.
      * exists w'. split; [exact Hw'|]. by apply Hlat'.
Defined.

(** ** Counters *)

Lemma counter_series_length statsMap d entries :
  (length (counter_series statsMap d entries)
   + length (absent statsMap entries.*1))%nat = length entries.
Proof.
  induction entries as [|[key label] entries IH]; [done|].
  unfold counter_series. simpl. destruct (statsMap !! key) eqn:Hkey.
  - rewrite (absent_cons_present _ _ _ _ Hkey). simpl. f_equal. exact IH.
  - rewrite (absent_cons_absent _ _ _ Hkey). simpl.
    rewrite Nat.add_succ_r. f_equal. exact IH.
Qed.

Lemma counter_series_elem_of statsMap d entries m :
  m ∈ counter_series statsMap d entries ↔
  ∃ key label raw, (key, label) ∈ entries ∧ statsMap !! key = Some raw
                   ∧ m = ConstMetric d CounterValue raw [label].
Proof.
  unfold counter_series. rewrite list_elem_of_omap. split.
  - intros ([key label] & Hin & Hm). simpl in Hm.
    destruct (statsMap !! key) as [raw|] eqn:Hkey; [|done].
    injection Hm as <-. by exists key, label, raw.
  - intros (key & label & raw & Hin & Hkey & ->).
    exists (key, label). split; [done|]. simpl. by rewrite Hkey.
Qed.

Lemma absent_Permutation statsMap ks ks' :
  ks ≡ₚ ks' → absent statsMap ks ≡ₚ absent statsMap ks'.
Proof. intros Hp. unfold absent. by rewrite Hp. Qed.

(** C7.  Processing one counter definition sends exactly one constant
    counter metric per entry of its label map whose raw key is in the
    snapshot, carrying the raw value and the entry's label value; each
    absent key adds one to [jsonParseFailures], and all entries are
    processed.  In particular, for the label map
    [{"questions": "udp", "tcp-questions": "tcp"}] and a snapshot with
    [questions = 42] and no [tcp-questions], exactly one series is sent,
    labelled [udp] with value 42, and [jsonParseFailures] grows by one. *)
Theorem counter_definition_series (rt : Runtime) (statsMap : gmap string float)
    (def : counterDefinition) (d : Desc) (w : World) :
  Runtime_ok rt →
  counterMetrics (exporter w) !! cd_id def = Some d →
  length (variableLabels d) = 1%nat →
  ∃ w' new,
    counter_body rt statsMap def w = Returned tt w'
    ∧ sent w' = sent w ++ new
    ∧ new ≡ₚ counter_series statsMap d (cd_labelMap def)
    ∧ (∀ m, m ∈ new ↔
            ∃ key label raw, (key, label) ∈ cd_labelMap def
                             ∧ statsMap !! key = Some raw
                             ∧ m = ConstMetric d CounterValue raw [label])
    ∧ (length new + length (absent statsMap (cd_labelMap def).*1))%nat
      = length (cd_labelMap def)
    ∧ jsonParseFailures (exporter w') =
        jsonParseFailures (exporter w)
        + Z.of_nat (length (absent statsMap (cd_labelMap def).*1))
    ∧ gaugeMetrics (exporter w') = gaugeMetrics (exporter w)
    ∧ (cd_labelMap def = [("questions", "udp"); ("tcp-questions", "tcp")] →
       statsMap !! "questions" = Some 42%float →
       statsMap !! "tcp-questions" = None →
       new = [ConstMetric d CounterValue 42%float ["udp"]]
       ∧ jsonParseFailures (exporter w') = jsonParseFailures (exporter w) + 1).
Proof.
  intros Hrt Hd Hlen. unfold counter_body.
  rewrite (label_loop_spec _ _ d) by done.
  pose proof (Hrt _ _ (cd_labelMap def)) as Ho.
  set (o := range_order rt (cd_labelMap def)) in *.
  assert (Hnew : counter_series statsMap d o ≡ₚ counter_series statsMap d (cd_labelMap def)).
  { unfold counter_series. by rewrite Ho. }
  assert (Habs : length (absent statsMap o.*1)
                 = length (absent statsMap (cd_labelMap def).*1)).
  { apply Permutation_length, absent_Permutation. by rewrite Ho. }
  eexists _, (counter_series statsMap d o). split; [done|]. simpl.
  split; [done|]. split; [done|]. split; [|split; [|split; [|split]]].
  - intros m. rewrite Hnew. apply counter_series_elem_of.
  - rewrite (Permutation_length Hnew). apply counter_series_length.
  - by rewrite Habs.
  - done.
  - intros Hmap Hq Htq. rewrite Habs, Hmap. split.
    + rewrite Hmap in Hnew. unfold counter_series in Hnew at 2. simpl in Hnew.
      rewrite Hq, Htq in Hnew. by apply Permutation_singleton_r in Hnew.
    + simpl. rewrite (absent_cons_present _ _ _ _ Hq), (absent_cons_absent _ _ _ Htq).
      done.
Qed.

Lemma counter_definition_series_witness :
  let w := mkWorld (NewExporter "" "recursor" "") [] [] in
  let statsMap := build_statsMap [mkStatsEntry "questions" "StatisticItem" 42%float] in
  let def := mkCounterDef 1 "incoming_queries_total"
               "Total number of incoming queries by network." "net"
               [("questions", "udp"); ("tcp-questions", "tcp")] in
  let d := mkDesc "powerdns_recursor_incoming_queries_total"
             "Total number of incoming queries by network." ["net"] in
  def ∈ counterDefs (exporter w)
  ∧ ∃ w',
      counter_body source_order_runtime statsMap def w = Returned tt w'
      ∧ sent w' = sent w ++ [ConstMetric d CounterValue 42%float ["udp"]]
      ∧ jsonParseFailures (exporter w') = jsonParseFailures (exporter w) + 1.
Proof.
  intros w statsMap def d. split; [simpl; elem_of_list_search|].
  destruct (counter_definition_series source_order_runtime statsMap def d w)
    as (w' & new & Hrun & Hsent & _ & _ & _ & _ & _ & Hscenario).
  - apply source_order_runtime_ok.
  - reflexivity.
  - reflexivity.
  - destruct Hscenario as [Hnew Hcount]; [reflexivity..|].
    exists w'. split; [exact Hrun|]. split; [|exact Hcount].
    rewrite Hsent. f_equal. exact Hnew.
Defined.

(** ** The histogram *)

Lemma integer_count_raw rt statsMap k n :
  integer_count statsMap k n → n < 2 ^ 64 → raw_count rt statsMap k = n.
Proof.
  intros (v & Hv & Hint & Hn) Hlt. unfold raw_count. rewrite Hv. simpl.
  by apply uint64_of_float_integer.
Qed.

Lemma integer_count_present statsMap n1 n2 n3 n4 n5 :
  integer_count statsMap "answers0-1" n1 →
  integer_count statsMap "answers1-10" n2 →
  integer_count statsMap "answers10-100" n3 →
  integer_count statsMap "answers100-1000" n4 →
  integer_count statsMap "answers-slow" n5 →
  required_present statsMap.
Proof.
  intros (? & H1 & _) (? & H2 & _) (? & H3 & _) (? & H4 & _) (? & H5 & _) kv Hkv.
  unfold rTimeBucketMap in Hkv.
  repeat (apply elem_of_cons in Hkv as [-> | Hkv]; [simpl; by eexists|]).
  by apply elem_of_nil in Hkv.
Qed.

Lemma cumulative_counts_thresholds buckets c1 c2 c3 c4 :
  buckets.*1 ≡ₚ rtime_thresholds →
  fm_get buckets 0.001%float = Some c1 →
  fm_get buckets 0.01%float = Some c2 →
  fm_get buckets 0.1%float = Some c3 →
  fm_get buckets 1%float = Some c4 →
  cumulative_counts buckets = [c1; c2; c3; c4].
Proof.
  intros Hk H1 H2 H3 H4. unfold cumulative_counts.
  rewrite (Float64s_rtime_thresholds _ Hk). simpl.
  by rewrite H1, H2, H3, H4.
Qed.

(** C2, as the code has it.  When the snapshot holds a non-negative integer
    under each of the five raw keys and the five together stay below
    [2^64], the builder succeeds; its buckets are the four finite
    thresholds; read in ascending threshold order the cumulative counts are
    the running sums of the first four raw counts, hence non-decreasing;
    and the total observation count is the sum of all five raw counts, the
    unbounded [answers-slow] bucket included. *)
Theorem cumulative_histogram (rt : Runtime) (statsMap : gmap string float)
    (n1 n2 n3 n4 n5 : Z) :
  Runtime_ok rt →
  integer_count statsMap "answers0-1" n1 →
  integer_count statsMap "answers1-10" n2 →
  integer_count statsMap "answers10-100" n3 →
  integer_count statsMap "answers100-1000" n4 →
  integer_count statsMap "answers-slow" n5 →
  n1 + n2 + n3 + n4 + n5 < 2 ^ 64 →
  ∃ buckets,
    makeRecursorRTimeHistogram rt statsMap
    = inr (ConstHistogram rtime_desc (n1 + n2 + n3 + n4 + n5) 0%float buckets)
    ∧ buckets.*1 ≡ₚ [0.001; 0.01; 0.1; 1]%float
    ∧ cumulative_counts buckets = [n1; n1 + n2; n1 + n2 + n3; n1 + n2 + n3 + n4]
    ∧ Sorted Z.le (cumulative_counts buckets).
Proof.
  intros Hrt H1 H2 H3 H4 H5 Hsum.
  pose proof H1 as (_ & _ & _ & Hn1). pose proof H2 as (_ & _ & _ & Hn2).
  pose proof H3 as (_ & _ & _ & Hn3). pose proof H4 as (_ & _ & _ & Hn4).
  pose proof H5 as (_ & _ & _ & Hn5).
  destruct (makeRecursorRTimeHistogram_present rt statsMap Hrt)
    as (buckets & Heq & Hk & G1 & G2 & G3 & G4).
  { by eapply integer_count_present. }
  rewrite (integer_count_raw rt statsMap _ n1), (integer_count_raw rt statsMap _ n2),
    (integer_count_raw rt statsMap _ n3), (integer_count_raw rt statsMap _ n4),
    (integer_count_raw rt statsMap _ n5) in Heq by (done || lia).
  rewrite (integer_count_raw rt statsMap _ n1) in G1, G2, G3, G4 by (done || lia).
  rewrite (integer_count_raw rt statsMap _ n2) in G2, G3, G4 by (done || lia).
  rewrite (integer_count_raw rt statsMap _ n3) in G3, G4 by (done || lia).
  rewrite (integer_count_raw rt statsMap _ n4) in G4 by (done || lia).
  unfold wrap64 in *. rewrite Z.mod_small in Heq, G1, G2, G3, G4 by lia.
  assert (Hc : cumulative_counts buckets = [n1; n1 + n2; n1 + n2 + n3; n1 + n2 + n3 + n4])
    by (by apply cumulative_counts_thresholds).
  exists buckets. split; [done|]. split; [done|]. split; [done|].
  rewrite Hc. repeat constructor; lia.
Qed.

Lemma cumulative_histogram_witness :
  ∃ buckets,
    makeRecursorRTimeHistogram source_order_runtime (build_statsMap scenario_stats)
    = inr (ConstHistogram rtime_desc (10 + 5 + 0 + 0 + 2) 0%float buckets)
    ∧ buckets.*1 ≡ₚ [0.001; 0.01; 0.1; 1]%float
    ∧ cumulative_counts buckets = [10; 10 + 5; 10 + 5 + 0; 10 + 5 + 0 + 0]
    ∧ Sorted Z.le (cumulative_counts buckets).
Proof.
  apply (cumulative_histogram source_order_runtime (build_statsMap scenario_stats)
           10 5 0 0 2).
  - apply source_order_runtime_ok.
  - exists 10%float. split; [reflexivity|]. split; [vm_compute; reflexivity|lia].
  - exists 5%float. split; [reflexivity|]. split; [vm_compute; reflexivity|lia].
  - exists 0%float. split; [reflexivity|]. split; [vm_compute; reflexivity|lia].
  - exists 0%float. split; [reflexivity|]. split; [vm_compute; reflexivity|lia].
  - exists 2%float. split; [reflexivity|]. split; [vm_compute; reflexivity|lia].
  - lia.
Defined.

(** C2 as stated fails: counts that are non-negative integers can add up
    past 64 bits.  With [answers0-1 = answers1-10 = 2^63] and the other
    three at 0, the running sum wraps: the cumulative counts read
    [2^63; 0; 0; 0], which is not non-decreasing, and the total count is 0,
    not the sum [2^64] of the five raw counts. *)
Lemma cumulative_histogram_overflow_counterexample :
  let statsMap := build_statsMap overflow_stats in
  let buckets := [(0.001%float, 2 ^ 63); (0.01%float, 0); (0.1%float, 0); (1%float, 0)] in
  Runtime_ok source_order_runtime
  ∧ integer_count statsMap "answers0-1" (2 ^ 63)
  ∧ integer_count statsMap "answers1-10" (2 ^ 63)
  ∧ integer_count statsMap "answers10-100" 0
  ∧ integer_count statsMap "answers100-1000" 0
  ∧ integer_count statsMap "answers-slow" 0
  ∧ makeRecursorRTimeHistogram source_order_runtime statsMap
    = inr (ConstHistogram rtime_desc 0 0%float buckets)
  ∧ cumulative_counts buckets = [2 ^ 63; 0; 0; 0]
  ∧ ¬ Sorted Z.le (cumulative_counts buckets)
  ∧ 0 ≠ 2 ^ 63 + 2 ^ 63 + 0 + 0 + 0.
Proof.
  intros statsMap buckets.
  split; [apply source_order_runtime_ok|].
  split; [exists 9223372036854775808%float;
          split; [reflexivity|]; split; [vm_compute; reflexivity|lia]|].
  split; [exists 9223372036854775808%float;
          split; [reflexivity|]; split; [vm_compute; reflexivity|lia]|].
  split; [exists 0%float; split; [reflexivity|]; split; [vm_compute; reflexivity|lia]|].
  split; [exists 0%float; split; [reflexivity|]; split; [vm_compute; reflexivity|lia]|].
  split; [exists 0%float; split; [reflexivity|]; split; [vm_compute; reflexivity|lia]|].
  split; [vm_compute; reflexivity|].
  split; [vm_compute; reflexivity|].
  split; [|lia].
  replace (cumulative_counts buckets) with [2 ^ 63; 0; 0; 0] by (vm_compute; reflexivity).
  intros Hs. apply Sorted_inv in Hs as [_ Hd]. apply HdRel_inv in Hd. lia.
Qed.

(** C8.  For the snapshot [{answers0-1: 10, answers1-10: 5,
    answers10-100: 0, answers100-1000: 0, answers-slow: 2}] the builder
    yields the cumulative buckets 0.001 -> 10, 0.01 -> 15, 0.1 -> 15,
    1 -> 15 and the total observation count 17, whatever order the maps are
    iterated in. *)
Theorem rtime_histogram_scenario (rt : Runtime) :
  Runtime_ok rt →
  ∃ buckets,
    makeRecursorRTimeHistogram rt (build_statsMap scenario_stats)
    = inr (ConstHistogram rtime_desc 17 0%float buckets)
    ∧ buckets.*1 ≡ₚ [0.001; 0.01; 0.1; 1]%float
    ∧ fm_get buckets 0.001%float = Some 10
    ∧ fm_get buckets 0.01%float = Some 15
    ∧ fm_get buckets 0.1%float = Some 15
    ∧ fm_get buckets 1%float = Some 15
    ∧ cumulative_counts buckets = [10; 15; 15; 15].
Proof.
  intros Hrt.
  destruct (makeRecursorRTimeHistogram_present rt (build_statsMap scenario_stats) Hrt)
    as (buckets & Heq & Hk & G1 & G2 & G3 & G4).
  { intros kv Hkv. unfold rTimeBucketMap in Hkv.
    repeat (apply elem_of_cons in Hkv as [-> | Hkv]; [simpl; by eexists|]).
    by apply elem_of_nil in Hkv. }
  assert (E1 : raw_count rt (build_statsMap scenario_stats) "answers0-1" = 10)
    by (vm_compute; reflexivity).
  assert (E2 : raw_count rt (build_statsMap scenario_stats) "answers1-10" = 5)
    by (vm_compute; reflexivity).
  assert (E3 : raw_count rt (build_statsMap scenario_stats) "answers10-100" = 0)
    by (vm_compute; reflexivity).
  assert (E4 : raw_count rt (build_statsMap scenario_stats) "answers100-1000" = 0)
    by (vm_compute; reflexivity).
  assert (E5 : raw_count rt (build_statsMap scenario_stats) "answers-slow" = 2)
    by (vm_compute; reflexivity).
  rewrite E1, E2, E3, E4, E5 in Heq. rewrite E1 in G1, G2, G3, G4.
  rewrite E2 in G2, G3, G4. rewrite E3 in G3, G4. rewrite E4 in G4.
  exists buckets. split; [exact Heq|]. split; [exact Hk|].
  split; [exact G1|]. split; [exact G2|]. split; [exact G3|]. split; [exact G4|].
  by apply cumulative_counts_thresholds.
Qed.

Lemma rtime_histogram_scenario_witness :
  ∃ buckets,
    makeRecursorRTimeHistogram source_order_runtime (build_statsMap scenario_stats)
    = inr (ConstHistogram rtime_desc 17 0%float buckets)
    ∧ buckets.*1 ≡ₚ [0.001; 0.01; 0.1; 1]%float
    ∧ fm_get buckets 0.001%float = Some 10
    ∧ fm_get buckets 0.01%float = Some 15
    ∧ fm_get buckets 0.1%float = Some 15
    ∧ fm_get buckets 1%float = Some 15
    ∧ cumulative_counts buckets = [10; 15; 15; 15].
Proof.
  apply (rtime_histogram_scenario source_order_runtime).
  apply source_order_runtime_ok.
Defined.

(** ** Gauges across cycles *)

Lemma gauge_step_desc statsMap g def id :
  gauge_desc <$> gauge_step statsMap g def !! id = gauge_desc <$> g !! id.
Proof.
  unfold gauge_step. destruct (statsMap !! gd_key def); [|done].
  rewrite lookup_alter. case_decide; [subst|done].
  by destruct (g !! gd_id def).
Qed.

Lemma gauge_fold_desc statsMap defs g id :
  gauge_desc <$> foldl (gauge_step statsMap) g defs !! id = gauge_desc <$> g !! id.
Proof.
  revert g. induction defs as [|d defs IH]; intros g; [done|].
  simpl. by rewrite IH, gauge_step_desc.
Qed.

Lemma absent_elem_of statsMap ks k :
  k ∈ ks → statsMap !! k = None → (1 ≤ length (absent statsMap ks))%nat.
Proof.
  intros Hk Hnone.
  assert (Hin : k ∈ absent statsMap ks) by (by apply list_elem_of_filter).
  destruct (absent statsMap ks); [by apply elem_of_nil in Hin|simpl; lia].
Qed.

(** The tables of the constructor cover every definition after every
    cycle, so cycles can follow one another without a panic. *)
Lemma Collect_exporter_ok rt fetch w :
  exporter_ok (exporter w) →
  ∃ w', Collect rt fetch w = Returned tt w' ∧ exporter_ok (exporter w').
Proof.
  intros Hok. destruct fetch as [err|[|s stats]].
  - eexists. split; [unfold Collect, scrape, collectMetrics, bind; simpl; reflexivity|].
    exact Hok.
  - eexists. split; [unfold Collect, scrape, collectMetrics, bind; simpl; reflexivity|].
    exact Hok.
  - destruct (Collect_nonempty rt (s :: stats) w Hok) as (w' & Hc & He); [done|].
    exists w'. split; [done|]. rewrite He. destruct Hok as [Hg Hc']. split; simpl.
    + intros def Hdef. apply gauge_fold_is_Some. by apply Hg.
    + exact Hc'.
Qed.

(** C10, as the code has it.  The gauge table built by the constructor
    persists through every cycle with the same objects.  For a definition
    whose id no other definition shares: in a cycle whose snapshot is not
    empty and lacks the definition's key the gauge is not written and keeps
    its value, and [jsonParseFailures] grows, by one for each absent gauge
    or label-map key; in a cycle whose statistics list is empty the gauge
    keeps its value and [jsonParseFailures] does not move; in a cycle whose
    fetch fails the gauge keeps its value and [jsonParseFailures] grows by
    one. *)
Theorem gauge_kept_when_key_absent (rt : Runtime) (stats : list StatsEntry) (w : World)
    (def : gaugeDefinition) :
  exporter_ok (exporter w) →
  def ∈ gaugeDefs (exporter w) →
  (∀ d, d ∈ gaugeDefs (exporter w) → gd_id d = gd_id def → d = def) →
  build_statsMap stats !! gd_key def = None →
  is_Some (gaugeMetrics (exporter w) !! gd_id def)
  ∧ (stats ≠ [] →
     ∃ w', Collect rt (inr stats) w = Returned tt w'
       ∧ gaugeMetrics (exporter w') !! gd_id def = gaugeMetrics (exporter w) !! gd_id def
       ∧ (∀ id, gauge_desc <$> gaugeMetrics (exporter w') !! id
                = gauge_desc <$> gaugeMetrics (exporter w) !! id)
       ∧ jsonParseFailures (exporter w') =
           jsonParseFailures (exporter w)
           + Z.of_nat (length (absent (build_statsMap stats)
                                 (gd_key <$> gaugeDefs (exporter w))))
           + Z.of_nat (length (absent (build_statsMap stats)
                                 (counter_keys rt (counterDefs (exporter w)))))
       ∧ jsonParseFailures (exporter w) + 1 ≤ jsonParseFailures (exporter w'))
  ∧ (stats = [] →
     ∃ w', Collect rt (inr stats) w = Returned tt w'
       ∧ gaugeMetrics (exporter w') = gaugeMetrics (exporter w)
       ∧ jsonParseFailures (exporter w') = jsonParseFailures (exporter w))
  ∧ (∀ err,
     ∃ w', Collect rt (inl err) w = Returned tt w'
       ∧ gaugeMetrics (exporter w') = gaugeMetrics (exporter w)
       ∧ jsonParseFailures (exporter w') = jsonParseFailures (exporter w) + 1).
Proof.
  intros Hok Hdef Huniq Hnone. split; [by apply Hok|]. split; [|split].
  - intros Hne. destruct (Collect_nonempty rt stats w Hok Hne) as (w' & Hc & He).
    exists w'. split; [done|]. rewrite He. simpl.
    split; [|split; [|split]].
    + apply gauge_fold_untouched. intros d Hd Hid.
      by rewrite (Huniq d Hd Hid).
    + intros id. apply gauge_fold_desc.
    + by rewrite length_app, Nat2Z.inj_add, Z.add_assoc.
    + rewrite length_app, Nat2Z.inj_add.
      assert (1 ≤ length (absent (build_statsMap stats)
                            (gd_key <$> gaugeDefs (exporter w))))%nat.
      { apply (absent_elem_of _ _ (gd_key def)); [|done].
        by apply list_elem_of_fmap_2. }
      lia.
  - intros ->. eexists. split.
    + unfold Collect, scrape, collectMetrics, bind. simpl. reflexivity.
    + done.
  - intros err. eexists. split.
    + unfold Collect, scrape, collectMetrics, bind. simpl. reflexivity.
    + done.
Qed.

Lemma gauge_kept_when_key_absent_witness :
  let w := mkWorld (NewExporter "" "recursor" "") [] [] in
  let stats := [mkStatsEntry "qa_latency" "StatisticItem" 2500000%float] in
  let def := mkGaugeDef 3 "cache_size" "Number of entries in the cache."
               "cache_entries" in
  is_Some (gaugeMetrics (exporter w) !! gd_id def)
  ∧ ∃ w', Collect source_order_runtime (inr stats) w = Returned tt w'
      ∧ gaugeMetrics (exporter w') !! gd_id def = gaugeMetrics (exporter w) !! gd_id def
      ∧ jsonParseFailures (exporter w) + 1 ≤ jsonParseFailures (exporter w').
Proof.
  intros w stats def.
  destruct (gauge_kept_when_key_absent source_order_runtime stats w def)
    as (Hcreated & Hcycle & _ & _).
  - apply NewExporter_ok.
  - simpl. elem_of_list_search.
  - intros d Hd Hid. simpl in Hd.
    repeat (apply elem_of_cons in Hd as [-> | Hd]; [by simpl in Hid|]).
    by apply elem_of_nil in Hd.
  - reflexivity.
  - split; [exact Hcreated|].
    destruct Hcycle as (w' & Hrun & Hkept & _ & _ & Hcount); [discriminate|].
    exists w'. split; [exact Hrun|]. split; [exact Hkept|exact Hcount].
Defined.

(** C10 as stated fails in two ways.  First, a cycle whose statistics list
    is empty lacks every source key, and [jsonParseFailures] is not
    incremented.  Second, in the authoritative catalog [security_status]
    and [qsize] both have id 6, so they write the same gauge object: after
    a cycle that sets it to 1 from [security-status], a cycle whose
    snapshot lacks [security-status] but has [qsize-q = 7] leaves it at 7. *)
Lemma gauge_kept_when_key_absent_counterexample :
  (let w := mkWorld (NewExporter "" "recursor" "") [] [] in
   build_statsMap [] !! "cache_entries" = None
   ∧ ∃ w', Collect source_order_runtime (inr []) w = Returned tt w'
           ∧ jsonParseFailures (exporter w') = jsonParseFailures (exporter w))
  ∧ (let w := mkWorld (NewExporter "" "authoritative" "") [] [] in
     let security_status :=
       mkGaugeDef 6 "security_status"
         "PDNS Server Security status based on security-status.secpoll.powerdns.com"
         "security-status" in
     let cycle1 := [mkStatsEntry "security-status" "StatisticItem" 1%float] in
     let cycle2 := [mkStatsEntry "qsize-q" "StatisticItem" 7%float] in
     security_status ∈ gaugeDefs (exporter w)
     ∧ build_statsMap cycle2 !! gd_key security_status = None
     ∧ ∃ w1 w2,
         Collect source_order_runtime (inr cycle1) w = Returned tt w1
         ∧ Collect source_order_runtime (inr cycle2) w1 = Returned tt w2
         ∧ gauge_value <$> gaugeMetrics (exporter w1) !! gd_id security_status
           = Some 1%float
         ∧ gauge_value <$> gaugeMetrics (exporter w2) !! gd_id security_status
           = Some 7%float).
Proof.
  split.
  - intros w. split; [reflexivity|].
    eexists. split; [vm_compute; reflexivity|reflexivity].
  - intros w security_status cycle1 cycle2.
    split; [simpl; elem_of_list_search|]. split; [reflexivity|].
    eexists _, _. split; [vm_compute; reflexivity|].
    split; [vm_compute; reflexivity|]. split; reflexivity.
Qed.

(** ** The mutex *)

Section Mutex.
Import Concurrency.

Lemma critical_instr cy i :
  Forall body_instr (body cy) → i ∈ critical cy →
  i = Deliver ∨ i = Receive ∨ ∃ f, i = Write f.
Proof.
  intros Hbody Hi. unfold critical in Hi. apply elem_of_app in Hi as [Hi|Hi].
  - repeat (apply elem_of_cons in Hi as [-> | Hi]; [by auto|]).
    by apply elem_of_nil in Hi.
  - rewrite Forall_forall in Hbody. specialize (Hbody i Hi).
    destruct i as [| | |f| | | |]; try done; [by eauto|by auto].
Qed.

Lemma snoc_unique {A} (l1 l2 l : list A) x :
  l1 ++ x :: l2 = l ++ [x] → x ∉ l → l2 = [].
Proof.
  intros Heq Hx. destruct l2 as [|y l2 _] using rev_ind; [done|].
  change (x :: l2 ++ [y]) with ((x :: l2) ++ [y]) in Heq.
  rewrite app_assoc in Heq. apply app_inj_tail in Heq as [<- _].
  exfalso. apply Hx. apply elem_of_app. right. by left.
Qed.

Lemma snoc_not_last {A} (l1 l : list A) x y :
  l1 ++ [x] = l ++ [y] → x = y.
Proof. intros Heq. by apply app_inj_tail in Heq as [_ ?]. Qed.

(** A collecting goroutine about to run [i] with remaining code [k]: where
    it stood, and where it stands after the step, the mutex going from [m]
    to [m']. *)
Lemma collector_inv_go cy c m k :
  Forall body_instr (body cy) →
  collector_inv cy c m (GoScrape :: k) → collector_inv cy c m k.
Proof.
  intros Hbody [[Hcode Hm]|[[Hcode _]|[[[_ [pre Hpre]] _]|[Hcode _]]]]; try done.
  - right. left. unfold collect_code in Hcode. simpl in Hcode.
    by injection Hcode as ->.
  - assert (Hin : GoScrape ∈ critical cy ++ [Unlock]).
    { rewrite <- Hpre. apply elem_of_app. right. by left. }
    apply elem_of_app in Hin as [Hin|Hin].
    + by destruct (critical_instr cy _ Hbody Hin) as [?|[?|[? ?]]].
    + by apply list_elem_of_singleton in Hin.
Qed.

Lemma collector_inv_lock cy c m k :
  Forall body_instr (body cy) →
  collector_inv cy c m (Lock :: k) → m ≠ Some c ∧ collector_inv cy c (Some c) k.
Proof.
  intros Hbody [[Hcode Hm]|[[Hcode Hm]|[[[_ [pre Hpre]] _]|[Hcode _]]]]; try done.
  - injection Hcode as ->. split; [done|]. right. right. left.
    split; [|done]. split; [by destruct (critical cy)|]. by exists [].
  - assert (Hin : Lock ∈ critical cy ++ [Unlock]).
    { rewrite <- Hpre. apply elem_of_app. right. by left. }
    apply elem_of_app in Hin as [Hin|Hin].
    + by destruct (critical_instr cy _ Hbody Hin) as [?|[?|[? ?]]].
    + by apply list_elem_of_singleton in Hin.
Qed.

Lemma collector_inv_unlock cy c m k :
  Forall body_instr (body cy) →
  collector_inv cy c m (Unlock :: k) → m = Some c ∧ collector_inv cy c None k.
Proof.
  intros Hbody [[Hcode Hm]|[[Hcode Hm]|[[[_ [pre Hpre]] Hm]|[Hcode _]]]]; try done.
  split; [done|]. right. right. right. split; [|done].
  apply (snoc_unique _ _ _ _ Hpre). intros Hin.
  by destruct (critical_instr cy _ Hbody Hin) as [?|[?|[? ?]]].
Qed.

Lemma collector_inv_inside cy c m i k :
  i ≠ GoScrape → i ≠ Lock → i ≠ Unlock →
  collector_inv cy c m (i :: k) → m = Some c ∧ collector_inv cy c m k.
Proof.
  intros Hgo Hlock Hunlock
    [[Hcode Hm]|[[Hcode Hm]|[[[_ [pre Hpre]] Hm]|[Hcode _]]]]; try done.
  - unfold collect_code in Hcode. simpl in Hcode. by injection Hcode as -> _.
  - by injection Hcode as -> _.
  - split; [done|]. right. right. left. split; [|done]. split.
    + intros ->. by apply snoc_not_last in Hpre.
    + exists (pre ++ [i]). by rewrite <- app_assoc.
Qed.

(** Changing the mutex from [m] to [m'] keeps the invariant of the other
    collecting goroutines when neither [m] nor [m'] names them. *)
Lemma collector_inv_other cy c m m' code :
  m ≠ Some c → m' ≠ Some c → collector_inv cy c m code → collector_inv cy c m' code.
Proof.
  intros Hm Hm' [[Hcode _]|[[Hcode _]|[[_ Hmc]|[Hcode _]]]]; try done.
  - by left.
  - right. by left.
  - right. right. by right.
Qed.

Lemma state_inv_advance plan s c i k m' scr cl :
  state_inv plan s →
  collectors s !! c = Some (i :: k) →
  collector_inv (plan c) c m' k →
  (m' = mutex s ∨ ((mutex s = None ∨ mutex s = Some c) ∧ (m' = None ∨ m' = Some c))) →
  state_inv plan (mkState m' (<[c := k]> (collectors s)) scr cl).
Proof.
  intros [Hcol Hmut] Hc Hk Hm. split; simpl.
  - intros c' code Hc'. destruct (decide (c = c')) as [<-|Hne].
    + rewrite lookup_insert_eq in Hc'. by injection Hc' as <-.
    + rewrite lookup_insert_ne in Hc' by done.
      specialize (Hcol c' code Hc').
      destruct Hm as [->|[Hold Hnew]]; [done|].
      apply (collector_inv_other _ _ (mutex s)); [| |done].
      * destruct Hold as [-> | ->]; congruence.
      * destruct Hnew as [-> | ->]; congruence.
  - intros c' Hc'. destruct (decide (c = c')) as [<-|Hne].
    + rewrite lookup_insert_eq. by eexists.
    + rewrite lookup_insert_ne by done. apply Hmut.
      destruct Hm as [->|[_ [-> | ->]]]; [done|done|congruence].
Qed.

Lemma step_state_inv plan s e s' :
  plan_ok plan → state_inv plan s → step plan s e s' → state_inv plan s'.
Proof.
  intros Hplan Hinv Hstep. pose proof Hinv as [Hcol Hmut].
  destruct Hstep as [s c Hc|s c k Hc|s c k Hc Hm|s c k h Hc Hm|s c f k Hc
                    |s c k Hc|s c f k Hc|s c ks kc Hs Hc|s c k Hc|s c k Hc Hcl].
  - split; simpl.
    + intros c' code Hc'. destruct (decide (c = c')) as [<-|Hne].
      * rewrite lookup_insert_eq in Hc'. injection Hc' as <-. left. split; [done|].
        intros Hm. apply Hmut in Hm as [? Hm]. congruence.
      * rewrite lookup_insert_ne in Hc' by done. by apply Hcol.
    + intros c' Hc'. destruct (decide (c = c')) as [<-|Hne].
      * rewrite lookup_insert_eq. by eexists.
      * rewrite lookup_insert_ne by done. by apply Hmut.
  - eapply state_inv_advance; [done..| |by left].
    apply collector_inv_go; [apply Hplan|by apply Hcol].
  - destruct (collector_inv_lock (plan c) c (mutex s) k) as [_ Hk];
      [apply Hplan|by apply Hcol|].
    eapply state_inv_advance; [done..|]. right. split; [by left|by right].
  - destruct (collector_inv_unlock (plan c) c (mutex s) k) as [Hmc Hk];
      [apply Hplan|by apply Hcol|].
    eapply state_inv_advance; [done..|]. right. split; [by right|by left].
  - destruct (collector_inv_inside (plan c) c (mutex s) (Write f) k) as [_ Hk];
      [done..|by apply Hcol|].
    eapply state_inv_advance; [done..|by left].
  - destruct (collector_inv_inside (plan c) c (mutex s) Deliver k) as [_ Hk];
      [done..|by apply Hcol|].
    eapply state_inv_advance; [done..|by left].
  - done.
  - destruct (collector_inv_inside (plan c) c (mutex s) Receive kc) as [_ Hk];
      [done..|by apply Hcol|].
    eapply state_inv_advance; [done..|by left].
  - done.
  - destruct (collector_inv_inside (plan c) c (mutex s) Receive k) as [_ Hk];
      [done..|by apply Hcol|].
    eapply state_inv_advance; [done..|by left].
Qed.

Lemma init_state_inv plan : state_inv plan init.
Proof. split; simpl; [intros c code Hc; by rewrite lookup_empty in Hc|done]. Qed.

Lemma step_collector_event plan s e s' c i h :
  plan_ok plan → state_inv plan s → step plan s e s' →
  e = Did c Collector i h →
  (i = Lock → h = None) ∧ (i ≠ GoScrape → i ≠ Lock → h = Some c).
Proof.
  intros Hplan [Hcol _] Hstep He.
  destruct Hstep as [s c0 Hc|s c0 k Hc|s c0 k Hc Hm|s c0 k h0 Hc Hm|s c0 f k Hc
                    |s c0 k Hc|s c0 f k Hc|s c0 ks kc Hs Hc|s c0 k Hc|s c0 k Hc Hcl];
    try discriminate; injection He as <- <- <-; (split; [try done|intros Hgo Hlock; try done]).
  - by destruct (collector_inv_unlock (plan c0) c0 (mutex s) k) as [-> _];
      [apply Hplan|by apply Hcol|].
  - by destruct (collector_inv_inside (plan c0) c0 (mutex s) (Write f) k) as [-> _];
      [done..|by apply Hcol|].
  - by destruct (collector_inv_inside (plan c0) c0 (mutex s) Deliver k) as [-> _];
      [done..|by apply Hcol|].
  - by destruct (collector_inv_inside (plan c0) c0 (mutex s) Receive k) as [-> _];
      [done..|by apply Hcol|].
Qed.

Lemma run_state_inv plan s tr s' :
  plan_ok plan → state_inv plan s → run plan s tr s' →
  state_inv plan s'
  ∧ ∀ c i h, Did c Collector i h ∈ tr →
      (i = Lock → h = None) ∧ (i ≠ GoScrape → i ≠ Lock → h = Some c).
Proof.
  intros Hplan Hinv Hrun. induction Hrun as [s|s e s' tr s'' Hstep Hrun IH].
  - split; [done|]. intros c i h Hin. by apply elem_of_nil in Hin.
  - destruct (IH (step_state_inv _ _ _ _ Hplan Hinv Hstep)) as [Hinv' Htr].
    split; [done|]. intros c i h Hin.
    apply elem_of_cons in Hin as [Heq|Hin]; [|by apply Htr].
    by apply (step_collector_event plan s e s' c i h).
Qed.

Lemma in_critical_holds cy c m code :
  collector_inv cy c m code → in_critical cy code → m = Some c.
Proof.
  intros [[Hcode _]|[[Hcode _]|[[_ Hm]|[Hcode _]]]] [Hne [pre Hpre]]; try done.
  - apply (f_equal length) in Hpre. rewrite Hcode in Hpre. unfold collect_code in Hpre.
    rewrite !length_app in Hpre. simpl in Hpre. lia.
  - apply (f_equal length) in Hpre. rewrite Hcode in Hpre.
    rewrite !length_app in Hpre. simpl in Hpre. rewrite !length_app in Hpre.
    simpl in Hpre. lia.
Qed.

End Mutex.

(** C9, as the code has it.  In every execution of any number of concurrent
    [Collect] invocations: the collecting goroutine takes the mutex only
    when it is free; everything it does after [Lock], the writes of
    [collectMetrics] to gauges and to [jsonParseFailures], the sends, the
    receive and the unlock, it does while holding the mutex; and two
    collecting goroutines are never both between [Lock] and [Unlock].  The
    writes of [scrape] are not covered: that goroutine is started before
    [Lock] and never takes the mutex. *)
Theorem collector_writes_hold_mutex (plan : nat → Concurrency.cycle)
    (tr : list Concurrency.event) (s : Concurrency.state) :
  Concurrency.plan_ok plan →
  Concurrency.run plan Concurrency.init tr s →
  (∀ c f h,
     Concurrency.Did c Concurrency.Collector (Concurrency.Write f) h ∈ tr → h = Some c)
  ∧ (∀ c i h,
       Concurrency.Did c Concurrency.Collector i h ∈ tr →
       i ≠ Concurrency.GoScrape → i ≠ Concurrency.Lock → h = Some c)
  ∧ (∀ c h,
       Concurrency.Did c Concurrency.Collector Concurrency.Lock h ∈ tr → h = None)
  ∧ (∀ c1 c2 code1 code2,
       Concurrency.collectors s !! c1 = Some code1 →
       Concurrency.collectors s !! c2 = Some code2 →
       Concurrency.in_critical (plan c1) code1 →
       Concurrency.in_critical (plan c2) code2 →
       c1 = c2).
Proof.
  intros Hplan Hrun.
  destruct (run_state_inv plan _ _ _ Hplan (init_state_inv plan) Hrun) as [[Hcol _] Htr].
  split; [|split; [|split]].
  - intros c f h Hin. by apply (Htr c (Concurrency.Write f) h).
  - intros c i h Hin. by apply (Htr c i h).
  - intros c h Hin. by apply (Htr c Concurrency.Lock h).
  - intros c1 c2 code1 code2 H1 H2 Hc1 Hc2.
    pose proof (in_critical_holds _ _ _ _ (Hcol _ _ H1) Hc1) as Hm1.
    pose proof (in_critical_holds _ _ _ _ (Hcol _ _ H2) Hc2) as Hm2.
    congruence.
Qed.

Lemma two_cycles_ok : Concurrency.plan_ok Concurrency.two_cycles.
Proof. intros [|c]; simpl; by repeat constructor. Qed.

Ltac run_one :=
  eapply Concurrency.run_step;
  [ first [ eapply Concurrency.step_trigger; reflexivity
          | eapply Concurrency.step_go; reflexivity
          | eapply Concurrency.step_lock; reflexivity
          | eapply Concurrency.step_unlock; reflexivity
          | eapply Concurrency.step_collector_write; reflexivity
          | eapply Concurrency.step_collector_deliver; reflexivity
          | eapply Concurrency.step_scraper_write; reflexivity
          | eapply Concurrency.step_handoff; reflexivity
          | eapply Concurrency.step_close; reflexivity ]
  | simpl ].

Lemma interleaved_trace_runs :
  Concurrency.run Concurrency.two_cycles Concurrency.init interleaved_trace
    interleaved_final.
Proof.
  unfold interleaved_trace.
  do 16 run_one. apply Concurrency.run_done.
Qed.

Lemma unlocked_trace_runs :
  ∃ s, Concurrency.run Concurrency.two_cycles Concurrency.init unlocked_trace s.
Proof.
  eexists. unfold unlocked_trace.
  do 3 run_one. apply Concurrency.run_done.
Qed.

Lemma collector_writes_hold_mutex_witness :
  (∀ c f h,
     Concurrency.Did c Concurrency.Collector (Concurrency.Write f) h ∈ interleaved_trace →
     h = Some c)
  ∧ (∀ c i h,
       Concurrency.Did c Concurrency.Collector i h ∈ interleaved_trace →
       i ≠ Concurrency.GoScrape → i ≠ Concurrency.Lock → h = Some c)
  ∧ (∀ c h,
       Concurrency.Did c Concurrency.Collector Concurrency.Lock h ∈ interleaved_trace →
       h = None)
  ∧ (∀ c1 c2 code1 code2,
       Concurrency.collectors interleaved_final !! c1 = Some code1 →
       Concurrency.collectors interleaved_final !! c2 = Some code2 →
       Concurrency.in_critical (Concurrency.two_cycles c1) code1 →
       Concurrency.in_critical (Concurrency.two_cycles c2) code2 →
       c1 = c2).
Proof.
  apply (collector_writes_hold_mutex Concurrency.two_cycles interleaved_trace
           interleaved_final).
  - apply two_cycles_ok.
  - apply interleaved_trace_runs.
Defined.

(** C9 as stated fails.  [scrape] runs in a goroutine that [Collect] starts
    before taking the mutex and that never takes it.  In [unlocked_trace]
    it increments [totalScrapes] while nobody holds the mutex.  In
    [interleaved_trace] the second invocation's [scrape] writes
    [totalScrapes] and [up] while the first invocation holds the mutex,
    between two gauge writes of the first: the writes of the two
    invocations interleave, and the second has not waited for the mutex. *)
Lemma writes_hold_mutex_counterexample :
  Concurrency.plan_ok Concurrency.two_cycles
  ∧ (∃ s, Concurrency.run Concurrency.two_cycles Concurrency.init unlocked_trace s)
  ∧ Concurrency.Did 0 Concurrency.Scraper
      (Concurrency.Write Concurrency.FTotalScrapes) None ∈ unlocked_trace
  ∧ Concurrency.run Concurrency.two_cycles Concurrency.init interleaved_trace
      interleaved_final
  ∧ ∃ pre post,
      interleaved_trace =
        pre
        ++ [ Concurrency.Did 0 Concurrency.Collector
               (Concurrency.Write (Concurrency.FGauge 1)) (Some 0%nat);
             Concurrency.Triggered 1;
             Concurrency.Did 1 Concurrency.Collector Concurrency.GoScrape (Some 0%nat);
             Concurrency.Did 1 Concurrency.Scraper
               (Concurrency.Write Concurrency.FTotalScrapes) (Some 0%nat);
             Concurrency.Did 1 Concurrency.Scraper
               (Concurrency.Write Concurrency.FUp) (Some 0%nat);
             Concurrency.Did 0 Concurrency.Collector
               (Concurrency.Write (Concurrency.FGauge 2)) (Some 0%nat) ]
        ++ post.
Proof.
  split; [apply two_cycles_ok|]. split; [apply unlocked_trace_runs|].
  split; [unfold unlocked_trace; elem_of_list_search|].
  split; [apply interleaved_trace_runs|].
  exists (take 9 interleaved_trace), (drop 15 interleaved_trace). reflexivity.
Qed.

(** * Further properties of the code *)

(** ** A cycle in closed form *)

Lemma histogram_block_spec rt statsMap w :
  histogram_block rt statsMap w =
    Returned tt (mkWorld (exporter w)
                   (sent w ++ histogram_sent rt statsMap (exporter w))
                   (logged w ++ histogram_logged rt statsMap (exporter w))).
Proof.
  unfold histogram_block, histogram_sent, histogram_logged, bind, this.
  destruct w as [e s l]; simpl.
  destruct (String.eqb _ _); [destruct (makeRecursorRTimeHistogram rt statsMap)|];
    unfold log_Errorf, send, ret; simpl; by rewrite ?app_nil_r.
Qed.

(** On an exporter whose tables cover its definitions a cycle never
    panics, and it ends in [cycle_world]. *)
Lemma Collect_spec rt fetch w :
  exporter_ok (exporter w) →
  Collect rt fetch w = Returned tt (cycle_world rt fetch w).
Proof.
  intros Hok. destruct fetch as [err|[|s stats]].
  - unfold Collect, scrape, collectMetrics, bind, cycle_world. simpl.
    by rewrite <- !app_assoc.
  - unfold Collect, scrape, collectMetrics, bind, cycle_world. simpl.
    by rewrite <- !app_assoc, Z.add_0_r, app_nil_r.
  - rewrite Collect_fetched, collectMetrics_nonempty by done. simpl default.
    unfold bind at 1. rewrite gauge_and_counter_loops_spec by done.
    rewrite histogram_block_spec. unfold after_loops, cycle_world. simpl.
    unfold cycle_absent. by rewrite <- !app_assoc.
Qed.

Lemma counters_sent_elem_of rt statsMap e defs m :
  m ∈ counters_sent rt statsMap e defs →
  ∃ def d raw label,
    def ∈ defs ∧ counterMetrics e !! cd_id def = Some d
    ∧ m = ConstMetric d CounterValue raw [label].
Proof.
  unfold counters_sent. rewrite list_elem_of_bind. intros (def & Hm & Hdef).
  destruct (counterMetrics e !! cd_id def) as [d|] eqn:Hd; [|by apply elem_of_nil in Hm].
  apply counter_series_elem_of in Hm as (key & label & raw & _ & _ & ->).
  by exists def, d, raw, label.
Qed.

Lemma histogram_sent_cases rt statsMap e :
  (histogram_sent rt statsMap e = []
   ∧ (ServerType e = "recursor" → ∃ err, makeRecursorRTimeHistogram rt statsMap = inl err))
  ∨ (ServerType e = "recursor"
     ∧ ∃ count buckets,
         makeRecursorRTimeHistogram rt statsMap
         = inr (ConstHistogram rtime_desc count 0%float buckets)
         ∧ histogram_sent rt statsMap e = [ConstHistogram rtime_desc count 0%float buckets]).
Proof.
  unfold histogram_sent. destruct (String.eqb _ _) eqn:Hty.
  - apply String.eqb_eq in Hty.
    destruct (makeRecursorRTimeHistogram rt statsMap) as [err|h] eqn:Hh.
    + left. split; [done|]. intros _. by exists err.
    + right. split; [done|]. unfold makeRecursorRTimeHistogram in Hh.
      destruct (rtime_collect _ _ _ _ _) as [?|[b c]]; [done|].
      injection Hh as <-. by eexists _, _.
  - apply String.eqb_neq in Hty. left. split; [done|]. by intros ?.
Qed.

(** ** The snapshot *)

(** X1.  The snapshot [collectMetrics] builds from the statistics list
    holds, for every name, the value of the last entry with that name:
    later duplicates overwrite earlier ones, and a name is absent from the
    snapshot exactly when no entry carries it. *)
Theorem statsMap_last_entry_wins (stats : list StatsEntry) (k : string) :
  build_statsMap stats !! k = Value <$> last (entries_named k stats)
  ∧ (build_statsMap stats !! k = None ↔ ∀ s, s ∈ stats → Name s ≠ k).
Proof.
  induction stats as [|s stats [IH1 IH2]] using rev_ind.
  - split; [done|]. split; [|done]. intros _ s Hs. by apply elem_of_nil in Hs.
  - rewrite build_statsMap_snoc. unfold entries_named in *. rewrite filter_app.
    destruct (decide (Name s = k)) as [Hk|Hk].
    + rewrite filter_cons_True by done. rewrite filter_nil, last_snoc.
      subst k. rewrite lookup_insert_eq. split; [done|]. split; [done|].
      intros Hno. exfalso. apply (Hno s); [|done]. apply elem_of_app. right. by left.
    + rewrite filter_cons_False, filter_nil, app_nil_r by done.
      rewrite lookup_insert_ne by done. split; [done|]. rewrite IH2. split.
      * intros Hall s' Hs'. apply elem_of_app in Hs' as [Hs'|Hs']; [by apply Hall|].
        apply list_elem_of_singleton in Hs'. by subst.
      * intros Hall s' Hs'. apply Hall. apply elem_of_app. by left.
Qed.

Lemma statsMap_last_entry_wins_witness :
  let stats := [ mkStatsEntry "questions" "StatisticItem" 1%float;
                 mkStatsEntry "uptime" "StatisticItem" 7%float;
                 mkStatsEntry "questions" "StatisticItem" 42%float ] in
  build_statsMap stats !! "questions"
  = Value <$> last (entries_named "questions" stats)
  ∧ (build_statsMap stats !! "questions" = None ↔
     ∀ s, s ∈ stats → Name s ≠ "questions").
Proof.
  intros stats. exact (statsMap_last_entry_wins stats "questions").
Defined.

(** ** The constructor *)

Lemma foldl_insert_other {A B} (key : A → Z) (f : A → B) (l : list A) (m : gmap Z B) id :
  (∀ d, d ∈ l → key d ≠ id) →
  foldl (λ m x, <[key x := f x]> m) m l !! id = m !! id.
Proof.
  revert m. induction l as [|x l IH]; intros m Hl; [done|].
  simpl. rewrite IH by (intros d Hd; apply Hl; by right).
  apply lookup_insert_ne. apply Hl. by left.
Qed.

Lemma foldl_insert_last {A B} (key : A → Z) (f : A → B) (pre : list A) a post
    (m : gmap Z B) :
  (∀ d, d ∈ post → key d ≠ key a) →
  foldl (λ m x, <[key x := f x]> m) m (pre ++ a :: post) !! key a = Some (f a).
Proof.
  intros Hpost. rewrite foldl_app. simpl.
  rewrite foldl_insert_other by done. apply lookup_insert_eq.
Qed.

(** X2.  The tables [NewExporter] builds are keyed by definition id.  Under
    the id of a definition they hold the gauge object, or the counter
    descriptor, made from the last definition of the catalog with that id:
    the name is [powerdns_<serverType>_<name>], the help text is the
    definition's, a gauge starts at 0 and a counter descriptor has the
    definition's label as its only variable label.  An id that no definition
    carries has no entry. *)
Theorem NewExporter_tables (apiKey serverType hostURL : string) :
  let e := NewExporter apiKey serverType hostURL in
  (∀ pre def post,
     gaugeDefs e = pre ++ def :: post →
     (∀ d, d ∈ post → gd_id d ≠ gd_id def) →
     gaugeMetrics e !! gd_id def
     = Some (mkGauge (mkDesc (BuildFQName namespace serverType (gd_name def))
                             (gd_desc def) []) 0%float))
  ∧ (∀ pre def post,
       counterDefs e = pre ++ def :: post →
       (∀ d, d ∈ post → cd_id d ≠ cd_id def) →
       counterMetrics e !! cd_id def
       = Some (mkDesc (BuildFQName namespace serverType (cd_name def))
                      (cd_desc def) [cd_label def]))
  ∧ (∀ id, (∀ d, d ∈ gaugeDefs e → gd_id d ≠ id) → gaugeMetrics e !! id = None)
  ∧ (∀ id, (∀ d, d ∈ counterDefs e → cd_id d ≠ id) → counterMetrics e !! id = None).
Proof.
  unfold NewExporter.
  set (defs := if String.eqb serverType "recursor" then _ else _).
  cbn zeta. cbn [gaugeDefs counterDefs gaugeMetrics counterMetrics].
  split; [|split; [|split]].
  - intros pre def post -> Hpost.
    by apply (foldl_insert_last gd_id
                (λ def, newGaugeMetric serverType (gd_name def) (gd_desc def))).
  - intros pre def post -> Hpost.
    by apply (foldl_insert_last cd_id
                (λ def, mkDesc (BuildFQName namespace serverType (cd_name def))
                               (cd_desc def) [cd_label def])).
  - intros id Hid.
    by rewrite (foldl_insert_other gd_id
                  (λ def, newGaugeMetric serverType (gd_name def) (gd_desc def))).
  - intros id Hid.
    by rewrite (foldl_insert_other cd_id
                  (λ def, mkDesc (BuildFQName namespace serverType (cd_name def))
                                 (cd_desc def) [cd_label def])).
Qed.

Lemma NewExporter_tables_witness :
  let e := NewExporter "" "authoritative" "" in
  gaugeMetrics e !! 6
  = Some (mkGauge (mkDesc "powerdns_authoritative_qsize"
                          "Number of packets waiting for database attention." [])
                  0%float)
  ∧ counterMetrics e !! 2
    = Some (mkDesc "powerdns_authoritative_uptime" "Uptime in seconds of the daemon"
                   ["type"])
  ∧ gaugeMetrics e !! 7 = None
  ∧ counterMetrics e !! 14 = None.
Proof.
  intros e.
  destruct (NewExporter_tables "" "authoritative" "") as (Hg & Hc & Hgn & Hcn).
  split; [|split; [|split]].
  - apply (Hg (take 6 authoritativeGaugeDefs)
              (mkGaugeDef 6 "qsize" "Number of packets waiting for database attention."
                 "qsize-q") []); [reflexivity|].
    intros d Hd. by apply elem_of_nil in Hd.
  - apply (Hc (take 1 authoritativeCounterDefs)
              (mkCounterDef 2 "uptime" "Uptime in seconds of the daemon" "type"
                 [("uptime", "seconds")])
              (drop 2 authoritativeCounterDefs)); [reflexivity|].
    intros d Hd. simpl in Hd.
    repeat (apply elem_of_cons in Hd as [-> | Hd]; [done|]).
    by apply elem_of_nil in Hd.
  - apply Hgn. intros d Hd. simpl in Hd.
    repeat (apply elem_of_cons in Hd as [-> | Hd]; [done|]).
    by apply elem_of_nil in Hd.
  - apply Hcn. intros d Hd. simpl in Hd.
    repeat (apply elem_of_cons in Hd as [-> | Hd]; [done|]).
    by apply elem_of_nil in Hd.
Defined.

(** ** Server types without a catalog *)

(** X3.  The switch of [NewExporter] has no default: for a server type
    other than "recursor" and "authoritative" ("dnsdist" included, whose
    catalog is empty) both tables are empty.  Every cycle of such an
    exporter whose fetch succeeds, whatever the statistics list holds,
    sends the three housekeeping metrics and nothing else, logs nothing,
    counts no parse failure and sets [up] to 1. *)
Theorem unknown_server_type_cycle (apiKey serverType hostURL : string) :
  serverType ≠ "recursor" → serverType ≠ "authoritative" →
  let e := NewExporter apiKey serverType hostURL in
  gaugeMetrics e = ∅ ∧ counterMetrics e = ∅
  ∧ ∀ rt stats w,
      same_tables (exporter w) e →
      ∃ w',
        Collect rt (inr stats) w = Returned tt w'
        ∧ sent w' = sent w ++ [UpMetric; TotalScrapesMetric; JsonParseFailuresMetric]
        ∧ logged w' = logged w
        ∧ jsonParseFailures (exporter w') = jsonParseFailures (exporter w)
        ∧ gaugeMetrics (exporter w') = gaugeMetrics (exporter w)
        ∧ up (exporter w') = 1%float
        ∧ same_tables (exporter w') e.
Proof.
  intros Hrec Hauth e.
  apply String.eqb_neq in Hrec, Hauth.
  assert (Hg : gaugeDefs e = []).
  { unfold e, NewExporter. cbn zeta. cbn [gaugeDefs]. rewrite Hrec, Hauth.
    by destruct (String.eqb serverType "dnsdist"). }
  assert (Hc : counterDefs e = []).
  { unfold e, NewExporter. cbn zeta. cbn [counterDefs]. rewrite Hrec, Hauth.
    by destruct (String.eqb serverType "dnsdist"). }
  split; [|split].
  - unfold e, NewExporter in *. cbn zeta in *. cbn [gaugeDefs gaugeMetrics] in *.
    by rewrite Hg.
  - unfold e, NewExporter in *. cbn zeta in *. cbn [counterDefs counterMetrics] in *.
    by rewrite Hc.
  - intros rt stats w (Hty & Hcm & Hgd & Hcd).
    rewrite Hg in Hgd. rewrite Hc in Hcd.
    assert (Hty' : String.eqb (ServerType (exporter w)) "recursor" = false).
    { rewrite Hty. exact Hrec. }
    assert (Hok : exporter_ok (exporter w)).
    { split; intros def Hdef.
      - rewrite Hgd in Hdef. by apply elem_of_nil in Hdef.
      - rewrite Hcd in Hdef. by apply elem_of_nil in Hdef. }
    exists (cycle_world rt (inr stats) w). split; [by apply Collect_spec|].
    unfold cycle_world, cycle_output, cycle_log, cycle_failures, cycle_gauges,
      cycle_absent, histogram_sent, histogram_logged.
    destruct stats as [|s stats]; simpl.
    + rewrite Z.add_0_r. repeat split; rewrite ?app_nil_r, ?Hg, ?Hc; done.
    + rewrite Hgd, Hcd, Hty'. simpl. rewrite Z.add_0_r.
      repeat split; rewrite ?app_nil_r, ?Hg, ?Hc; done.
Qed.

Lemma unknown_server_type_cycle_witness :
  let e := NewExporter "" "dnsdist" "" in
  let stats := [mkStatsEntry "latency" "StatisticItem" 2500000%float;
                mkStatsEntry "answers0-1" "StatisticItem" 10%float] in
  gaugeMetrics e = ∅ ∧ counterMetrics e = ∅
  ∧ ∃ w',
      Collect source_order_runtime (inr stats) (mkWorld e [] []) = Returned tt w'
      ∧ sent w' = [UpMetric; TotalScrapesMetric; JsonParseFailuresMetric]
      ∧ logged w' = []
      ∧ jsonParseFailures (exporter w') = 0.
Proof.
  intros e stats.
  destruct (unknown_server_type_cycle "" "dnsdist" "") as (Hg & Hc & Hcycle);
    [discriminate..|].
  split; [exact Hg|]. split; [exact Hc|].
  destruct (Hcycle source_order_runtime stats (mkWorld e [] []))
    as (w' & Hrun & Hsent & Hlog & Hjpf & _); [done|].
  exists w'. split; [exact Hrun|]. split; [exact Hsent|]. split; [exact Hlog|exact Hjpf].
Defined.

(** ** What a cycle sends *)

(** X4.  On an exporter whose tables cover its definitions a cycle never
    panics, and what it sends has one shape: the three housekeeping
    metrics, then constant counter metrics, each with one label value and a
    descriptor of the counter table, then at most one histogram, which
    occurs only for the server type "recursor" and carries the response-time
    descriptor and the sum 0.  The gauge objects are only set in place: no
    gauge is ever sent on the collector channel. *)
Theorem Collect_sends_no_gauge (rt : Runtime) (fetch : string + list StatsEntry)
    (w : World) :
  exporter_ok (exporter w) →
  ∃ w' counters histogram,
    Collect rt fetch w = Returned tt w'
    ∧ sent w' = sent w ++ [UpMetric; TotalScrapesMetric; JsonParseFailuresMetric]
                       ++ counters ++ histogram
    ∧ Forall (λ m, ∃ id d raw label,
                counterMetrics (exporter w) !! id = Some d
                ∧ m = ConstMetric d CounterValue raw [label]) counters
    ∧ (histogram = []
       ∨ (ServerType (exporter w) = "recursor"
          ∧ ∃ count buckets, histogram = [ConstHistogram rtime_desc count 0%float buckets]))
    ∧ Forall (λ m, metric_class m ≠ GaugeSeries)
        ([UpMetric; TotalScrapesMetric; JsonParseFailuresMetric] ++ counters ++ histogram).
Proof.
  intros Hok.
  assert (Hshape : ∃ counters histogram,
    cycle_output rt (exporter w) fetch
    = [UpMetric; TotalScrapesMetric; JsonParseFailuresMetric] ++ counters ++ histogram
    ∧ Forall (λ m, ∃ id d raw label,
                counterMetrics (exporter w) !! id = Some d
                ∧ m = ConstMetric d CounterValue raw [label]) counters
    ∧ (histogram = []
       ∨ (ServerType (exporter w) = "recursor"
          ∧ ∃ count buckets,
              histogram = [ConstHistogram rtime_desc count 0%float buckets]))).
  { unfold cycle_output. destruct fetch as [err|[|s stats]].
    - exists [], []. split; [done|]. split; [by constructor|by left].
    - exists [], []. split; [done|]. split; [by constructor|by left].
    - eexists _, _. split; [reflexivity|]. split.
      + apply Forall_forall. intros m Hm.
        apply counters_sent_elem_of in Hm as (def & d & raw & label & _ & Hd & ->).
        by exists (cd_id def), d, raw, label.
      + destruct (histogram_sent_cases rt (build_statsMap (s :: stats)) (exporter w))
          as [[-> _]|(Hty & count & buckets & _ & ->)]; [by left|].
        right. split; [done|]. by exists count, buckets. }
  destruct Hshape as (counters & histogram & Hout & Hcounters & Hhist).
  exists (cycle_world rt fetch w), counters, histogram.
  split; [by apply Collect_spec|]. split; [simpl; by rewrite Hout|].
  split; [done|]. split; [done|].
  apply Forall_app. split; [by repeat constructor|]. apply Forall_app. split.
  - eapply Forall_impl; [exact Hcounters|].
    by intros m (id & d & raw & label & _ & ->).
  - destruct Hhist as [->|(_ & count & buckets & ->)]; by repeat constructor.
Qed.

Lemma Collect_sends_no_gauge_witness :
  let w := mkWorld (NewExporter "" "authoritative" "") [] [] in
  let stats := [mkStatsEntry "latency" "StatisticItem" 2500000%float;
                mkStatsEntry "uptime" "StatisticItem" 42%float] in
  ∃ w' counters histogram,
    Collect source_order_runtime (inr stats) w = Returned tt w'
    ∧ sent w' = [UpMetric; TotalScrapesMetric; JsonParseFailuresMetric]
                ++ counters ++ histogram
    ∧ Forall (λ m, metric_class m ≠ GaugeSeries) (sent w').
Proof.
  intros w stats.
  destruct (Collect_sends_no_gauge source_order_runtime (inr stats) w)
    as (w' & counters & histogram & Hrun & Hsent & _ & _ & Hclass).
  - apply NewExporter_ok.
  - exists w', counters, histogram. split; [exact Hrun|].
    split; [exact Hsent|]. rewrite Hsent. exact Hclass.
Defined.

(** ** Successive cycles *)

Lemma cycles_snoc l rt fetch w :
  cycles (l ++ [(rt, fetch)]) w =
    match cycles l w with
    | Returned _ w1 => Collect rt fetch w1
    | Panicked => Panicked
    end.
Proof.
  revert w. induction l as [|[rt0 fetch0] l IH]; intros w; simpl.
  - unfold bind, ret. by destruct (Collect rt fetch w) as [[] ?|].
  - unfold bind. destruct (Collect rt0 fetch0 w) as [[] w1|]; [apply IH|done].
Qed.

Lemma cycle_world_ok rt fetch w :
  exporter_ok (exporter w) → exporter_ok (exporter (cycle_world rt fetch w)).
Proof.
  intros [Hg Hc]. split; simpl; [|done]. intros def Hdef. unfold cycle_gauges.
  destruct fetch as [err|[|s stats]]; [by apply Hg..|].
  apply gauge_fold_is_Some. by apply Hg.
Qed.

(** X5.  Cycles can follow one another for ever on an exporter built by
    the constructor: no cycle panics, and the tables still cover the
    definitions afterwards.  After any sequence of cycles, whatever their
    fetch results, [totalScrapes] has grown by the number of cycles,
    [jsonParseFailures] has not decreased, the server type, the definitions
    and the counter descriptors are unchanged, every gauge id still holds a
    gauge with the descriptor it had, at least three metrics were sent per
    cycle, and [up] tells whether the fetch of the last cycle succeeded. *)
Theorem cycles_housekeeping (l : list (Runtime * (string + list StatsEntry)))
    (w : World) :
  exporter_ok (exporter w) →
  ∃ w',
    cycles l w = Returned tt w'
    ∧ exporter_ok (exporter w')
    ∧ same_tables (exporter w) (exporter w')
    ∧ totalScrapes (exporter w') = totalScrapes (exporter w) + Z.of_nat (length l)
    ∧ jsonParseFailures (exporter w) ≤ jsonParseFailures (exporter w')
    ∧ (length (sent w) + 3 * length l ≤ length (sent w'))%nat
    ∧ (∀ id, gauge_desc <$> gaugeMetrics (exporter w') !! id
             = gauge_desc <$> gaugeMetrics (exporter w) !! id)
    ∧ (∀ rt fetch, last l = Some (rt, fetch) → up (exporter w') = fetch_up fetch).
Proof.
  intros Hok. induction l as [|[rt fetch] l IH] using rev_ind.
  - exists w. split; [done|]. split; [done|]. split; [done|].
    split; [simpl; lia|]. split; [lia|]. split; [simpl; lia|]. split; [done|].
    by intros rt fetch.
  - destruct IH
      as (w1 & Hrun & Hok1 & (Hty & Hcm & Hgd & Hcd) & Hts & Hjpf & Hsent & Hdesc & _).
    exists (cycle_world rt fetch w1).
    split; [by rewrite cycles_snoc, Hrun, Collect_spec|].
    split; [by apply cycle_world_ok|]. split; [done|].
    split; [simpl; rewrite Hts, length_app; simpl; lia|].
    split; [simpl; lia|].
    split; [simpl; rewrite !length_app; simpl; lia|].
    split.
    + intros id. rewrite <- Hdesc. simpl. unfold cycle_gauges.
      destruct fetch as [err|[|s stats]]; [done..|]. apply gauge_fold_desc.
    + intros rt' fetch' Hlast. rewrite last_snoc in Hlast. by injection Hlast as _ <-.
Qed.

Lemma cycles_housekeeping_witness :
  let w := mkWorld (NewExporter "" "recursor" "") [] [] in
  let l := [ (source_order_runtime, inr scenario_stats);
             (source_order_runtime, inl "connection refused");
             (source_order_runtime, inr []) ] in
  ∃ w',
    cycles l w = Returned tt w'
    ∧ totalScrapes (exporter w') = 3
    ∧ 0 ≤ jsonParseFailures (exporter w')
    ∧ (9 ≤ length (sent w'))%nat
    ∧ up (exporter w') = 1%float.
Proof.
  intros w l.
  destruct (cycles_housekeeping l w)
    as (w' & Hrun & _ & _ & Hts & Hjpf & Hsent & _ & Hup).
  - apply NewExporter_ok.
  - exists w'. split; [exact Hrun|]. split; [exact Hts|]. split; [exact Hjpf|].
    split; [exact Hsent|]. by apply (Hup source_order_runtime (inr [])).
Defined.

(** X6.  What a cycle sends, what it logs and by how much it increments
    [jsonParseFailures] are decided by the fetch result, the map iteration
    orders, the server type and the tables alone.  Two exporters with the
    same tables, whatever the values of their gauges and counters and
    whatever was sent or logged before, send the same metrics, log the same
    lines and count the same number of failures: nothing is carried over
    from earlier cycles into the counter series or the histogram. *)
Theorem cycle_output_stateless (rt : Runtime) (fetch : string + list StatsEntry)
    (w1 w2 : World) :
  exporter_ok (exporter w1) → exporter_ok (exporter w2) →
  same_tables (exporter w1) (exporter w2) →
  ∃ w1' w2' new lines failures,
    Collect rt fetch w1 = Returned tt w1'
    ∧ Collect rt fetch w2 = Returned tt w2'
    ∧ sent w1' = sent w1 ++ new ∧ sent w2' = sent w2 ++ new
    ∧ logged w1' = logged w1 ++ lines ∧ logged w2' = logged w2 ++ lines
    ∧ jsonParseFailures (exporter w1') = jsonParseFailures (exporter w1) + failures
    ∧ jsonParseFailures (exporter w2') = jsonParseFailures (exporter w2) + failures.
Proof.
  intros Hok1 Hok2 (Hty & Hcm & Hgd & Hcd).
  exists (cycle_world rt fetch w1), (cycle_world rt fetch w2),
    (cycle_output rt (exporter w1) fetch), (cycle_log rt (exporter w1) fetch),
    (Z.of_nat (cycle_failures rt (exporter w1) fetch)).
  split; [by apply Collect_spec|]. split; [by apply Collect_spec|].
  assert (Hout : cycle_output rt (exporter w2) fetch = cycle_output rt (exporter w1) fetch).
  { unfold cycle_output, counters_sent, histogram_sent. by rewrite Hty, Hcm, Hcd. }
  assert (Hlog : cycle_log rt (exporter w2) fetch = cycle_log rt (exporter w1) fetch).
  { unfold cycle_log, cycle_absent, histogram_logged. by rewrite Hty, Hgd, Hcd. }
  assert (Hfail : cycle_failures rt (exporter w2) fetch
                  = cycle_failures rt (exporter w1) fetch).
  { unfold cycle_failures, cycle_absent. by rewrite Hgd, Hcd. }
  simpl. by rewrite Hout, Hlog, Hfail.
Qed.

Lemma cycle_output_stateless_witness :
  let e := NewExporter "" "authoritative" "" in
  let w1 := mkWorld e [] [] in
  let w2 := mkWorld (with_up 1%float (with_totalScrapes 7 (with_jsonParseFailures 3 e)))
              [UpMetric; TotalScrapesMetric; JsonParseFailuresMetric] ["earlier line"] in
  let fetch := inr [mkStatsEntry "uptime" "StatisticItem" 42%float] in
  ∃ w1' w2' new lines failures,
    Collect source_order_runtime fetch w1 = Returned tt w1'
    ∧ Collect source_order_runtime fetch w2 = Returned tt w2'
    ∧ sent w1' = new
    ∧ sent w2' = [UpMetric; TotalScrapesMetric; JsonParseFailuresMetric] ++ new
    ∧ logged w1' = lines ∧ logged w2' = "earlier line" :: lines
    ∧ jsonParseFailures (exporter w1') = 0 + failures
    ∧ jsonParseFailures (exporter w2') = 3 + failures.
Proof.
  intros e w1 w2 fetch.
  apply (cycle_output_stateless source_order_runtime fetch w1 w2).
  - apply NewExporter_ok.
  - exact (NewExporter_ok "" "authoritative" "").
  - done.
Defined.

(** ** Failures and log lines *)

Lemma histogram_logged_cases rt statsMap e :
  (histogram_logged rt statsMap e = []
   ∧ ¬ (ServerType e = "recursor"
        ∧ ∃ err, makeRecursorRTimeHistogram rt statsMap = inl err))
  ∨ (ServerType e = "recursor"
     ∧ ∃ err, makeRecursorRTimeHistogram rt statsMap = inl err
              ∧ histogram_logged rt statsMap e = [histogram_failed err]).
Proof.
  unfold histogram_logged. destruct (String.eqb _ _) eqn:Hty.
  - apply String.eqb_eq in Hty.
    destruct (makeRecursorRTimeHistogram rt statsMap) as [err|h] eqn:Hh.
    + right. split; [done|]. by exists err.
    + left. split; [done|]. by intros (_ & err & ?).
  - apply String.eqb_neq in Hty. left. split; [done|]. by intros (? & _).
Qed.

(** X7.  Every failure a cycle counts is logged: the lines a cycle logs
    are one per increment of [jsonParseFailures], plus one more exactly
    when the server type is "recursor", the statistics list is not empty
    and the histogram builder fails.  That failure is the only event
    logged without being counted. *)
Theorem failures_are_logged (rt : Runtime) (fetch : string + list StatsEntry)
    (w : World) :
  exporter_ok (exporter w) →
  ∃ w' lines counted,
    Collect rt fetch w = Returned tt w'
    ∧ logged w' = logged w ++ lines
    ∧ jsonParseFailures (exporter w') = jsonParseFailures (exporter w) + Z.of_nat counted
    ∧ (length lines = counted ∨ length lines = S counted)
    ∧ (length lines = S counted ↔
       ServerType (exporter w) = "recursor"
       ∧ ∃ s stats err,
           fetch = inr (s :: stats)
           ∧ makeRecursorRTimeHistogram rt (build_statsMap (s :: stats)) = inl err).
Proof.
  intros Hok.
  exists (cycle_world rt fetch w), (cycle_log rt (exporter w) fetch),
    (cycle_failures rt (exporter w) fetch).
  split; [by apply Collect_spec|]. split; [done|]. split; [done|].
  unfold cycle_log, cycle_failures. destruct fetch as [err|[|s stats]].
  - split; [by left|]. split; [done|]. by intros (_ & s & stats & err' & ? & _).
  - split; [by left|]. split; [done|]. by intros (_ & s & stats & err' & ? & _).
  - rewrite length_app, length_fmap.
    destruct (histogram_logged_cases rt (build_statsMap (s :: stats)) (exporter w))
      as [[-> Hno]|(Hty & err & Herr & ->)]; simpl.
    + split; [left; lia|]. split; [lia|].
      intros (Hty & s' & stats' & err & Heq & Herr). injection Heq as <- <-.
      exfalso. apply Hno. split; [done|]. by exists err.
    + split; [right; lia|]. split; [|lia].
      intros _. split; [done|]. by exists s, stats, err.
Qed.

Lemma failures_are_logged_witness :
  let w := mkWorld (NewExporter "" "recursor" "") [] [] in
  let fetch := inr [mkStatsEntry "qa_latency" "StatisticItem" 2500000%float] in
  ∃ w' lines counted,
    Collect source_order_runtime fetch w = Returned tt w'
    ∧ logged w' = lines
    ∧ jsonParseFailures (exporter w') = 0 + Z.of_nat counted
    ∧ (length lines = counted ∨ length lines = S counted).
Proof.
  intros w fetch.
  destruct (failures_are_logged source_order_runtime fetch w)
    as (w' & lines & counted & Hrun & Hlog & Hjpf & Hlen & _).
  - apply NewExporter_ok.
  - exists w', lines, counted. split; [exact Hrun|]. split; [exact Hlog|].
    split; [exact Hjpf|exact Hlen].
Defined.

(** ** When a histogram is sent *)

Lemma required_present_cases statsMap :
  required_present statsMap ∨ ∃ k, k ∈ rTimeBucketMap.*1 ∧ statsMap !! k = None.
Proof.
  destruct (statsMap !! "answers0-1") eqn:H1;
    [|right; exists "answers0-1"; split; [simpl; elem_of_list_search|done]].
  destruct (statsMap !! "answers1-10") eqn:H2;
    [|right; exists "answers1-10"; split; [simpl; elem_of_list_search|done]].
  destruct (statsMap !! "answers10-100") eqn:H3;
    [|right; exists "answers10-100"; split; [simpl; elem_of_list_search|done]].
  destruct (statsMap !! "answers100-1000") eqn:H4;
    [|right; exists "answers100-1000"; split; [simpl; elem_of_list_search|done]].
  destruct (statsMap !! "answers-slow") eqn:H5;
    [|right; exists "answers-slow"; split; [simpl; elem_of_list_search|done]].
  left. intros kv Hkv. unfold rTimeBucketMap in Hkv.
  repeat (apply elem_of_cons in Hkv as [-> | Hkv]; [simpl; by eexists|]).
  by apply elem_of_nil in Hkv.
Qed.

(** X8.  In a cycle with a fetched, non-empty statistics list a histogram
    is sent exactly when the server type is "recursor" and the snapshot
    holds all five raw keys of [rTimeBucketMap]; when one is sent it is the
    last metric of the cycle. *)
Theorem histogram_sent_iff (rt : Runtime) (stats : list StatsEntry) (w : World) :
  Runtime_ok rt → exporter_ok (exporter w) → stats ≠ [] →
  ∃ w' new,
    Collect rt (inr stats) w = Returned tt w'
    ∧ sent w' = sent w ++ new
    ∧ ((∃ m, m ∈ new ∧ is_histogram m = true) ↔
       ServerType (exporter w) = "recursor" ∧ required_present (build_statsMap stats))
    ∧ (∀ m, m ∈ new → is_histogram m = true → last new = Some m).
Proof.
  intros Hrt Hok Hne. destruct stats as [|s stats]; [done|].
  exists (cycle_world rt (inr (s :: stats)) w), (cycle_output rt (exporter w) (inr (s :: stats))).
  split; [by apply Collect_spec|]. split; [done|].
  unfold cycle_output. set (statsMap := build_statsMap (s :: stats)).
  assert (Hin : ∀ m,
    m ∈ [UpMetric; TotalScrapesMetric; JsonParseFailuresMetric]
        ++ counters_sent rt statsMap (exporter w) (counterDefs (exporter w))
        ++ histogram_sent rt statsMap (exporter w) →
    is_histogram m = true → m ∈ histogram_sent rt statsMap (exporter w)).
  { intros m Hm Hh. apply elem_of_app in Hm as [Hm|Hm].
    - repeat (apply elem_of_cons in Hm as [-> | Hm]; [done|]).
      by apply elem_of_nil in Hm.
    - apply elem_of_app in Hm as [Hm|Hm]; [|done].
      pose proof (counters_sent_no_histogram rt statsMap (exporter w)
                    (counterDefs (exporter w))) as Hno.
      rewrite Forall_forall in Hno. specialize (Hno m Hm). congruence. }
  split; [split|].
  - intros (m & Hm & Hh). specialize (Hin m Hm Hh).
    destruct (histogram_sent_cases rt statsMap (exporter w))
      as [[Hnil _]|(Hty & count & buckets & Hmk & _)].
    { rewrite Hnil in Hin. by apply elem_of_nil in Hin. }
    split; [done|].
    destruct (required_present_cases statsMap) as [Hp|Hmiss]; [done|].
    destruct (makeRecursorRTimeHistogram_missing rt statsMap Hrt Hmiss)
      as (k & _ & _ & Herr). congruence.
  - intros [Hty Hp].
    destruct (makeRecursorRTimeHistogram_present rt statsMap Hrt Hp)
      as (buckets & Hmk & _).
    eexists (ConstHistogram rtime_desc _ 0%float buckets). split; [|reflexivity].
    apply elem_of_app. right. apply elem_of_app. right.
    unfold histogram_sent. rewrite Hty, Hmk. simpl. apply list_elem_of_here.
  - intros m Hm Hh. specialize (Hin m Hm Hh).
    destruct (histogram_sent_cases rt statsMap (exporter w))
      as [[Hnil _]|(_ & count & buckets & _ & Hsent)].
    { rewrite Hnil in Hin. by apply elem_of_nil in Hin. }
    rewrite Hsent in Hin |- *. apply list_elem_of_singleton in Hin as ->.
    by rewrite !app_assoc, last_snoc.
Qed.

Lemma scenario_stats_present : required_present (build_statsMap scenario_stats).
Proof.
  intros kv Hkv. unfold rTimeBucketMap in Hkv.
  repeat (apply elem_of_cons in Hkv as [-> | Hkv]; [simpl; by eexists|]).
  by apply elem_of_nil in Hkv.
Qed.

Lemma histogram_sent_iff_witness :
  let w := mkWorld (NewExporter "" "recursor" "") [] [] in
  ∃ w' new m,
    Collect source_order_runtime (inr scenario_stats) w = Returned tt w'
    ∧ sent w' = new
    ∧ m ∈ new ∧ is_histogram m = true ∧ last new = Some m.
Proof.
  intros w.
  destruct (histogram_sent_iff source_order_runtime scenario_stats w)
    as (w' & new & Hrun & Hsent & [_ Hsome] & Hlast).
  - apply source_order_runtime_ok.
  - apply NewExporter_ok.
  - discriminate.
  - destruct (Hsome (conj eq_refl scenario_stats_present)) as (m & Hm & Hh).
    exists w', new, m. split; [exact Hrun|]. split; [exact Hsent|].
    split; [exact Hm|]. split; [exact Hh|]. exact (Hlast m Hm Hh).
Defined.

(** ** The histogram for arbitrary values *)

Lemma rtime_collect_agree rt statsMap statsMap' entries b c :
  (∀ kv, kv ∈ entries → statsMap !! kv.1 = statsMap' !! kv.1) →
  rtime_collect rt statsMap entries b c = rtime_collect rt statsMap' entries b c.
Proof.
  revert b c. induction entries as [|[k v] rest IH]; intros b c Hagree; [done|].
  pose proof (Hagree (k, v) (list_elem_of_here _ _)) as Hk. simpl in Hk.
  simpl. rewrite <- Hk.
  destruct (statsMap !! k); [|done].
  apply IH. intros kv Hkv. apply Hagree. by right.
Qed.

(** X9.  Whenever the snapshot holds the five raw keys, whatever their
    values (fractional, negative, beyond 64 bits) and whatever order the
    maps are iterated in, the builder succeeds.  With [u] the [uint64]
    conversion of each value, the total count is the sum of the five
    converted values modulo [2^64], the buckets are the four finite
    thresholds, and read in ascending order they hold the running sums of
    the first four converted values modulo [2^64]; the sum field is 0. *)
Theorem histogram_modulo_2_64 (rt : Runtime) (statsMap : gmap string float)
    (v1 v2 v3 v4 v5 : float) :
  Runtime_ok rt →
  statsMap !! "answers0-1" = Some v1 →
  statsMap !! "answers1-10" = Some v2 →
  statsMap !! "answers10-100" = Some v3 →
  statsMap !! "answers100-1000" = Some v4 →
  statsMap !! "answers-slow" = Some v5 →
  let u := uint64_of_float rt in
  ∃ buckets,
    makeRecursorRTimeHistogram rt statsMap
    = inr (ConstHistogram rtime_desc (wrap64 (u v1 + u v2 + u v3 + u v4 + u v5))
             0%float buckets)
    ∧ buckets.*1 ≡ₚ [0.001; 0.01; 0.1; 1]%float
    ∧ cumulative_counts buckets
      = [wrap64 (u v1); wrap64 (u v1 + u v2); wrap64 (u v1 + u v2 + u v3);
         wrap64 (u v1 + u v2 + u v3 + u v4)].
Proof.
  intros Hrt H1 H2 H3 H4 H5 u.
  destruct (makeRecursorRTimeHistogram_present rt statsMap Hrt)
    as (buckets & Heq & Hk & G1 & G2 & G3 & G4).
  { intros kv Hkv. unfold rTimeBucketMap in Hkv.
    repeat (apply elem_of_cons in Hkv as [-> | Hkv]; [simpl; by eexists|]).
    by apply elem_of_nil in Hkv. }
  unfold raw_count in Heq, G1, G2, G3, G4.
  rewrite H1, H2, H3, H4, H5 in Heq. rewrite H1 in G1, G2, G3, G4.
  rewrite H2 in G2, G3, G4. rewrite H3 in G3, G4. rewrite H4 in G4.
  simpl in Heq, G1, G2, G3, G4.
  exists buckets. split; [exact Heq|]. split; [exact Hk|].
  by apply cumulative_counts_thresholds.
Qed.

Lemma histogram_modulo_2_64_witness :
  let statsMap :=
    build_statsMap
      [ mkStatsEntry "answers0-1" "StatisticItem" 10.75%float;
        mkStatsEntry "answers1-10" "StatisticItem" 18446744073709549568%float;
        mkStatsEntry "answers10-100" "StatisticItem" 0.5%float;
        mkStatsEntry "answers100-1000" "StatisticItem" 4096%float;
        mkStatsEntry "answers-slow" "StatisticItem" 2%float ] in
  ∃ buckets,
    makeRecursorRTimeHistogram source_order_runtime statsMap
    = inr (ConstHistogram rtime_desc 2060 0%float buckets)
    ∧ buckets.*1 ≡ₚ [0.001; 0.01; 0.1; 1]%float
    ∧ cumulative_counts buckets = [10; 18446744073709549578; 18446744073709549578; 2058].
Proof.
  intros statsMap.
  exact (histogram_modulo_2_64 source_order_runtime statsMap
           10.75%float 18446744073709549568%float 0.5%float 4096%float 2%float
           source_order_runtime_ok eq_refl eq_refl eq_refl eq_refl eq_refl).
Defined.

(** X10.  The builder reads the snapshot only under the five keys of
    [rTimeBucketMap]: two snapshots that agree on those keys give the same
    result, be it a histogram or the missing-key error, so entries under
    any other name never influence the histogram. *)
Theorem histogram_reads_five_keys (rt : Runtime) (statsMap statsMap' : gmap string float) :
  Runtime_ok rt →
  (∀ k, k ∈ rTimeBucketMap.*1 → statsMap !! k = statsMap' !! k) →
  makeRecursorRTimeHistogram rt statsMap = makeRecursorRTimeHistogram rt statsMap'.
Proof.
  intros Hrt Hagree. unfold makeRecursorRTimeHistogram.
  rewrite (rtime_collect_agree rt statsMap statsMap'); [done|].
  intros kv Hkv. apply Hagree. apply list_elem_of_fmap_2.
  by rewrite <- (Hrt _ _ rTimeBucketMap).
Qed.

Lemma histogram_reads_five_keys_witness :
  makeRecursorRTimeHistogram source_order_runtime (build_statsMap scenario_stats)
  = makeRecursorRTimeHistogram source_order_runtime
      (build_statsMap (mkStatsEntry "questions" "StatisticItem" 99%float
                       :: scenario_stats
                       ++ [mkStatsEntry "cache-hits" "StatisticItem" 3%float])).
Proof.
  apply (histogram_reads_five_keys source_order_runtime).
  - apply source_order_runtime_ok.
  - intros k Hk. simpl in Hk.
    repeat (apply elem_of_cons in Hk as [-> | Hk]; [reflexivity|]).
    by apply elem_of_nil in Hk.
Defined.

(** ** [Describe] against [Collect] *)

Lemma Describe_counter rt e id d :
  Runtime_ok rt → counterMetrics e !! id = Some d → d ∈ Describe rt e.
Proof.
  intros Hrt Hd. unfold Describe. apply elem_of_app. left.
  apply (list_elem_of_fmap_2 snd _ (id, d)).
  rewrite (Hrt _ _ (map_to_list (counterMetrics e))).
  by apply elem_of_map_to_list.
Qed.

Lemma Describe_housekeeping rt e :
  up_Desc e ∈ Describe rt e
  ∧ totalScrapes_Desc e ∈ Describe rt e
  ∧ jsonParseFailures_Desc e ∈ Describe rt e.
Proof.
  unfold Describe.
  repeat split; apply elem_of_app; right; apply elem_of_app; right;
    elem_of_list_search.
Qed.

(** X11.  [Describe] announces the descriptor of every metric a cycle
    sends other than the histogram: the three housekeeping descriptors and,
    for every constant counter metric, the descriptor it carries, whatever
    order [Describe] and the cycle iterate the maps in. *)
Theorem Describe_covers_Collect (rt rt' : Runtime) (fetch : string + list StatsEntry)
    (w : World) :
  Runtime_ok rt' → exporter_ok (exporter w) →
  ∃ w' new,
    Collect rt fetch w = Returned tt w'
    ∧ sent w' = sent w ++ new
    ∧ ∀ m, m ∈ new → is_histogram m = false →
        ∃ d, metric_desc (exporter w) m = Some d ∧ d ∈ Describe rt' (exporter w).
Proof.
  intros Hrt Hok.
  exists (cycle_world rt fetch w), (cycle_output rt (exporter w) fetch).
  split; [by apply Collect_spec|]. split; [done|].
  destruct (Describe_housekeeping rt' (exporter w)) as (Hup & Hts & Hjpf).
  intros m Hm Hh. unfold cycle_output in Hm. apply elem_of_app in Hm as [Hm|Hm].
  - repeat (apply elem_of_cons in Hm as [-> | Hm]; [by eexists|]).
    by apply elem_of_nil in Hm.
  - destruct fetch as [err|[|s stats]]; [by apply elem_of_nil in Hm..|].
    apply elem_of_app in Hm as [Hm|Hm].
    + apply counters_sent_elem_of in Hm as (def & d & raw & label & _ & Hd & ->).
      exists d. split; [done|]. by apply (Describe_counter rt' _ (cd_id def)).
    + destruct (histogram_sent_cases rt (build_statsMap (s :: stats)) (exporter w))
        as [[Hnil _]|(_ & count & buckets & _ & Hsent)].
      * rewrite Hnil in Hm. by apply elem_of_nil in Hm.
      * rewrite Hsent in Hm. by apply list_elem_of_singleton in Hm as ->.
Qed.

Lemma Describe_covers_Collect_witness :
  let w := mkWorld (NewExporter "" "authoritative" "") [] [] in
  let stats := [mkStatsEntry "uptime" "StatisticItem" 42%float] in
  ∃ w' new,
    Collect source_order_runtime (inr stats) w = Returned tt w'
    ∧ sent w' = new
    ∧ ∀ m, m ∈ new → is_histogram m = false →
        ∃ d, metric_desc (exporter w) m = Some d
             ∧ d ∈ Describe source_order_runtime (exporter w).
Proof.
  intros w stats.
  apply (Describe_covers_Collect source_order_runtime source_order_runtime (inr stats) w).
  - apply source_order_runtime_ok.
  - apply NewExporter_ok.
Defined.

(** X12.  No descriptor that [Describe] sends for a recursor exporter, in
    whatever order it visits the tables, has the name of the response-time
    histogram; yet a recursor cycle whose snapshot holds the five raw keys
    sends, as its last metric, a histogram carrying that descriptor. *)
Theorem Describe_omits_histogram (rt : Runtime) (apiKey hostURL : string) :
  Runtime_ok rt →
  let e := NewExporter apiKey "recursor" hostURL in
  (fqName rtime_desc ∉ fqName <$> Describe rt e)
  ∧ ∀ rt' stats,
      Runtime_ok rt' → required_present (build_statsMap stats) →
      ∃ w' count buckets,
        Collect rt' (inr stats) (mkWorld e [] []) = Returned tt w'
        ∧ last (sent w') = Some (ConstHistogram rtime_desc count 0%float buckets)
        ∧ metric_desc e (ConstHistogram rtime_desc count 0%float buckets)
          = Some rtime_desc.
Proof.
  intros Hrt e. split.
  - intros Hin. apply list_elem_of_fmap in Hin as (d & Hfq & Hin).
    unfold Describe in Hin.
    apply elem_of_app in Hin as [Hin|Hin]; [|apply elem_of_app in Hin as [Hin|Hin]].
    + apply list_elem_of_fmap in Hin as ([id d'] & Hd & Hin). simpl in Hd. subst d'.
      rewrite (Hrt _ _ (map_to_list (counterMetrics e))) in Hin.
      vm_compute in Hin.
      repeat (apply elem_of_cons in Hin as [Heq | Hin];
              [injection Heq as _ ->; vm_compute in Hfq; discriminate Hfq|]).
      by apply elem_of_nil in Hin.
    + apply list_elem_of_fmap in Hin as (g & Hg & Hin).
      apply list_elem_of_fmap in Hin as ([id g'] & Hg' & Hin). simpl in Hg'. subst g' d.
      rewrite (Hrt _ _ (map_to_list (gaugeMetrics e))) in Hin.
      vm_compute in Hin.
      repeat (apply elem_of_cons in Hin as [Heq | Hin];
              [injection Heq as _ ->; vm_compute in Hfq; discriminate Hfq|]).
      by apply elem_of_nil in Hin.
    + vm_compute in Hin.
      repeat (apply elem_of_cons in Hin as [-> | Hin];
              [vm_compute in Hfq; discriminate Hfq|]).
      by apply elem_of_nil in Hin.
  - intros rt' stats Hrt' Hp.
    destruct stats as [|s stats].
    { destruct (Hp ("answers0-1", 0.001%float)) as [v Hv]; [elem_of_list_search|].
      done. }
    destruct (makeRecursorRTimeHistogram_present rt' _ Hrt' Hp) as (buckets & Hmk & _).
    eexists (cycle_world rt' (inr (s :: stats)) (mkWorld e [] [])), _, buckets.
    split; [apply Collect_spec, NewExporter_ok|]. split; [|done].
    simpl. unfold histogram_sent. simpl. rewrite Hmk.
    by rewrite !app_comm_cons, app_assoc, last_snoc.
Qed.

Lemma Describe_omits_histogram_witness :
  let e := NewExporter "" "recursor" "" in
  (fqName rtime_desc ∉ fqName <$> Describe source_order_runtime e)
  ∧ ∃ w' count buckets,
      Collect source_order_runtime (inr scenario_stats) (mkWorld e [] []) = Returned tt w'
      ∧ last (sent w') = Some (ConstHistogram rtime_desc count 0%float buckets).
Proof.
  intros e.
  destruct (Describe_omits_histogram source_order_runtime "" "" source_order_runtime_ok)
    as [Hnot Hsent].
  split; [exact Hnot|].
  destruct (Hsent source_order_runtime scenario_stats source_order_runtime_ok
              scenario_stats_present)
    as (w' & count & buckets & Hrun & Hlast & _).
  exists w', count, buckets. split; [exact Hrun|exact Hlast].
Defined.

(** ** The goroutines make progress *)

Section Progress.
Import Concurrency.

Lemma scrape_code_head ok pre i k :
  pre ++ i :: k = scrape_code ok → (∃ f, i = Write f) ∨ i = Send ∨ i = Close.
Proof.
  intros Heq. unfold scrape_code in Heq.
  destruct ok; destruct pre as [|? [|? [|? [|? [|? ?]]]]]; simplify_eq/=; eauto.
Qed.

Lemma scrape_code_after_write ok pre f k :
  pre ++ Write f :: k = scrape_code ok → k ≠ [].
Proof.
  intros Heq. unfold scrape_code in Heq.
  destruct ok; destruct pre as [|? [|? [|? [|? [|? ?]]]]]; by simplify_eq/=.
Qed.

Lemma scrape_code_after_send ok pre k :
  pre ++ Send :: k = scrape_code ok → k = [Close].
Proof.
  intros Heq. unfold scrape_code in Heq.
  destruct ok; destruct pre as [|? [|? [|? [|? [|? ?]]]]]; by simplify_eq/=.
Qed.

Lemma scrape_code_after_close ok pre k :
  pre ++ Close :: k = scrape_code ok → k = [].
Proof.
  intros Heq. unfold scrape_code in Heq.
  destruct ok; destruct pre as [|? [|? [|? [|? [|? ?]]]]]; by simplify_eq/=.
Qed.

Lemma critical_no_go cy pre code :
  Forall body_instr (body cy) → pre ++ code = critical cy ++ [Unlock] →
  GoScrape ∉ code.
Proof.
  intros Hbody Hpre Hin.
  assert (Hin' : GoScrape ∈ critical cy ++ [Unlock]).
  { rewrite <- Hpre. apply elem_of_app. by right. }
  apply elem_of_app in Hin' as [Hin'|Hin'].
  - by destruct (critical_instr cy _ Hbody Hin') as [?|[?|[? ?]]].
  - by apply list_elem_of_singleton in Hin'.
Qed.

Lemma scraper_inv_iff cy sc (cl cl' : Prop) code :
  (cl ↔ cl') → scraper_inv cy sc cl code → scraper_inv cy sc cl' code.
Proof.
  intros Hcl [(Hgo & Hsc & Hncl)|(Hgo & rest & Hsc & Hpre & Hdone & Hsend)].
  - left. split; [done|]. split; [done|]. by rewrite <- Hcl.
  - right. split; [done|]. exists rest. split; [done|]. split; [done|].
    split; [by rewrite <- Hcl|done].
Qed.

(** The collecting goroutine runs an operation other than [GoScrape] and
    the receive. *)
Lemma scraper_inv_advance cy sc cl i k :
  i ≠ GoScrape → i ≠ Receive →
  scraper_inv cy sc cl (i :: k) → scraper_inv cy sc cl k.
Proof.
  intros Hgo Hrecv [(Hin & Hsc & Hncl)|(Hnin & rest & Hsc & Hpre & Hdone & Hsend)].
  - left. split; [|done]. apply elem_of_cons in Hin as [Hin|Hin]; [congruence|done].
  - right. split; [intros Hin; apply Hnin; by right|].
    exists rest. split; [done|]. split; [done|]. split; [done|].
    intros Hs. apply Hsend in Hs. apply elem_of_cons in Hs as [Hs|Hs]; [congruence|done].
Qed.

(** The scraping goroutine runs a write. *)
Lemma scraper_inv_write cy cl f k code :
  scraper_inv cy (Some (Write f :: k)) cl code → scraper_inv cy (Some k) cl code.
Proof.
  intros [(_ & Hsc & _)|(Hnin & rest & Hsc & [pre Hpre] & Hdone & Hsend)]; [done|].
  injection Hsc as <-. right. split; [done|]. exists k. split; [done|].
  split; [exists (pre ++ [Write f]); by rewrite <- app_assoc|].
  split.
  - split; [intros ->; by apply scrape_code_after_write in Hpre|].
    intros Hcl. by apply Hdone in Hcl.
  - intros Hs. apply Hsend. by right.
Qed.

(** The hand-over of the statistics list. *)
Lemma scraper_inv_handoff cy cl ks kc :
  scraper_inv cy (Some (Send :: ks)) cl (Receive :: kc) →
  scraper_inv cy (Some ks) cl kc.
Proof.
  intros [(_ & Hsc & _)|(Hnin & rest & Hsc & [pre Hpre] & Hdone & Hsend)]; [done|].
  injection Hsc as <-. right. split; [intros Hin; apply Hnin; by right|].
  exists ks. split; [done|].
  split; [exists (pre ++ [Send]); by rewrite <- app_assoc|].
  apply scrape_code_after_send in Hpre as ->. split.
  - split; [done|]. intros Hcl. by apply Hdone in Hcl.
  - intros Hs. apply elem_of_cons in Hs as [Hs|Hs]; [done|by apply elem_of_nil in Hs].
Qed.

(** The deferred [close]. *)
Lemma scraper_inv_close cy cl k code :
  scraper_inv cy (Some (Close :: k)) cl code → k = [] ∧ scraper_inv cy (Some k) True code.
Proof.
  intros [(_ & Hsc & _)|(Hnin & rest & Hsc & [pre Hpre] & Hdone & Hsend)]; [done|].
  injection Hsc as <-. pose proof (scrape_code_after_close _ _ _ Hpre) as ->.
  split; [done|]. right. split; [done|]. exists []. split; [done|].
  split; [exists (pre ++ [Close]); by rewrite <- app_assoc|].
  split; [done|]. intros Hs. by apply elem_of_nil in Hs.
Qed.

(** The receive from a closed channel. *)
Lemma scraper_inv_receive_closed cy sc (cl : Prop) k :
  cl → scraper_inv cy sc cl (Receive :: k) → scraper_inv cy sc cl k.
Proof.
  intros Hcl [(_ & _ & Hncl)|(Hnin & rest & Hsc & Hpre & Hdone & Hsend)]; [done|].
  right. split; [intros Hin; apply Hnin; by right|].
  exists rest. split; [done|]. split; [done|]. split; [done|].
  apply Hdone in Hcl as ->. intros Hs. by apply elem_of_nil in Hs.
Qed.

(** [GoScrape]: the scraping goroutine starts at the top of [scrape]. *)
Lemma scraper_inv_go cy c m sc (cl : Prop) k :
  Forall body_instr (body cy) →
  collector_inv cy c m (GoScrape :: k) →
  scraper_inv cy sc cl (GoScrape :: k) →
  scraper_inv cy (Some (scrape_code (fetched cy))) cl k.
Proof.
  intros Hbody Hcol [(_ & _ & Hncl)|(Hnin & _)]; [|exfalso; apply Hnin; by left].
  assert (Hk : k = Lock :: critical cy ++ [Unlock]).
  { destruct Hcol as [[Hcode _]|[[Hcode _]|[[[_ [pre Hpre]] _]|[Hcode _]]]]; try done.
    - unfold collect_code in Hcode. simpl in Hcode. by injection Hcode as ->.
    - exfalso. apply (critical_no_go cy pre (GoScrape :: k)); [done..|by left]. }
  right. split.
  - rewrite Hk. intros Hin. apply elem_of_cons in Hin as [Hin|Hin]; [done|].
    by apply (critical_no_go cy [] (critical cy ++ [Unlock])).
  - exists (scrape_code (fetched cy)). split; [done|]. split; [by exists []|].
    split; [split; [by destruct (fetched cy)|done]|].
    intros _. rewrite Hk. unfold critical. simpl. elem_of_list_search.
Qed.

Lemma step_protocol_inv plan s e s' :
  plan_ok plan → protocol_inv plan s → step plan s e s' → protocol_inv plan s'.
Proof.
  intros Hplan (Hinv & Hscr & Hnone) Hstep.
  split; [by apply (step_state_inv plan s e s')|].
  pose proof Hinv as [Hcol _].
  assert (Hadv : ∀ c i k (scr' : gmap nat (list instr)) (cl' : gset nat),
    collectors s !! c = Some (i :: k) →
    scraper_inv (plan c) (scr' !! c) (c ∈ cl') k →
    (∀ c', c' ≠ c → scr' !! c' = scrapers s !! c' ∧ (c' ∈ cl' ↔ c' ∈ closed s)) →
    (∀ c0 code, <[c := k]> (collectors s) !! c0 = Some code →
       scraper_inv (plan c0) (scr' !! c0) (c0 ∈ cl') code)
    ∧ (∀ c0, <[c := k]> (collectors s) !! c0 = None → scr' !! c0 = None ∧ c0 ∉ cl')).
  { intros c i k scr' cl' Hc Hk Hother. split.
    - intros c' code Hc'. destruct (decide (c = c')) as [<-|Hne].
      + rewrite lookup_insert_eq in Hc'. by injection Hc' as <-.
      + rewrite lookup_insert_ne in Hc' by done.
        destruct (Hother c') as [-> Hcl]; [done|].
        apply (scraper_inv_iff _ _ (c' ∈ closed s)); [done|]. by apply Hscr.
    - intros c' Hc'. destruct (decide (c = c')) as [<-|Hne].
      + by rewrite lookup_insert_eq in Hc'.
      + rewrite lookup_insert_ne in Hc' by done.
        destruct (Hother c') as [-> Hcl]; [done|].
        rewrite Hcl. by apply Hnone. }
  assert (Hscraper : ∀ c i k k' (cl' : gset nat),
    scrapers s !! c = Some (i :: k) →
    (∀ code, collectors s !! c = Some code →
       scraper_inv (plan c) (Some k') (c ∈ cl') code) →
    (∀ c', c' ≠ c → (c' ∈ cl' ↔ c' ∈ closed s)) →
    (∀ c0 code, collectors s !! c0 = Some code →
       scraper_inv (plan c0) (<[c := k']> (scrapers s) !! c0) (c0 ∈ cl') code)
    ∧ (∀ c0, collectors s !! c0 = None →
         <[c := k']> (scrapers s) !! c0 = None ∧ c0 ∉ cl')).
  { intros c i k k' cl' Hs Hk Hother. split.
    - intros c' code Hc'. destruct (decide (c = c')) as [<-|Hne].
      + rewrite lookup_insert_eq. by apply Hk.
      + rewrite lookup_insert_ne by done.
        apply (scraper_inv_iff _ _ (c' ∈ closed s)); [by rewrite Hother|].
        by apply Hscr.
    - intros c' Hc'. destruct (decide (c = c')) as [<-|Hne].
      + destruct (Hnone c Hc') as [Hs' _]. congruence.
      + rewrite lookup_insert_ne by done. rewrite Hother by done. by apply Hnone. }
  destruct Hstep as [s c Hc|s c k Hc|s c k Hc Hm|s c k h Hc Hm|s c f k Hc
                    |s c k Hc|s c f k Hs|s c ks kc Hs Hc|s c k Hs|s c k Hc Hcl];
    simpl.
  - split.
    + intros c' code Hc'. destruct (decide (c = c')) as [<-|Hne].
      * rewrite lookup_insert_eq in Hc'. injection Hc' as <-.
        destruct (Hnone c Hc) as [Hs Hcl]. left.
        split; [unfold collect_code; simpl; by left|]. done.
      * rewrite lookup_insert_ne in Hc' by done. by apply Hscr.
    + intros c' Hc'. destruct (decide (c = c')) as [<-|Hne].
      * by rewrite lookup_insert_eq in Hc'.
      * rewrite lookup_insert_ne in Hc' by done. by apply Hnone.
  - apply (Hadv c GoScrape k); [done| |].
    + rewrite lookup_insert_eq.
      apply (scraper_inv_go _ c (mutex s) (scrapers s !! c));
        [apply Hplan|by apply Hcol|by apply Hscr].
    + intros c' Hne. by rewrite lookup_insert_ne.
  - apply (Hadv c Lock k); [done| |done].
    apply (scraper_inv_advance _ _ _ Lock); [done..|by apply Hscr].
  - apply (Hadv c Unlock k); [done| |done].
    apply (scraper_inv_advance _ _ _ Unlock); [done..|by apply Hscr].
  - apply (Hadv c (Write f) k); [done| |done].
    apply (scraper_inv_advance _ _ _ (Write f)); [done..|by apply Hscr].
  - apply (Hadv c Deliver k); [done| |done].
    apply (scraper_inv_advance _ _ _ Deliver); [done..|by apply Hscr].
  - apply (Hscraper c (Write f) k k); [done| |done].
    intros code Hc. apply (scraper_inv_write _ _ f). rewrite <- Hs. by apply Hscr.
  - apply (Hadv c Receive kc); [done| |].
    + rewrite lookup_insert_eq. apply scraper_inv_handoff.
      rewrite <- Hs. by apply Hscr.
    + intros c' Hne. by rewrite lookup_insert_ne.
  - apply (Hscraper c Close k k); [done| |].
    + intros code Hc. specialize (Hscr c code Hc). rewrite Hs in Hscr.
      apply scraper_inv_close in Hscr as [_ Hscr].
      apply (scraper_inv_iff _ _ True); [|done].
      split; [intros _; apply elem_of_union; left; by apply elem_of_singleton|done].
    + intros c' Hne. rewrite elem_of_union, elem_of_singleton.
      split; [intros [Heq|Hin]; [congruence|done]|by right].
  - apply (Hadv c Receive k); [done| |done].
    apply scraper_inv_receive_closed; [done|by apply Hscr].
Qed.

Lemma init_protocol_inv plan : protocol_inv plan init.
Proof.
  split; [apply init_state_inv|]. split; simpl.
  - intros c code Hc. by rewrite lookup_empty in Hc.
  - intros c _. split; [apply lookup_empty|apply not_elem_of_empty].
Qed.

Lemma run_protocol_inv plan s tr s' :
  plan_ok plan → protocol_inv plan s → run plan s tr s' → protocol_inv plan s'.
Proof.
  intros Hplan Hinv Hrun. induction Hrun as [s|s e s' tr s'' Hstep Hrun IH]; [done|].
  apply IH. by apply (step_protocol_inv plan s e s').
Qed.

(** A scraping goroutine with operations left can run the next one, the
    [Send] provided its collecting goroutine is at the receive. *)
Lemma scraper_can_step plan s c j r pre ok :
  scrapers s !! c = Some (j :: r) →
  pre ++ j :: r = scrape_code ok →
  (j = Send → ∃ kc, collectors s !! c = Some (Receive :: kc)) →
  ∃ e s', goroutine_event e ∧ step plan s e s'.
Proof.
  intros Hs Hpre Hsend.
  destruct (scrape_code_head _ _ _ _ Hpre) as [[f ->]|[->| ->]].
  - eexists _, _. split; [|by eapply step_scraper_write]. done.
  - destruct Hsend as [kc Hc]; [done|].
    eexists _, _. split; [|by eapply step_handoff]. done.
  - eexists _, _. split; [|by eapply step_close]. done.
Qed.

Lemma protocol_progress plan s :
  plan_ok plan → protocol_inv plan s →
  finished s ∨ ∃ e s', goroutine_event e ∧ step plan s e s'.
Proof.
  intros Hplan ([Hcol Hmut] & Hscr & Hnone).
  destruct (mutex s) as [h|] eqn:Hm.
  - right. destruct (Hmut h eq_refl) as [code Hc].
    pose proof (Hcol h code Hc) as Hci.
    destruct Hci as [[_ Hne]|[[_ Hne]|[[[Hnil [pre Hpre]] _]|[_ Hne]]]]; try done.
    destruct code as [|i k]; [done|].
    assert (Hi : i ∈ critical (plan h) ++ [Unlock]).
    { rewrite <- Hpre. apply elem_of_app. right. by left. }
    apply elem_of_app in Hi as [Hi|Hi].
    + destruct (critical_instr _ _ (Hplan h) Hi) as [->|[->|[f ->]]].
      * eexists _, _. split; [|by eapply step_collector_deliver]. done.
      * destruct (Hscr h _ Hc)
          as [(Hgo & _)|(Hnin & rest & Hs & [pre' Hpre'] & Hdone & Hsend)].
        { exfalso. by apply (critical_no_go (plan h) pre (Receive :: k) (Hplan h) Hpre). }
        destruct rest as [|j r].
        { eexists _, _. split; [|eapply step_receive_closed; [done|by apply Hdone]].
          done. }
        apply (scraper_can_step plan s h j r pre' (fetched (plan h))); [done..|].
        intros _. by exists k.
      * eexists _, _. split; [|by eapply step_collector_write]. done.
    + apply list_elem_of_singleton in Hi as ->.
      eexists _, _. split; [|by eapply step_unlock]. done.
  - destruct (decide (map_Forall (λ _ code, length code = 0%nat) (collectors s)))
      as [Hall|Hex].
    + destruct (decide (map_Forall (λ _ code, length code = 0%nat) (scrapers s)))
        as [Hall'|Hex'].
      * left. split; intros c code Hc; apply nil_length_inv;
          [by apply (Hall c)|by apply (Hall' c)].
      * right. apply map_not_Forall in Hex' as (c & rest & Hs & Hlen); [|apply _].
        destruct rest as [|j r]; [done|].
        destruct (collectors s !! c) as [code|] eqn:Hc;
          [|destruct (Hnone c Hc) as [Hs' _]; congruence].
        assert (code = []) as -> by (apply nil_length_inv; by apply (Hall c)).
        destruct (Hscr c [] Hc)
          as [(Hgo & _)|(_ & rest & Hs' & [pre Hpre] & _ & Hsend)].
        { by apply elem_of_nil in Hgo. }
        rewrite Hs in Hs'. injection Hs' as <-.
        apply (scraper_can_step plan s c j r pre (fetched (plan c))); [done..|].
        intros ->. exfalso.
        assert (Hr : Receive ∈ @nil instr) by (apply Hsend; by left).
        by apply elem_of_nil in Hr.
    + right. apply map_not_Forall in Hex as (c & code & Hc & Hlen); [|apply _].
      pose proof (Hcol c code Hc) as Hci.
      destruct Hci as [[-> _]|[[-> _]|[[_ ?]|[-> _]]]]; [| |done..].
      * eexists _, _. split; [|by eapply step_go]. done.
      * eexists _, _. split; [|by eapply step_lock]. done.
Qed.

End Progress.

(** X13.  The mutex is never leaked.  In every execution of any number of
    concurrent [Collect] invocations, whoever holds the mutex is a
    collecting goroutine between its [Lock] and its deferred [Unlock]; an
    invocation that has returned does not hold it; and once every goroutine
    has finished the mutex is free. *)
Theorem mutex_never_leaked (plan : nat → Concurrency.cycle)
    (tr : list Concurrency.event) (s : Concurrency.state) :
  Concurrency.plan_ok plan →
  Concurrency.run plan Concurrency.init tr s →
  (∀ c, Concurrency.mutex s = Some c →
        ∃ code, Concurrency.collectors s !! c = Some code
                ∧ Concurrency.in_critical (plan c) code)
  ∧ (∀ c, Concurrency.collectors s !! c = Some [] → Concurrency.mutex s ≠ Some c)
  ∧ (finished s → Concurrency.mutex s = None).
Proof.
  intros Hplan Hrun.
  destruct (run_state_inv plan _ _ _ Hplan (init_state_inv plan) Hrun) as [[Hcol Hmut] _].
  assert (Hheld : ∀ c, Concurrency.mutex s = Some c →
            ∃ code, Concurrency.collectors s !! c = Some code
                    ∧ Concurrency.in_critical (plan c) code).
  { intros c Hm. destruct (Hmut c Hm) as [code Hc]. exists code. split; [done|].
    destruct (Hcol c code Hc) as [[_ Hne]|[[_ Hne]|[[Hin _]|[_ Hne]]]]; done. }
  split; [done|]. split.
  - intros c Hc Hm. destruct (Hheld c Hm) as (code & Hc' & [Hne _]). congruence.
  - intros [Hfin _]. destruct (Concurrency.mutex s) as [c|] eqn:Hm; [|done].
    destruct (Hheld c eq_refl) as (code & Hc & [Hne _]).
    by rewrite (Hfin c code Hc) in Hne.
Qed.

Lemma mutex_never_leaked_witness :
  (∀ c, Concurrency.mutex interleaved_final = Some c →
        ∃ code, Concurrency.collectors interleaved_final !! c = Some code
                ∧ Concurrency.in_critical (Concurrency.two_cycles c) code)
  ∧ (∀ c, Concurrency.collectors interleaved_final !! c = Some [] →
          Concurrency.mutex interleaved_final ≠ Some c)
  ∧ (finished interleaved_final → Concurrency.mutex interleaved_final = None).
Proof.
  apply (mutex_never_leaked Concurrency.two_cycles interleaved_trace interleaved_final).
  - apply two_cycles_ok.
  - apply interleaved_trace_runs.
Defined.

(** X14.  The [jsonStats] channel of an invocation is used as Go requires.
    In every execution, a scraping goroutine is at some point of [scrape];
    its channel is closed exactly when it has finished, so neither its send
    nor its deferred close ever meets a closed channel; a closed channel
    belongs to a finished scraper; and while the send is still ahead, the
    collecting goroutine of the same invocation has its receive ahead too,
    so the list, once sent, has a receiver. *)
Theorem jsonStats_channel_protocol (plan : nat → Concurrency.cycle)
    (tr : list Concurrency.event) (s : Concurrency.state) :
  Concurrency.plan_ok plan →
  Concurrency.run plan Concurrency.init tr s →
  (∀ c rest,
     Concurrency.scrapers s !! c = Some rest →
     (∃ pre, pre ++ rest = Concurrency.scrape_code (Concurrency.fetched (plan c)))
     ∧ (rest = [] ↔ c ∈ Concurrency.closed s)
     ∧ (Concurrency.Send ∈ rest →
        ∃ code, Concurrency.collectors s !! c = Some code
                ∧ Concurrency.Receive ∈ code))
  ∧ (∀ c, c ∈ Concurrency.closed s → Concurrency.scrapers s !! c = Some []).
Proof.
  intros Hplan Hrun.
  destruct (run_protocol_inv plan _ _ _ Hplan (init_protocol_inv plan) Hrun)
    as (_ & Hscr & Hnone).
  split.
  - intros c rest Hs.
    destruct (Concurrency.collectors s !! c) as [code|] eqn:Hc;
      [|destruct (Hnone c Hc) as [Hs' _]; congruence].
    destruct (Hscr c code Hc) as [(_ & Hs' & _)|(_ & rest' & Hs' & Hpre & Hdone & Hsend)];
      [congruence|].
    rewrite Hs in Hs'. injection Hs' as <-.
    split; [done|]. split; [done|]. intros Hin. exists code. split; [done|by apply Hsend].
  - intros c Hcl.
    destruct (Concurrency.collectors s !! c) as [code|] eqn:Hc;
      [|by destruct (Hnone c Hc) as [_ Hncl]].
    destruct (Hscr c code Hc) as [(_ & _ & Hncl)|(_ & rest & Hs & _ & Hdone & _)]; [done|].
    apply Hdone in Hcl. by subst.
Qed.

Lemma jsonStats_channel_protocol_witness :
  (∀ c rest,
     Concurrency.scrapers interleaved_final !! c = Some rest →
     (∃ pre, pre ++ rest
             = Concurrency.scrape_code (Concurrency.fetched (Concurrency.two_cycles c)))
     ∧ (rest = [] ↔ c ∈ Concurrency.closed interleaved_final)
     ∧ (Concurrency.Send ∈ rest →
        ∃ code, Concurrency.collectors interleaved_final !! c = Some code
                ∧ Concurrency.Receive ∈ code))
  ∧ (∀ c, c ∈ Concurrency.closed interleaved_final →
          Concurrency.scrapers interleaved_final !! c = Some []).
Proof.
  apply (jsonStats_channel_protocol Concurrency.two_cycles interleaved_trace
           interleaved_final).
  - apply two_cycles_ok.
  - apply interleaved_trace_runs.
Defined.

(** X15.  [Collect] cannot deadlock.  In every state that any number of
    concurrent invocations can reach, either every goroutine has run to its
    end, or some goroutine can run its next operation: the mutex holder is
    never stuck at the receive, because its scraper can write, hand the list
    over or close the channel, and the scraper never waits for a collector
    that has gone.  (The registry is taken to keep receiving from the
    collector channel and the fetch to return.) *)
Theorem collect_never_deadlocks (plan : nat → Concurrency.cycle)
    (tr : list Concurrency.event) (s : Concurrency.state) :
  Concurrency.plan_ok plan →
  Concurrency.run plan Concurrency.init tr s →
  finished s ∨ ∃ e s', goroutine_event e ∧ Concurrency.step plan s e s'.
Proof.
  intros Hplan Hrun. apply protocol_progress; [done|].
  by apply (run_protocol_inv plan _ _ _ Hplan (init_protocol_inv plan) Hrun).
Qed.

Lemma collect_never_deadlocks_witness :
  finished interleaved_final
  ∨ ∃ e s', goroutine_event e
            ∧ Concurrency.step Concurrency.two_cycles interleaved_final e s'.
Proof.
  apply (collect_never_deadlocks Concurrency.two_cycles interleaved_trace).
  - apply two_cycles_ok.
  - apply interleaved_trace_runs.
Defined.

(** ** Map iteration order and goroutine scheduling *)

Lemma counter_keys_Permutation rt1 rt2 defs :
  Runtime_ok rt1 → Runtime_ok rt2 → counter_keys rt1 defs ≡ₚ counter_keys rt2 defs.
Proof.
  intros H1 H2. unfold counter_keys. induction defs as [|def defs IH]; [done|].
  simpl. rewrite IH. apply Permutation_app_tail.
  by rewrite (H1 _ _ (cd_labelMap def)), (H2 _ _ (cd_labelMap def)).
Qed.

Lemma counters_sent_Permutation rt1 rt2 statsMap e defs :
  Runtime_ok rt1 → Runtime_ok rt2 →
  counters_sent rt1 statsMap e defs ≡ₚ counters_sent rt2 statsMap e defs.
Proof.
  intros H1 H2. unfold counters_sent. induction defs as [|def defs IH]; [done|].
  simpl. rewrite IH. apply Permutation_app_tail.
  destruct (counterMetrics e !! cd_id def); [|done]. unfold counter_series.
  by rewrite (H1 _ _ (cd_labelMap def)), (H2 _ _ (cd_labelMap def)).
Qed.

Lemma histogram_block_lengths rt1 rt2 statsMap e :
  Runtime_ok rt1 → Runtime_ok rt2 →
  length (histogram_sent rt1 statsMap e) = length (histogram_sent rt2 statsMap e)
  ∧ length (histogram_logged rt1 statsMap e) = length (histogram_logged rt2 statsMap e).
Proof.
  intros H1 H2. unfold histogram_sent, histogram_logged.
  destruct (String.eqb _ _); [|done].
  destruct (required_present_cases statsMap) as [Hp|Hmiss].
  - destruct (makeRecursorRTimeHistogram_present rt1 statsMap H1 Hp) as (b1 & -> & _).
    by destruct (makeRecursorRTimeHistogram_present rt2 statsMap H2 Hp) as (b2 & -> & _).
  - destruct (makeRecursorRTimeHistogram_missing rt1 statsMap H1 Hmiss) as (k1 & _ & _ & ->).
    by destruct (makeRecursorRTimeHistogram_missing rt2 statsMap H2 Hmiss)
      as (k2 & _ & _ & ->).
Qed.

(** X16.  The order in which Go iterates the label maps, the bucket map
    and the histogram buckets does not change what a cycle exports, only
    the order of the series.  Two runs of the same cycle under different
    iteration orders leave the same exporter (the same gauges, the same
    counters), send the same constant counter metrics up to order, both
    send a histogram or neither does, and they log the same number of
    lines. *)
Theorem map_order_irrelevant (rt1 rt2 : Runtime) (fetch : string + list StatsEntry)
    (w : World) :
  Runtime_ok rt1 → Runtime_ok rt2 → exporter_ok (exporter w) →
  ∃ w1 w2 counters1 counters2 histogram1 histogram2,
    Collect rt1 fetch w = Returned tt w1
    ∧ Collect rt2 fetch w = Returned tt w2
    ∧ exporter w1 = exporter w2
    ∧ sent w1 = sent w ++ [UpMetric; TotalScrapesMetric; JsonParseFailuresMetric]
                       ++ counters1 ++ histogram1
    ∧ sent w2 = sent w ++ [UpMetric; TotalScrapesMetric; JsonParseFailuresMetric]
                       ++ counters2 ++ histogram2
    ∧ counters1 ≡ₚ counters2
    ∧ Forall (λ m, is_histogram m = false) counters1
    ∧ Forall (λ m, is_histogram m = true) histogram1
    ∧ Forall (λ m, is_histogram m = true) histogram2
    ∧ length histogram1 = length histogram2
    ∧ length (logged w1) = length (logged w2).
Proof.
  intros H1 H2 Hok.
  assert (Hhist : ∀ rt statsMap,
            Forall (λ m, is_histogram m = true) (histogram_sent rt statsMap (exporter w))).
  { intros rt statsMap.
    destruct (histogram_sent_cases rt statsMap (exporter w))
      as [[-> _]|(_ & count & buckets & _ & ->)]; by repeat constructor. }
  destruct fetch as [err|[|s stats]].
  - exists (cycle_world rt1 (inl err) w), (cycle_world rt2 (inl err) w), [], [], [], [].
    split; [by apply Collect_spec|]. split; [by apply Collect_spec|].
    repeat split; by constructor.
  - exists (cycle_world rt1 (inr []) w), (cycle_world rt2 (inr []) w), [], [], [], [].
    split; [by apply Collect_spec|]. split; [by apply Collect_spec|].
    repeat split; by constructor.
  - set (statsMap := build_statsMap (s :: stats)).
    exists (cycle_world rt1 (inr (s :: stats)) w), (cycle_world rt2 (inr (s :: stats)) w),
      (counters_sent rt1 statsMap (exporter w) (counterDefs (exporter w))),
      (counters_sent rt2 statsMap (exporter w) (counterDefs (exporter w))),
      (histogram_sent rt1 statsMap (exporter w)),
      (histogram_sent rt2 statsMap (exporter w)).
    split; [by apply Collect_spec|]. split; [by apply Collect_spec|].
    destruct (histogram_block_lengths rt1 rt2 statsMap (exporter w) H1 H2) as [Hs Hl].
    assert (Habs : length (cycle_absent rt1 statsMap (exporter w))
                   = length (cycle_absent rt2 statsMap (exporter w))).
    { unfold cycle_absent. rewrite !length_app. f_equal.
      apply Permutation_length, absent_Permutation.
      by apply counter_keys_Permutation. }
    split.
    { unfold cycle_world, cycle_failures. simpl. fold statsMap. by rewrite Habs. }
    split; [done|]. split; [done|].
    split; [by apply counters_sent_Permutation|].
    split; [apply counters_sent_no_histogram|].
    split; [apply Hhist|]. split; [apply Hhist|]. split; [done|].
    simpl. fold statsMap. rewrite !length_app, !length_fmap. by rewrite Habs, Hl.
Qed.

Lemma map_order_irrelevant_witness :
  let w := mkWorld (NewExporter "" "recursor" "") [] [] in
  let reversed := mkRuntime (λ _ _ m, reverse m) (λ _, 0) in
  ∃ w1 w2 counters1 counters2 histogram1 histogram2,
    Collect source_order_runtime (inr scenario_stats) w = Returned tt w1
    ∧ Collect reversed (inr scenario_stats) w = Returned tt w2
    ∧ exporter w1 = exporter w2
    ∧ sent w1 = [UpMetric; TotalScrapesMetric; JsonParseFailuresMetric]
                ++ counters1 ++ histogram1
    ∧ sent w2 = [UpMetric; TotalScrapesMetric; JsonParseFailuresMetric]
                ++ counters2 ++ histogram2
    ∧ counters1 ≡ₚ counters2
    ∧ length histogram1 = length histogram2
    ∧ length (logged w1) = length (logged w2).
Proof.
  intros w reversed.
  destruct (map_order_irrelevant source_order_runtime reversed (inr scenario_stats) w)
    as (w1 & w2 & c1 & c2 & h1 & h2 & Hr1 & Hr2 & He & Hs1 & Hs2 & Hc & _ & _ & _
        & Hh & Hl).
  - apply source_order_runtime_ok.
  - intros K V m. apply reverse_Permutation.
  - apply NewExporter_ok.
  - exists w1, w2, c1, c2, h1, h2.
    split; [exact Hr1|]. split; [exact Hr2|]. split; [exact He|].
    split; [exact Hs1|]. split; [exact Hs2|]. split; [exact Hc|].
    split; [exact Hh|exact Hl].
Defined.

Lemma late_scrape_interleaving_ok data :
  interleaving (scrape_actions (inr data)) collect_actions late_scrape_interleaving.
Proof.
  unfold scrape_actions, collect_actions, late_scrape_interleaving.
  apply interleaving_right, interleaving_left, interleaving_right, interleaving_right,
    interleaving_left, interleaving_nil.
Qed.

(** X17.  The scheduling of the two goroutines of a cycle does not change
    its outcome.  [scrape] writes the housekeeping objects and the log while
    the collecting goroutine sends the three housekeeping metrics; whatever
    the interleaving of those steps, [collectMetrics] starts in the same
    world, so the cycle ends as the sequential [Collect] does.  The
    housekeeping metrics are sent as objects, read after the cycle: a write
    of [scrape] that comes after the send is still seen. *)
Theorem Collect_any_interleaving (rt : Runtime) (fetch : string + list StatsEntry)
    (l : list action) (w : World) :
  interleaving (scrape_actions fetch) collect_actions l →
  foldl (flip act) w l = foldl (flip act) w (scrape_actions fetch ++ collect_actions)
  ∧ collectMetrics rt (scrape_handover fetch) (foldl (flip act) w l) = Collect rt fetch w.
Proof.
  intros Hl. split; [|by apply Collect_interleaving].
  assert (Hseq : interleaving (scrape_actions fetch) collect_actions
                   (scrape_actions fetch ++ collect_actions)).
  { unfold collect_actions. destruct fetch; simpl; repeat constructor. }
  assert (Hoff : Forall off_channel (scrape_actions fetch))
    by (destruct fetch; by repeat constructor).
  assert (Hon : Forall on_channel collect_actions) by (by repeat constructor).
  destruct (interleaving_acts _ _ _ Hl Hoff Hon w w w) as (He & Hlog & Hs); try done.
  destruct (interleaving_acts _ _ _ Hseq Hoff Hon w w w) as (He' & Hlog' & Hs'); try done.
  destruct (foldl (flip act) w l) as [e1 s1 l1].
  destruct (foldl (flip act) w (scrape_actions fetch ++ collect_actions)) as [e2 s2 l2].
  simpl in *. congruence.
Qed.

Lemma Collect_any_interleaving_witness :
  let w := mkWorld (NewExporter "" "recursor" "") [] [] in
  foldl (flip act) w late_scrape_interleaving
  = foldl (flip act) w (scrape_actions (inr scenario_stats) ++ collect_actions)
  ∧ collectMetrics source_order_runtime (Some scenario_stats)
      (foldl (flip act) w late_scrape_interleaving)
    = Collect source_order_runtime (inr scenario_stats) w.
Proof.
  intros w.
  apply (Collect_any_interleaving source_order_runtime (inr scenario_stats)
           late_scrape_interleaving w).
  apply late_scrape_interleaving_ok.
Defined.
